(** * Enough Internet for Today: the layered content filter

    A shallow embedding of the background classification engine
    ([src/background.ts]) and of the content-script scan controller
    ([src/content.ts]), with the properties the specification states
    about them, followed by the message listener that joins the two and
    by the list handling of the popup and of the options page.

    JavaScript strings are sequences of UTF-16 code units; every string
    operation below is written over that representation, as the
    language defines it. *)

From Stdlib Require Import ZArith String Ascii DecimalString.
From Equations Require Import Equations.
From stdpp Require Import base decidable option list gmap sets strings functions.

Set Warnings "-register-all,-clear-no-such-hyp".
Open Scope Z_scope.

(** ** The JavaScript values the program manipulates *)

Module Js.

(** A string is the list of its UTF-16 code units. *)
Definition JsString := list Z.

(** A source literal made of ASCII characters only. *)
Definition lit (s : string) : JsString :=
  (fun a => Z.of_nat (nat_of_ascii a)) <$> list_ascii_of_string s.

(** A literal in which the apostrophe stands for the double quote
    (code unit 34), for texts that carry JSON. *)
Definition qlit (s : string) : JsString :=
  (fun c => if c =? 39 then 34 else c) <$> lit s.

(** The truth value of a string: the empty string is the only falsy one. *)
Definition truthyString (s : JsString) : bool :=
  match s with [] => false | _ => true end.

(** WhiteSpace and LineTerminator code units, the ones [trim] removes. *)
Definition isWhiteSpace (c : Z) : bool :=
  ((9 <=? c) && (c <=? 13)) || (c =? 32) || (c =? 160) || (c =? 5760)
  || ((8192 <=? c) && (c <=? 8202)) || (c =? 8232) || (c =? 8233)
  || (c =? 8239) || (c =? 8287) || (c =? 12288) || (c =? 65279).

Fixpoint trimStart (s : JsString) : JsString :=
  match s with
  | c :: s' => if isWhiteSpace c then trimStart s' else s
  | [] => []
  end.

Definition trimEnd (s : JsString) : JsString := rev (trimStart (rev s)).

(** [String.prototype.trim] *)
Definition trim (s : JsString) : JsString := trimEnd (trimStart s).

(** [String.prototype.split] with a one-unit separator: the empty string
    splits into one empty piece. *)
Fixpoint split (sep : Z) (s : JsString) : list JsString :=
  match s with
  | [] => [[]]
  | c :: s' =>
      if c =? sep then [] :: split sep s'
      else match split sep s' with
           | w :: ws => (c :: w) :: ws
           | [] => [[c]]
           end
  end.

(** [String.prototype.startsWith] *)
Fixpoint startsWith (s p : JsString) : bool :=
  match p, s with
  | [], _ => true
  | a :: p', b :: s' => (a =? b) && startsWith s' p'
  | _ :: _, [] => false
  end.

(** [String.prototype.includes] *)
Fixpoint includes (s needle : JsString) : bool :=
  startsWith s needle ||
  match s with
  | [] => false
  | _ :: s' => includes s' needle
  end.

(** Lower-casing restricted to the ASCII letters; it agrees with
    [String.prototype.toLowerCase] on ASCII text and serves as the
    concrete instance in the worked examples. *)
Definition asciiToLowerCase (s : JsString) : JsString :=
  (fun c => if (65 <=? c) && (c <=? 90) then c + 32 else c) <$> s.

(** Lower-casing of text made of ASCII letters, Greek capital letters
    (U+0391..U+03A9), digits and spaces: a capital becomes its small
    letter, and a capital sigma that ends a word -- a letter before it,
    none after it -- becomes the final sigma U+03C2.  That is the one
    rule of [String.prototype.toLowerCase] that looks at the neighbours
    of a character. *)
Definition isLetterUnit (c : Z) : bool :=
  ((65 <=? c) && (c <=? 90)) || ((97 <=? c) && (c <=? 122))
  || ((913 <=? c) && (c <=? 937) && negb (c =? 930))
  || ((945 <=? c) && (c <=? 969)).

Definition lowerUnit (c : Z) : Z :=
  if ((65 <=? c) && (c <=? 90))
     || ((913 <=? c) && (c <=? 937) && negb (c =? 930))
  then c + 32 else c.

Fixpoint lowerAfter (afterLetter : bool) (s : JsString) : JsString :=
  match s with
  | [] => []
  | c :: rest =>
      (if (c =? 931) && afterLetter
          && negb (match rest with d :: _ => isLetterUnit d | [] => false end)
       then 962 else lowerUnit c)
      :: lowerAfter (isLetterUnit c) rest
  end.

Definition greekToLowerCase (s : JsString) : JsString := lowerAfter false s.

(** Decimal rendering of a natural number ([String(n)] for an integer). *)
Definition decimal (n : nat) : JsString :=
  lit (NilZero.string_of_uint (Nat.to_uint n)).

(** *** Error objects *)

(** The built-in error classes; an exception carries its class and its
    message. *)
Inductive ErrorClass := EError | ETypeError | ESyntaxError | ERangeError.

Definition className (c : ErrorClass) : JsString :=
  match c with
  | EError => lit "Error"
  | ETypeError => lit "TypeError"
  | ESyntaxError => lit "SyntaxError"
  | ERangeError => lit "RangeError"
  end.

Record JsError := mkJsError { err_class : ErrorClass; err_message : JsString }.

(** [new Error(msg)] *)
Definition newError (msg : JsString) : JsError := mkJsError EError msg.

(** [String(error)], that is [Error.prototype.toString]. *)
Definition String_of_error (e : JsError) : JsString :=
  match err_message e with
  | [] => className (err_class e)
  | msg => className (err_class e) ++ lit ": " ++ msg
  end.

(** *** Values produced by [JSON.parse] *)

(** A number is kept as the decimal literal [m * 10^e] it was read from. *)
Inductive JsValue :=
| JUndefined
| JNull
| JBool (b : bool)
| JNumber (m e : Z)
| JString (s : JsString)
| JArray (l : list JsValue)
| JObject (kvs : list (JsString * JsValue)).

(** The double nearest to [m * 10^e] is zero exactly when the magnitude
    does not exceed half of the least subnormal, [2^-1075]. *)
Definition numberIsZero (m e : Z) : bool :=
  if m =? 0 then true
  else if 0 <=? e then false
  else Z.abs m * 2 ^ 1075 <=? 10 ^ (- e).

(** [Boolean(v)], the ToBoolean conversion. *)
Definition Boolean (v : JsValue) : bool :=
  match v with
  | JUndefined | JNull => false
  | JBool b => b
  | JNumber m e => negb (numberIsZero m e)
  | JString s => truthyString s
  | JArray _ | JObject _ => true
  end.

(** Own property of an object built by [JSON.parse]: with duplicate keys
    the last one wins. *)
Fixpoint ownProperty (kvs : list (JsString * JsValue)) (key : JsString)
  : option JsValue :=
  match kvs with
  | [] => None
  | (k, v) :: rest =>
      match ownProperty rest key with
      | Some v' => Some v'
      | None => if bool_decide (k = key) then Some v else None
      end
  end.

(** *** A reference [JSON.parse]

    The grammar of ECMA-404, read off a list of code units.  [None]
    stands for the [SyntaxError] the built-in throws. *)

Definition isJsonWs (c : Z) : bool :=
  (c =? 32) || (c =? 9) || (c =? 10) || (c =? 13).

Fixpoint skipWs (s : JsString) : JsString :=
  match s with
  | c :: s' => if isJsonWs c then skipWs s' else s
  | [] => []
  end.

Definition isDigit (c : Z) : bool := (48 <=? c) && (c <=? 57).

Definition hexValue (c : Z) : option Z :=
  if isDigit c then Some (c - 48)
  else if (97 <=? c) && (c <=? 102) then Some (c - 87)
  else if (65 <=? c) && (c <=? 70) then Some (c - 55)
  else None.

Definition hex4 (a b c d : Z) : option Z :=
  match hexValue a, hexValue b, hexValue c, hexValue d with
  | Some x, Some y, Some z, Some w => Some (((x * 16 + y) * 16 + z) * 16 + w)
  | _, _, _, _ => None
  end.

Definition simpleEscape (c : Z) : option Z :=
  if c =? 34 then Some 34 else if c =? 92 then Some 92
  else if c =? 47 then Some 47 else if c =? 98 then Some 8
  else if c =? 102 then Some 12 else if c =? 110 then Some 10
  else if c =? 114 then Some 13 else if c =? 116 then Some 9
  else None.

(** The characters of a string literal, after its opening quote. *)
Fixpoint parseStringBody (s : JsString) : option (JsString * JsString) :=
  match s with
  | [] => None
  | c :: rest =>
      if c =? 34 then Some ([], rest)
      else if c =? 92 then
        match rest with
        | e :: rest1 =>
            if e =? 117 then
              match rest1 with
              | h1 :: h2 :: h3 :: h4 :: rest2 =>
                  match hex4 h1 h2 h3 h4, parseStringBody rest2 with
                  | Some u, Some (str, r) => Some (u :: str, r)
                  | _, _ => None
                  end
              | _ => None
              end
            else
              match simpleEscape e, parseStringBody rest1 with
              | Some u, Some (str, r) => Some (u :: str, r)
              | _, _ => None
              end
        | [] => None
        end
      else if c <? 32 then None
      else match parseStringBody rest with
           | Some (str, r) => Some (c :: str, r)
           | None => None
           end
  end.

Fixpoint takeDigits (s : JsString) : JsString * JsString :=
  match s with
  | c :: s' =>
      if isDigit c then let '(ds, r) := takeDigits s' in (c :: ds, r)
      else ([], s)
  | [] => ([], [])
  end.

Definition digitsValue (ds : JsString) : Z :=
  fold_left (fun acc d => acc * 10 + (d - 48)) ds 0.

(** A number literal: an optional minus sign, an integer part without
    leading zero, an optional fraction and an optional exponent. *)
Definition parseNumber (s : JsString) : option (JsValue * JsString) :=
  let '(neg, s1) :=
    match s with
    | c :: s' => if c =? 45 then (true, s') else (false, s)
    | [] => (false, s)
    end in
  let '(ints, s2) := takeDigits s1 in
  match ints with
  | [] => None
  | d :: more =>
      if (d =? 48) && truthyString more then None
      else
        let fracPart :=
          match s2 with
          | c :: s' =>
              if c =? 46 then
                match takeDigits s' with
                | ([], _) => None
                | (fs, r) => Some (fs, r)
                end
              else Some ([], s2)
          | [] => Some ([], s2)
          end in
        match fracPart with
        | None => None
        | Some (fracs, s3) =>
            let expPart :=
              match s3 with
              | c :: s' =>
                  if (c =? 101) || (c =? 69) then
                    let '(eneg, s4) :=
                      match s' with
                      | g :: s'' =>
                          if g =? 45 then (true, s'')
                          else if g =? 43 then (false, s'')
                          else (false, s')
                      | [] => (false, s')
                      end in
                    match takeDigits s4 with
                    | ([], _) => None
                    | (es, r) =>
                        Some ((if eneg then - digitsValue es
                               else digitsValue es), r)
                    end
                  else Some (0, s3)
              | [] => Some (0, s3)
              end in
            match expPart with
            | None => None
            | Some (ex, rest) =>
                let m := digitsValue (ints ++ fracs) in
                Some (JNumber (if neg then - m else m)
                              (ex - Z.of_nat (length fracs)), rest)
            end
        end
  end.

Definition parseLiteral (word : JsString) (v : JsValue) (s : JsString)
  : option (JsValue * JsString) :=
  if startsWith s word then Some (v, drop (length word) s) else None.

Fixpoint parseValue (fuel : nat) (s : JsString) {struct fuel}
  : option (JsValue * JsString) :=
  match fuel with
  | O => None
  | S fuel' =>
      match skipWs s with
      | [] => None
      | c :: rest =>
          if c =? 123 then
            match skipWs rest with
            | 125 :: rest' => Some (JObject [], rest')
            | _ =>
                match parseMembers fuel' rest with
                | Some (kvs, r) => Some (JObject kvs, r)
                | None => None
                end
            end
          else if c =? 91 then
            match skipWs rest with
            | 93 :: rest' => Some (JArray [], rest')
            | _ =>
                match parseElements fuel' rest with
                | Some (vs, r) => Some (JArray vs, r)
                | None => None
                end
            end
          else if c =? 34 then
            match parseStringBody rest with
            | Some (str, r) => Some (JString str, r)
            | None => None
            end
          else if c =? 116 then parseLiteral (lit "true") (JBool true) (c :: rest)
          else if c =? 102 then parseLiteral (lit "false") (JBool false) (c :: rest)
          else if c =? 110 then parseLiteral (lit "null") JNull (c :: rest)
          else parseNumber (c :: rest)
      end
  end
with parseElements (fuel : nat) (s : JsString) {struct fuel}
  : option (list JsValue * JsString) :=
  match fuel with
  | O => None
  | S fuel' =>
      match parseValue fuel' s with
      | None => None
      | Some (v, r) =>
          match skipWs r with
          | c :: r' =>
              if c =? 93 then Some ([v], r')
              else if c =? 44 then
                match parseElements fuel' r' with
                | Some (vs, r'') => Some (v :: vs, r'')
                | None => None
                end
              else None
          | [] => None
          end
      end
  end
with parseMembers (fuel : nat) (s : JsString) {struct fuel}
  : option (list (JsString * JsValue) * JsString) :=
  match fuel with
  | O => None
  | S fuel' =>
      match skipWs s with
      | 34 :: s1 =>
          match parseStringBody s1 with
          | None => None
          | Some (key, s2) =>
              match skipWs s2 with
              | 58 :: s3 =>
                  match parseValue fuel' s3 with
                  | None => None
                  | Some (v, r) =>
                      match skipWs r with
                      | c :: r' =>
                          if c =? 125 then Some ([(key, v)], r')
                          else if c =? 44 then
                            match parseMembers fuel' r' with
                            | Some (kvs, r'') => Some ((key, v) :: kvs, r'')
                            | None => None
                            end
                          else None
                      | [] => None
                      end
                  end
              | _ => None
              end
          end
      | _ => None
      end
  end.

(** The whole text must be one value, surrounded by white space only.
    Every recursive call follows the consumption of at least one code
    unit, so twice the length of the text is fuel enough. *)
Definition json_parse (s : JsString) : option JsValue :=
  match parseValue (2 * length s + 2) s with
  | Some (v, rest) =>
      match skipWs rest with
      | [] => Some v
      | _ :: _ => None
      end
  | None => None
  end.

(** [String.prototype.endsWith] *)
Definition endsWith (s suffix : JsString) : bool :=
  (length suffix <=? length s)%nat
  && bool_decide (drop (length s - length suffix) s = suffix).

(** [String.prototype.substring(0, n)] *)
Definition substringTo (n : nat) (s : JsString) : JsString := take n s.

(** *** What the string operations decide *)

Lemma startsWith_prefix (s p : JsString) :
  startsWith s p = true <-> exists post, s = p ++ post.
Proof.
  revert s. induction p as [|a p IH]; intros s.
  - split; [by exists s|by destruct s].
  - destruct s as [|b s]; simpl.
    + split; [done|]. intros [post [=]].
    + rewrite andb_true_iff, Z.eqb_eq, IH. split.
      * intros [-> [post ->]]. by exists post.
      * intros [post [= -> ->]]. split; [done|by exists post].
Qed.

Lemma includes_substring (s needle : JsString) :
  includes s needle = true <-> exists pre post, s = pre ++ needle ++ post.
Proof.
  induction s as [|c s IH]; cbn [includes].
  - rewrite orb_false_r, startsWith_prefix. split.
    + intros [post ->]. by exists [], post.
    + intros (pre & post & Heq). destruct pre; [by exists post|done].
  - rewrite orb_true_iff, startsWith_prefix, IH. split.
    + intros [[post ->]|(pre & post & ->)]; [by exists [], post|].
      by exists (c :: pre), post.
    + intros ([|d pre] & post & Heq); simpl in Heq.
      * left. by exists post.
      * injection Heq as -> ->. right. by exists pre, post.
Qed.

Lemma endsWith_suffix (s suffix : JsString) :
  endsWith s suffix = true <-> exists pre, s = pre ++ suffix.
Proof.
  unfold endsWith. rewrite andb_true_iff, Nat.leb_le, bool_decide_eq_true.
  split.
  - intros [_ Hdrop]. exists (take (length s - length suffix) s).
    rewrite <- Hdrop at 2. by rewrite take_drop.
  - intros [pre ->]. rewrite length_app. split; [lia|].
    replace (length pre + length suffix - length suffix)%nat
      with (length pre) by lia.
    by rewrite drop_app_length.
Qed.

End Js.

(** ** The background service worker ([src/background.ts]) *)

Module Background.
Import Js.

(** The settings record of [src/types.ts], with the
    [simplifiedChineseFilterEnabled] flag that [analyzeText] reads. *)
Record Settings := mkSettings {
  keywordFilterEnabled : bool;
  keywords : JsString;
  simplifiedChineseFilterEnabled : bool;
  aiFilterEnabled : bool;
  groqApiKey : JsString;
  selectedModel : JsString;
  filterDescription : JsString;
  allowReveal : bool;
  enabledDomains : list JsString
}.

(** [DEFAULT_SETTINGS]; it does not define the Simplified Chinese flag,
    which therefore reads as a falsy [undefined]. *)
Definition DEFAULT_SETTINGS : Settings := {|
  keywordFilterEnabled := true;
  keywords := [];
  simplifiedChineseFilterEnabled := false;
  aiFilterEnabled := true;
  groqApiKey := [];
  selectedModel := lit "llama-3.3-70b-versatile";
  filterDescription := lit "content I want to avoid";
  allowReveal := true;
  enabledDomains :=
    [lit "twitter.com"; lit "x.com"; lit "reddit.com"; lit "www.reddit.com";
     lit "instagram.com"; lit "www.instagram.com"; lit "facebook.com";
     lit "www.facebook.com"]
|}.

Record AIAnalysisResult := mkAIResult { ai_shouldBlock : bool }.

Record AnalysisResponse := mkResponse {
  shouldBlock : bool;
  matched_by : JsString;
  matched_keyword : option JsString;
  error : option JsString
}.

(** The one request [analyzeWithGroq] issues. *)
Record Request := mkRequest {
  req_url : JsString;
  req_authorization : JsString;
  req_model : JsString;
  req_content : JsString;
  req_temperature : JsString
}.

(** A response: its [ok] flag, its status and the text of its body. *)
Record Response := mkResponseOf {
  resp_ok : bool;
  resp_status : nat;
  resp_body : JsString
}.

Definition FetchResponse (ok : bool) (status : nat) (body : JsString) :=
  {| resp_ok := ok; resp_status := status; resp_body := body |}.

(** What [fetch] does with a request: the promise rejects or resolves. *)
Inductive FetchResult :=
| FetchRejected (e : JsError)
| FetchResolved (response : Response).

(** The surroundings of one [analyzeText] call: what the storage read
    yields ([result.settings] may be absent) and how the endpoint
    answers. *)
Record World := mkWorld {
  storage_settings : JsError + option Settings;
  fetch : Request -> FetchResult
}.

(** *** Computations that may throw and that issue requests *)

Definition Eff (A : Type) : Type := (JsError + A) * list Request.

Definition ret {A} (a : A) : Eff A := (inr a, []).
Definition throw {A} (e : JsError) : Eff A := (inl e, []).

Definition bind {A B} (m : Eff A) (k : A -> Eff B) : Eff B :=
  match m with
  | (inl e, tr) => (inl e, tr)
  | (inr a, tr) => let '(r, tr') := k a in (r, tr ++ tr')
  end.

Definition tryCatch {A} (m : Eff A) (handler : JsError -> Eff A) : Eff A :=
  match m with
  | (inl e, tr) => let '(r, tr') := handler e in (r, tr ++ tr')
  | (inr a, tr) => (inr a, tr)
  end.

Definition liftResult {A} (r : JsError + A) : Eff A := (r, []).

(** [await fetch(...)]: the request is issued, then the promise settles. *)
Definition doFetch (w : World) (rq : Request) : Eff Response :=
  match fetch w rq with
  | FetchRejected e => (inl e, [rq])
  | FetchResolved response => (inr response, [rq])
  end.

Definition outcome {A} (m : Eff A) : JsError + A := fst m.
Definition requests {A} (m : Eff A) : list Request := snd m.

#[global] Instance eff_ret : MRet Eff := @ret.
#[global] Instance eff_bind : MBind Eff := fun A B k m => bind m k.

Lemma outcome_bind {A B} (m : Eff A) (k : A -> Eff B) :
  outcome (m ≫= k)
  = match outcome m with inl e => inl e | inr a => outcome (k a) end.
Proof.
  unfold mbind, eff_bind, bind, outcome.
  destruct m as [[e|a] tr]; simpl; [reflexivity|].
  by destruct (k a).
Qed.

Lemma requests_bind {A B} (m : Eff A) (k : A -> Eff B) :
  requests (m ≫= k)
  = requests m ++ match outcome m with
                  | inl _ => []
                  | inr a => requests (k a)
                  end.
Proof.
  unfold mbind, eff_bind, bind, outcome, requests.
  destruct m as [[e|a] tr]; simpl; [by rewrite app_nil_r|].
  by destruct (k a).
Qed.

Lemma outcome_tryCatch {A} (m : Eff A) (handler : JsError -> Eff A) :
  outcome (tryCatch m handler)
  = match outcome m with inl e => outcome (handler e) | inr a => inr a end.
Proof.
  unfold tryCatch, outcome. destruct m as [[e|a] tr]; simpl; [|reflexivity].
  by destruct (handler e).
Qed.

Section Engine.

(** Built-ins of the platform and of the OpenCC library. *)
Variable toLowerCase : JsString -> JsString.
Variables converterS2T converterT2S : JsString -> JsString.
Variable JSON_parse : JsString -> JsError + JsValue.
(** Engine-defined texts of the two [TypeError]s the code can provoke. *)
Variables msgNullProperty msgNotCallable : JsString.

Definition quote : JsString := [34].
Definition newline : JsString := [10].

Definition FILTER_PROMPT (text filterDescription : JsString) : JsString :=
  lit "Analyze this text and determine if it should be blocked based on the following filter criteria: "
  ++ quote ++ filterDescription ++ quote ++ newline ++ newline
  ++ lit "Text to analyze: " ++ quote ++ quote ++ quote ++ text
  ++ quote ++ quote ++ quote ++ newline ++ newline
  ++ lit "Respond with JSON only: " ++ qlit "{'shouldBlock': true} or {'shouldBlock': false}".

(** [parseKeywords] *)
Definition parseKeywords (keywordsString : JsString) : list JsString :=
  if negb (truthyString (trim keywordsString)) then []
  else
    List.filter (fun k => (0 <? length k)%nat)
      (List.map (fun k => toLowerCase (trim k)) (split 44 keywordsString)).

(** [checkKeywordMatch]: the loop returns the first keyword the
    lower-cased text includes. *)
Definition checkKeywordMatch (text : JsString) (keywords : list JsString)
  : option JsString :=
  if (length keywords =? 0)%nat then None
  else
    let lowerText := toLowerCase text in
    List.find (fun keyword => includes lowerText keyword) keywords.

(** The matches of the global regular expression over U+4E00..U+9FFF:
    the code units in that range. *)
Definition isChineseUnit (c : Z) : bool := (19968 <=? c) && (c <=? 40959).

Definition chineseChars (text : JsString) : list Z :=
  List.filter isChineseUnit text.

Definition isHighSurrogate (c : Z) : bool := (55296 <=? c) && (c <=? 56319).
Definition isLowSurrogate (c : Z) : bool := (56320 <=? c) && (c <=? 57343).

(** [[...text]]: the string iterator yields one string per code point,
    two units long for a surrogate pair. *)
Fixpoint spread (text : JsString) : list JsString :=
  match text with
  | [] => []
  | c :: rest =>
      match rest with
      | d :: rest' =>
          if isHighSurrogate c && isLowSurrogate d then [c; d] :: spread rest'
          else [c] :: spread rest
      | [] => [[c]]
      end
  end.

(** [s[i]]: the one-unit string at index [i], [undefined] out of range. *)
Definition charAt (s : JsString) (i : nat) : option JsString :=
  (fun u => [u]) <$> s !! i.

(** [arr.filter((c, i) => c !== conv[i]).length], with the index the
    callback receives starting from [i]. *)
Fixpoint countDiffFrom (i : nat) (arr : list JsString) (conv : JsString) : nat :=
  match arr with
  | [] => 0
  | c :: arr' =>
      ((if bool_decide (Some c = charAt conv i) then 0 else 1)
       + countDiffFrom (S i) arr' conv)%nat
  end.

(** [isSimplifiedChinese] *)
Definition isSimplifiedChinese (text : JsString) : bool :=
  if (length (chineseChars text) <? 3)%nat then false
  else
    let s2t := converterS2T text in
    let t2s := converterT2S text in
    let s2tDiff := countDiffFrom 0 (spread text) s2t in
    let t2sDiff := countDiffFrom 0 (spread text) t2s in
    (t2sDiff <? s2tDiff)%nat && (0 <? s2tDiff)%nat.

(** Reading a property none of the built-in prototypes defines
    ([choices], [message], [content], [shouldBlock]). *)
Definition getNamed (key : JsString) (v : JsValue) : JsError + JsValue :=
  match v with
  | JUndefined | JNull => inl (mkJsError ETypeError msgNullProperty)
  | JObject kvs => inr (default JUndefined (ownProperty kvs key))
  | _ => inr JUndefined
  end.

(** Reading index [0]. *)
Definition getIndex0 (v : JsValue) : JsError + JsValue :=
  match v with
  | JUndefined | JNull => inl (mkJsError ETypeError msgNullProperty)
  | JArray l => inr (default JUndefined (head l))
  | JString s => inr (default JUndefined ((fun u => JString [u]) <$> head s))
  | JObject kvs => inr (default JUndefined (ownProperty kvs (lit "0")))
  | _ => inr JUndefined
  end.

(** The optional chain [v?.p]. *)
Definition optChain (get : JsValue -> JsError + JsValue) (v : JsValue)
  : JsError + JsValue :=
  match v with
  | JUndefined | JNull => inr JUndefined
  | _ => get v
  end.

(** [data.choices?.[0]?.message?.content] *)
Definition replyContent (data : JsValue) : JsError + JsValue :=
  match getNamed (lit "choices") data with
  | inl e => inl e
  | inr choices =>
      match optChain getIndex0 choices with
      | inl e => inl e
      | inr first =>
          match optChain (getNamed (lit "message")) first with
          | inl e => inl e
          | inr message => optChain (getNamed (lit "content")) message
          end
      end
  end.

(** Index of the last closing brace. *)
Fixpoint lastClose (s : JsString) : option nat :=
  match s with
  | [] => None
  | c :: s' =>
      match lastClose s' with
      | Some j => Some (S j)
      | None => if c =? 125 then Some 0%nat else None
      end
  end.

(** [content.match(/\{[\s\S]*\}/)]: from the first opening brace that has
    a closing brace after it, greedily up to the last closing brace. *)
Fixpoint matchObject (s : JsString) : option JsString :=
  match s with
  | [] => None
  | c :: s' =>
      if c =? 123 then
        match lastClose s' with
        | Some j => Some (c :: take (S j) s')
        | None => None
        end
      else matchObject s'
  end.

(** The body of the [try] block of [analyzeWithGroq]. *)
Definition parseReply (content : JsValue) : Eff AIAnalysisResult :=
  jsonMatch ← (match content with
                | JString s => ret (matchObject s)
                | _ => throw (mkJsError ETypeError msgNotCallable)
                end) ;
  match jsonMatch with
  | Some sub =>
      parsed ← liftResult (JSON_parse sub);
      field ← liftResult (getNamed (lit "shouldBlock") parsed);
      ret {| ai_shouldBlock := Boolean field |}
  | None => throw (newError (lit "No JSON found in response"))
  end.

Definition groqRequest (text apiKey model filterDescription : JsString)
  : Request := {|
  req_url := lit "https://api.groq.com/openai/v1/chat/completions";
  req_authorization := lit "Bearer " ++ apiKey;
  req_model := model;
  req_content := FILTER_PROMPT text filterDescription;
  req_temperature := lit "0.3"
|}.

(** [analyzeWithGroq] *)
Definition analyzeWithGroq (w : World)
  (text apiKey model filterDescription : JsString) : Eff AIAnalysisResult :=
  response ← doFetch w (groqRequest text apiKey model filterDescription);
  if negb (resp_ok response) then
    throw (newError (lit "Groq API error: " ++ decimal (resp_status response)
                     ++ lit " - " ++ resp_body response))
  else
    data ← liftResult (JSON_parse (resp_body response));
    content ← liftResult (replyContent data);
    if negb (Boolean content) then
      throw (newError (lit "No content in Groq response"))
    else
      tryCatch (parseReply content) (fun parseError =>
        throw (newError (lit "Failed to parse LLM response: "
                         ++ String_of_error parseError))).

(** [getSettings] of [src/utils.ts] *)
Definition getSettings (w : World) : Eff Settings :=
  match storage_settings w with
  | inl e => throw e
  | inr stored => ret (default DEFAULT_SETTINGS stored)
  end.

(** Layer 1 of [analyzeText]: [Some] is its early [return]. *)
Definition keywordLayer (settings : Settings) (text : JsString)
  : option AnalysisResponse :=
  if keywordFilterEnabled settings then
    let kws := parseKeywords (keywords settings) in
    if (0 <? length kws)%nat then
      match checkKeywordMatch text kws with
      | Some matchedKeyword =>
          if truthyString matchedKeyword then
            Some {| shouldBlock := true; matched_by := lit "keyword";
                    matched_keyword := Some matchedKeyword; error := None |}
          else None
      | None => None
      end
    else None
  else None.

(** Layer 1b. *)
Definition simplifiedChineseLayer (settings : Settings) (text : JsString)
  : option AnalysisResponse :=
  if simplifiedChineseFilterEnabled settings then
    if isSimplifiedChinese text then
      Some {| shouldBlock := true; matched_by := lit "simplified-chinese";
              matched_keyword := None; error := None |}
    else None
  else None.

Definition passThrough : AnalysisResponse :=
  {| shouldBlock := false; matched_by := lit "none";
     matched_keyword := None; error := None |}.

(** [settings.filterDescription || DEFAULT_SETTINGS.filterDescription] *)
Definition effectiveDescription (settings : Settings) : JsString :=
  if truthyString (filterDescription settings)
  then filterDescription settings
  else filterDescription DEFAULT_SETTINGS.

(** Layer 2. *)
Definition aiLayer (w : World) (settings : Settings) (text : JsString)
  : Eff AnalysisResponse :=
  if negb (aiFilterEnabled settings) then ret passThrough
  else if negb (truthyString (groqApiKey settings)) then ret passThrough
  else
    aiResult ← analyzeWithGroq w text (groqApiKey settings)
                  (selectedModel settings) (effectiveDescription settings);
    ret {| shouldBlock := ai_shouldBlock aiResult; matched_by := lit "ai";
           matched_keyword := None; error := None |}.

(** The [try] block of [analyzeText]. *)
Definition pipeline (w : World) (text : JsString) : Eff AnalysisResponse :=
  settings ← getSettings w;
  match keywordLayer settings text with
  | Some verdict => ret verdict
  | None =>
      match simplifiedChineseLayer settings text with
      | Some verdict => ret verdict
      | None => aiLayer w settings text
      end
  end.

(** The verdict of the [catch] block. *)
Definition failOpen (e : JsError) : AnalysisResponse :=
  {| shouldBlock := false; matched_by := lit "none";
     matched_keyword := None; error := Some (String_of_error e) |}.

(** [analyzeText] *)
Definition analyzeText (w : World) (text : JsString) : Eff AnalysisResponse :=
  tryCatch (pipeline w text) (fun e => ret (failOpen e)).

(** *** Properties of the engine *)

Lemma find_first {A} (f : A -> bool) (l : list A) (x : A) :
  List.find f l = Some x ->
  exists i : nat, l !! i = Some x /\ f x = true /\
    forall (j : nat) (y : A), (j < i)%nat -> l !! j = Some y -> f y = false.
Proof.
  induction l as [|a l IH]; simpl; [discriminate|].
  destruct (f a) eqn:Hfa.
  - intros [= ->]. exists 0%nat. repeat split; [done|]. intros j y Hj. lia.
  - intros Hfind. destruct (IH Hfind) as (i & Hi & Hfx & Hbefore).
    exists (S i). repeat split; [done..|].
    intros [|j] y Hj Hy; simpl in Hy.
    + by injection Hy as <-.
    + apply (Hbefore j); [lia|done].
Qed.

Lemma find_is_Some {A} (f : A -> bool) (l : list A) (x : A) :
  In x l -> f x = true -> exists y, List.find f l = Some y.
Proof.
  intros Hin Hfx. destruct (List.find f l) as [y|] eqn:Hfind; [by exists y|].
  pose proof (find_none f l Hfind x Hin) as Habs. congruence.
Qed.

Lemma parseKeywords_In (keywordsString k : JsString) :
  In k (parseKeywords keywordsString) ->
  k <> [] /\ exists raw, In raw (split 44 keywordsString)
                         /\ k = toLowerCase (trim raw).
Proof.
  unfold parseKeywords.
  destruct (negb (truthyString (trim keywordsString))); [intros []|].
  intros [Hin Hlen]%filter_In. apply in_map_iff in Hin as (raw & <- & Hraw).
  split; [|by exists raw].
  intros Hnil. rewrite Hnil in Hlen. discriminate.
Qed.

Lemma checkKeywordMatch_find (text : JsString) (kws : list JsString) :
  checkKeywordMatch text kws
  = List.find (fun keyword => includes (toLowerCase text) keyword) kws.
Proof.
  unfold checkKeywordMatch. destruct kws; reflexivity.
Qed.

(** What the keyword layer answers, when it answers. *)
Lemma keywordLayer_Some (settings : Settings) (text : JsString)
  (v : AnalysisResponse) :
  keywordLayer settings text = Some v ->
  exists k, v = {| shouldBlock := true; matched_by := lit "keyword";
                   matched_keyword := Some k; error := None |}
    /\ keywordFilterEnabled settings = true
    /\ checkKeywordMatch text (parseKeywords (keywords settings)) = Some k.
Proof.
  unfold keywordLayer.
  destruct (keywordFilterEnabled settings); [|discriminate].
  destruct (0 <? _)%nat; [|discriminate].
  destruct (checkKeywordMatch _ _) as [k|]; [|discriminate].
  destruct (truthyString k); [|discriminate].
  intros [= <-]. by exists k.
Qed.

Lemma keywordLayer_match (settings : Settings) (text k : JsString) :
  keywordFilterEnabled settings = true ->
  checkKeywordMatch text (parseKeywords (keywords settings)) = Some k ->
  keywordLayer settings text
  = Some {| shouldBlock := true; matched_by := lit "keyword";
            matched_keyword := Some k; error := None |}.
Proof.
  intros Hen Hmatch. unfold keywordLayer. rewrite Hen, Hmatch.
  rewrite checkKeywordMatch_find in Hmatch.
  apply find_some in Hmatch as [Hin _].
  destruct (parseKeywords_In _ _ Hin) as [Hne _].
  destruct (parseKeywords (keywords settings)) as [|k0 kws]; [destruct Hin|].
  simpl. destruct k; [done|reflexivity].
Qed.

Lemma simplifiedChineseLayer_Some (settings : Settings) (text : JsString)
  (v : AnalysisResponse) :
  simplifiedChineseLayer settings text = Some v ->
  v = {| shouldBlock := true; matched_by := lit "simplified-chinese";
         matched_keyword := None; error := None |}
  /\ simplifiedChineseFilterEnabled settings = true
  /\ isSimplifiedChinese text = true.
Proof.
  unfold simplifiedChineseLayer.
  destruct (simplifiedChineseFilterEnabled settings); [|discriminate].
  destruct (isSimplifiedChinese text); [|discriminate].
  by intros [= <-].
Qed.

(** The pipeline, once the settings are read. *)
Lemma pipeline_settings (w : World) (text : JsString) (settings : Settings) :
  outcome (getSettings w) = inr settings ->
  pipeline w text
  = match keywordLayer settings text with
    | Some verdict => ret verdict
    | None =>
        match simplifiedChineseLayer settings text with
        | Some verdict => ret verdict
        | None => aiLayer w settings text
        end
    end.
Proof.
  unfold pipeline, getSettings, outcome.
  destruct (storage_settings w) as [e|stored]; simpl; [discriminate|].
  intros [= <-]. unfold mbind, eff_bind, bind, ret.
  destruct (keywordLayer _ _); [reflexivity|].
  destruct (simplifiedChineseLayer _ _); [reflexivity|].
  by destruct (aiLayer _ _ _) as [r tr].
Qed.

Lemma pipeline_settings_error (w : World) (text : JsString) (e : JsError) :
  outcome (getSettings w) = inl e -> pipeline w text = (inl e, []).
Proof.
  unfold pipeline, getSettings, outcome.
  destruct (storage_settings w) as [e'|stored]; simpl; [|discriminate].
  by intros [= <-].
Qed.

Lemma analyzeText_outcome (w : World) (text : JsString) :
  outcome (analyzeText w text)
  = match outcome (pipeline w text) with
    | inl e => inr (failOpen e)
    | inr v => inr v
    end
  /\ requests (analyzeText w text) = requests (pipeline w text).
Proof.
  unfold analyzeText, tryCatch, outcome, requests.
  destruct (pipeline w text) as [[e|v] tr]; simpl; [|done].
  by rewrite app_nil_r.
Qed.

Lemma className_nonempty (c : ErrorClass) : className c <> [].
Proof. by destruct c. Qed.

Lemma String_of_error_nonempty (e : JsError) : String_of_error e <> [].
Proof.
  unfold String_of_error. destruct (err_message e).
  - apply className_nonempty.
  - destruct (err_class e); discriminate.
Qed.

(** The AI layer answers with the tag [ai] exactly on a successful
    classification. *)
Lemma aiLayer_outcome (w : World) (settings : Settings) (text : JsString) :
  if negb (aiFilterEnabled settings) || negb (truthyString (groqApiKey settings))
  then aiLayer w settings text = ret passThrough
  else outcome (aiLayer w settings text)
       = match outcome (analyzeWithGroq w text (groqApiKey settings)
                          (selectedModel settings)
                          (effectiveDescription settings)) with
         | inl e => inl e
         | inr r => inr {| shouldBlock := ai_shouldBlock r;
                           matched_by := lit "ai";
                           matched_keyword := None; error := None |}
         end.
Proof.
  unfold aiLayer.
  destruct (negb (aiFilterEnabled settings)); [done|].
  destruct (negb (truthyString (groqApiKey settings))); [done|].
  cbn [orb]. rewrite outcome_bind.
  by destruct (outcome (analyzeWithGroq _ _ _ _ _)) as [e|r].
Qed.

Lemma analyzeText_of_pipeline (w : World) (text : JsString)
  (v : AnalysisResponse) :
  pipeline w text = ret v -> analyzeText w text = (inr v, []).
Proof. intros Hp. unfold analyzeText. by rewrite Hp. Qed.

(** C1: whenever the pipeline throws -- the settings read, the AI call
    (a non-2xx answer for one) or anything else inside it -- [analyzeText]
    still returns, and returns the allow verdict tagged [none] with the
    non-empty rendering of the error; a blocking verdict comes only from
    a keyword match, from the Simplified Chinese detector, or from a
    classification that succeeded with [true]. *)
Theorem analyzeText_fails_open (w : World) (text : JsString) :
  (exists v, outcome (analyzeText w text) = inr v)
  /\ (forall e, outcome (pipeline w text) = inl e ->
        outcome (analyzeText w text)
        = inr {| shouldBlock := false; matched_by := lit "none";
                 matched_keyword := None;
                 error := Some (String_of_error e) |}
        /\ String_of_error e <> [])
  /\ (forall settings e,
        outcome (getSettings w) = inr settings ->
        keywordLayer settings text = None ->
        simplifiedChineseLayer settings text = None ->
        aiFilterEnabled settings = true ->
        truthyString (groqApiKey settings) = true ->
        outcome (analyzeWithGroq w text (groqApiKey settings)
                   (selectedModel settings) (effectiveDescription settings))
        = inl e ->
        outcome (analyzeText w text) = inr (failOpen e)
        /\ shouldBlock (failOpen e) = false
        /\ matched_by (failOpen e) = lit "none"
        /\ exists msg, error (failOpen e) = Some msg /\ msg <> [])
  /\ (forall v, outcome (analyzeText w text) = inr v ->
        shouldBlock v = true ->
        error v = None /\
        exists settings, outcome (getSettings w) = inr settings /\
          ((matched_by v = lit "keyword" /\
            exists k, checkKeywordMatch text (parseKeywords (keywords settings))
                      = Some k /\ matched_keyword v = Some k)
           \/ (matched_by v = lit "simplified-chinese" /\
               simplifiedChineseFilterEnabled settings = true /\
               isSimplifiedChinese text = true)
           \/ (matched_by v = lit "ai" /\
               outcome (analyzeWithGroq w text (groqApiKey settings)
                          (selectedModel settings)
                          (effectiveDescription settings))
               = inr {| ai_shouldBlock := true |}))).
Proof.
  destruct (analyzeText_outcome w text) as [Hout _].
  split; [|split; [|split]].
  - rewrite Hout. destruct (outcome (pipeline w text)); eauto.
  - intros e He. rewrite Hout, He.
    split; [reflexivity|apply String_of_error_nonempty].
  - intros settings e Hs Hk Hsc Hai Hkey Hcall.
    rewrite Hout, (pipeline_settings w text settings Hs), Hk, Hsc.
    pose proof (aiLayer_outcome w settings text) as Hlayer.
    rewrite Hai, Hkey in Hlayer. cbn [negb orb] in Hlayer.
    rewrite Hlayer, Hcall. repeat split.
    exists (String_of_error e). split; [done|apply String_of_error_nonempty].
  - intros v Hv Hblock. rewrite Hout in Hv.
    destruct (outcome (pipeline w text)) as [e|v'] eqn:Hp;
      injection Hv as <-; [discriminate Hblock|].
    destruct (outcome (getSettings w)) as [e|settings] eqn:Hs.
    { rewrite (pipeline_settings_error w text e Hs) in Hp. discriminate. }
    rewrite (pipeline_settings w text settings Hs) in Hp.
    destruct (keywordLayer settings text) as [vk|] eqn:Hk.
    { injection Hp as ->.
      destruct (keywordLayer_Some _ _ _ Hk) as (k & -> & _ & Hm).
      split; [done|]. exists settings. split; [done|]. left. eauto. }
    destruct (simplifiedChineseLayer settings text) as [vs|] eqn:Hsc.
    { injection Hp as ->.
      destruct (simplifiedChineseLayer_Some _ _ _ Hsc) as (-> & ? & ?).
      split; [done|]. exists settings. split; [done|]. right; left. eauto. }
    pose proof (aiLayer_outcome w settings text) as Hai.
    destruct (negb (aiFilterEnabled settings)
              || negb (truthyString (groqApiKey settings))).
    { rewrite Hai in Hp. injection Hp as <-. discriminate Hblock. }
    rewrite Hp in Hai.
    destruct (outcome (analyzeWithGroq _ _ _ _ _)) as [e|[b]] eqn:Hcall;
      [discriminate Hai|].
    injection Hai as ->. simpl in Hblock. subst b.
    split; [done|]. exists settings. split; [done|]. right; right. eauto.
Qed.

(** The specification's reading of a match: some piece of the text is
    the keyword up to letter case. *)
Definition specContainsIgnoringCase (text keyword : JsString) : Prop :=
  exists pre piece post,
    text = pre ++ piece ++ post /\ toLowerCase piece = toLowerCase keyword.

(** Where lower-casing works character by character, the specification's
    reading and the test of the code agree on a trimmed keyword. *)
Lemma specContains_includes (text keyword : JsString) :
  (forall a b, toLowerCase (a ++ b) = toLowerCase a ++ toLowerCase b) ->
  specContainsIgnoringCase text keyword ->
  includes (toLowerCase text) (toLowerCase keyword) = true.
Proof.
  intros Hmorph (pre & piece & post & -> & <-).
  apply includes_substring. exists (toLowerCase pre), (toLowerCase post).
  by rewrite !Hmorph.
Qed.

(** C2 (as the code has it): with the keyword layer enabled and a keyword
    of the parsed list -- a configured keyword trimmed and lower-cased --
    included in the lower-cased text, the verdict is the keyword block
    carrying the first such keyword of the list, and no request is issued
    to the classifier. *)
Theorem keyword_match_short_circuits (w : World) (settings : Settings)
  (text : JsString) :
  outcome (getSettings w) = inr settings ->
  keywordFilterEnabled settings = true ->
  parseKeywords (keywords settings) <> [] ->
  (exists k, In k (parseKeywords (keywords settings))
             /\ includes (toLowerCase text) k = true) ->
  exists (k : JsString) (i : nat),
    parseKeywords (keywords settings) !! i = Some k
    /\ includes (toLowerCase text) k = true
    /\ (forall (j : nat) (k' : JsString), (j < i)%nat ->
          parseKeywords (keywords settings) !! j = Some k' ->
          includes (toLowerCase text) k' = false)
    /\ outcome (analyzeText w text)
       = inr {| shouldBlock := true; matched_by := lit "keyword";
                matched_keyword := Some k; error := None |}
    /\ requests (analyzeText w text) = [].
Proof.
  intros Hs Hen _ (k0 & Hin & Hinc).
  destruct (find_is_Some (fun keyword => includes (toLowerCase text) keyword)
              _ k0 Hin Hinc) as (k & Hfind).
  destruct (find_first _ _ _ Hfind) as (i & Hi & Hk & Hbefore).
  assert (analyzeText w text
          = (inr {| shouldBlock := true; matched_by := lit "keyword";
                    matched_keyword := Some k; error := None |}, [])) as Hrun.
  { apply analyzeText_of_pipeline.
    rewrite (pipeline_settings w text settings Hs).
    rewrite (keywordLayer_match settings text k Hen); [done|].
    by rewrite checkKeywordMatch_find. }
  exists k, i. rewrite Hrun. by repeat split.
Qed.

(** C5 (as the code has it): with the Simplified Chinese layer enabled,
    no keyword verdict and a positive detection, the verdict blocks and
    its provenance tag is [simplified-chinese]; no request is issued. *)
Theorem script_layer_blocks (w : World) (settings : Settings)
  (text : JsString) :
  outcome (getSettings w) = inr settings ->
  simplifiedChineseFilterEnabled settings = true ->
  keywordLayer settings text = None ->
  isSimplifiedChinese text = true ->
  analyzeText w text
  = (inr {| shouldBlock := true; matched_by := lit "simplified-chinese";
            matched_keyword := None; error := None |}, []).
Proof.
  intros Hs Hen Hk Hdet. apply analyzeText_of_pipeline.
  rewrite (pipeline_settings w text settings Hs), Hk.
  unfold simplifiedChineseLayer. by rewrite Hen, Hdet.
Qed.

(** *** The keyword list *)

Lemma split_pieces (sep : Z) (s piece : JsString) :
  In piece (split sep s) ->
  forall c, In c piece -> In c s /\ c <> sep.
Proof.
  revert piece. induction s as [|a s IH]; simpl; intros piece Hin c Hc.
  - destruct Hin as [<-|[]]. destruct Hc.
  - destruct (Z.eqb_spec a sep) as [->|Hne].
    + destruct Hin as [<-|Hin]; [destruct Hc|].
      destruct (IH piece Hin c Hc). auto.
    + destruct (split sep s) as [|p ps] eqn:Hsplit.
      * destruct Hin as [<-|[]]. destruct Hc as [<-|[]]. auto.
      * destruct Hin as [<-|Hin].
        -- destruct Hc as [<-|Hc]; [auto|].
           destruct (IH p (or_introl eq_refl) c Hc). auto.
        -- destruct (IH piece (or_intror Hin) c Hc). auto.
Qed.

Lemma trimStart_blank (s : JsString) :
  Forall (fun c => isWhiteSpace c = true) s -> trimStart s = [].
Proof.
  induction 1 as [|c s Hc _ IH]; simpl; [reflexivity|]. by rewrite Hc.
Qed.

Lemma trim_blank (s : JsString) :
  Forall (fun c => isWhiteSpace c = true) s -> trim s = [].
Proof.
  intros Hs. unfold trim, trimEnd. by rewrite (trimStart_blank s Hs).
Qed.

Lemma parseKeywords_blank (keywordsString : JsString) :
  toLowerCase [] = [] ->
  Forall (fun c => c = 44 \/ isWhiteSpace c = true) keywordsString ->
  parseKeywords keywordsString = [].
Proof.
  intros Hlower Hall. unfold parseKeywords.
  destruct (negb _); [reflexivity|].
  assert (forall piece, In piece (split 44 keywordsString) ->
                        toLowerCase (trim piece) = []) as Hpieces.
  { intros piece Hin. rewrite trim_blank; [done|].
    apply List.Forall_forall. intros c Hc.
    destruct (split_pieces 44 _ _ Hin c Hc) as [Hcs Hne].
    rewrite List.Forall_forall in Hall. by destruct (Hall c Hcs). }
  induction (split 44 keywordsString) as [|piece l IH]; simpl; [reflexivity|].
  rewrite (Hpieces piece) by (by left). simpl.
  apply IH. intros q Hq. apply Hpieces. by right.
Qed.

(** C10: a verdict tagged [keyword] blocks, and the keyword it carries is
    [trim] then [toLowerCase] of one comma-separated piece of the
    configured string (never the raw piece, never the text's own
    spelling); a string of commas and white space only parses to the
    empty list, and then the keyword layer never answers. *)
Theorem matched_keyword_normalized (w : World) (text : JsString) :
  (forall v, outcome (analyzeText w text) = inr v ->
     matched_by v = lit "keyword" ->
     shouldBlock v = true /\
     exists settings raw,
       outcome (getSettings w) = inr settings
       /\ In raw (split 44 (keywords settings))
       /\ matched_keyword v = Some (toLowerCase (trim raw))
       /\ toLowerCase (trim raw) <> []
       /\ includes (toLowerCase text) (toLowerCase (trim raw)) = true)
  /\ (toLowerCase [] = [] ->
      forall settings,
        outcome (getSettings w) = inr settings ->
        Forall (fun c => c = 44 \/ isWhiteSpace c = true) (keywords settings) ->
        parseKeywords (keywords settings) = []
        /\ keywordLayer settings text = None
        /\ forall v, outcome (analyzeText w text) = inr v ->
                     matched_by v = lit "keyword" -> False).
Proof.
  destruct (analyzeText_outcome w text) as [Hout _].
  assert (forall v, outcome (analyzeText w text) = inr v ->
            matched_by v = lit "keyword" ->
            exists settings, outcome (getSettings w) = inr settings
                             /\ keywordLayer settings text = Some v) as Hlayer.
  { intros v Hv Htag. rewrite Hout in Hv.
    destruct (outcome (pipeline w text)) as [e|v'] eqn:Hp;
      injection Hv as <-; [discriminate Htag|].
    destruct (outcome (getSettings w)) as [e|settings] eqn:Hs.
    { rewrite (pipeline_settings_error w text e Hs) in Hp. discriminate. }
    exists settings. split; [done|].
    rewrite (pipeline_settings w text settings Hs) in Hp.
    destruct (keywordLayer settings text) as [vk|]; [by injection Hp as ->|].
    destruct (simplifiedChineseLayer settings text) as [vs|] eqn:Hsc.
    { injection Hp as ->.
      destruct (simplifiedChineseLayer_Some _ _ _ Hsc) as (-> & _).
      discriminate Htag. }
    pose proof (aiLayer_outcome w settings text) as Hai.
    destruct (negb (aiFilterEnabled settings)
              || negb (truthyString (groqApiKey settings))).
    { rewrite Hai in Hp. injection Hp as <-. discriminate Htag. }
    rewrite Hp in Hai.
    destruct (outcome (analyzeWithGroq _ _ _ _ _)); [discriminate Hai|].
    injection Hai as ->. discriminate Htag. }
  split.
  - intros v Hv Htag. destruct (Hlayer v Hv Htag) as (settings & Hs & Hk).
    destruct (keywordLayer_Some _ _ _ Hk) as (k & -> & _ & Hm).
    split; [done|]. rewrite checkKeywordMatch_find in Hm.
    apply find_some in Hm as [Hin Hinc].
    destruct (parseKeywords_In _ _ Hin) as (Hne & raw & Hraw & ->).
    by exists settings, raw.
  - intros Hlower settings Hs Hall.
    pose proof (parseKeywords_blank _ Hlower Hall) as Hnil.
    assert (keywordLayer settings text = None) as Hnone.
    { unfold keywordLayer. rewrite Hnil.
      by destruct (keywordFilterEnabled settings). }
    repeat split; [done..|].
    intros v Hv Htag. destruct (Hlayer v Hv Htag) as (settings' & Hs' & Hk).
    congruence.
Qed.

(** *** The Simplified Chinese detector, in the specification's words *)

(** The code point of one element of [spread]. *)
Definition codePoint (ch : JsString) : Z :=
  match ch with
  | [h; l] => 65536 + (h - 55296) * 1024 + (l - 56320)
  | [u] => u
  | _ => -1
  end.

(** Number of characters of the text in the range U+4E00..U+9FFF. *)
Definition specChineseCount (text : JsString) : nat :=
  length (List.filter (fun ch => isChineseUnit (codePoint ch)) (spread text)).

(** What the filter of the code counts: the indices [i] at which the
    [i]-th character of [[...text]] is not [conv[i]], the UTF-16 unit of
    the converted string at that index. *)
Definition indexedChangedPositions (text conv : JsString) : list nat :=
  List.filter (fun i => negb (bool_decide (spread text !! i = charAt conv i)))
    (seq 0 (length (spread text))).

(** The positions at which the original differs from the converted
    string character by character: the [i]-th character of the one
    against the [i]-th character of the other. *)
Definition specChangedPositions (text conv : JsString) : list nat :=
  List.filter
    (fun i => negb (bool_decide (spread text !! i = spread conv !! i)))
    (seq 0 (length (spread text))).

Lemma countDiffFrom_positions (arr : list JsString) (conv : JsString) (i : nat) :
  countDiffFrom i arr conv
  = length (List.filter
              (fun j => negb (bool_decide (arr !! (j - i)%nat = charAt conv j)))
              (seq i (length arr))).
Proof.
  revert i. induction arr as [|c arr IH]; intros i; simpl; [reflexivity|].
  rewrite Nat.sub_diag. simpl. rewrite IH.
  rewrite (List.filter_ext_in
             (fun j => negb (bool_decide ((c :: arr) !! (j - i)%nat = charAt conv j)))
             (fun j => negb (bool_decide (arr !! (j - S i)%nat = charAt conv j)))).
  - by destruct (bool_decide (Some c = charAt conv i)).
  - intros j [Hj _]%in_seq.
    replace (j - i)%nat with (S (j - S i)) by lia. reflexivity.
Qed.

Lemma countDiff_indexed (text conv : JsString) :
  countDiffFrom 0 (spread text) conv = length (indexedChangedPositions text conv).
Proof.
  rewrite countDiffFrom_positions. unfold indexedChangedPositions.
  f_equal. apply List.filter_ext. intros j. by rewrite Nat.sub_0_r.
Qed.

Lemma spread_bmp (text : JsString) :
  Forall (fun c => isHighSurrogate c = false) text ->
  spread text = (fun u => [u]) <$> text.
Proof.
  induction 1 as [|c text Hc _ IH]; [reflexivity|].
  destruct text as [|d rest]; [reflexivity|].
  change (spread (c :: d :: rest))
    with (if isHighSurrogate c && isLowSurrogate d
          then [c; d] :: spread rest else [c] :: spread (d :: rest)).
  rewrite Hc. cbn [andb]. by rewrite IH.
Qed.

(** Without surrogates a position counts exactly when the two strings
    differ there, unit against unit. *)
Lemma changedPositions_bmp (text conv : JsString) (i : nat) :
  Forall (fun c => isHighSurrogate c = false) text ->
  i ∈ indexedChangedPositions text conv
  <-> (i < length text)%nat /\ text !! i <> conv !! i.
Proof.
  intros Hbmp. unfold indexedChangedPositions, charAt.
  rewrite (spread_bmp text Hbmp), length_fmap, list_elem_of_In, filter_In, in_seq.
  rewrite negb_true_iff, bool_decide_eq_false, !list_lookup_fmap.
  split; intros [Hi Hne]; (split; [lia|]); intros Heq; apply Hne;
    rewrite ?list_lookup_fmap in *.
  - by f_equal.
  - unfold JsString in *.
    by destruct (text !! i), (conv !! i); simplify_eq/=.
Qed.

Lemma surrogate_not_chinese (c : Z) :
  isHighSurrogate c || isLowSurrogate c = true -> isChineseUnit c = false.
Proof. unfold isHighSurrogate, isLowSurrogate, isChineseUnit. lia. Qed.

Lemma pair_not_chinese (c d : Z) :
  isHighSurrogate c && isLowSurrogate d = true ->
  isChineseUnit (codePoint [c; d]) = false.
Proof.
  unfold isHighSurrogate, isLowSurrogate, isChineseUnit, codePoint. lia.
Qed.

Lemma chineseChars_spec_bounded (n : nat) (text : JsString) :
  (length text <= n)%nat ->
  length (chineseChars text) = specChineseCount text.
Proof.
  revert text. induction n as [|n IH]; intros text Hlen.
  - destruct text; [reflexivity|simpl in Hlen; lia].
  - destruct text as [|c [|d rest]]; [reflexivity| |].
    { unfold specChineseCount, chineseChars. simpl.
      by destruct (isChineseUnit c). }
    unfold specChineseCount, chineseChars in *.
    change (spread (c :: d :: rest))
      with (if isHighSurrogate c && isLowSurrogate d
            then [c; d] :: spread rest else [c] :: spread (d :: rest)).
    destruct (isHighSurrogate c && isLowSurrogate d) eqn:Hpair.
    + cbn [List.filter]. rewrite (pair_not_chinese c d Hpair).
      apply andb_prop in Hpair as [Hc Hd].
      rewrite (surrogate_not_chinese c) by (by rewrite Hc).
      rewrite (surrogate_not_chinese d) by (rewrite Hd; apply orb_true_r).
      apply IH. simpl in Hlen. lia.
    + cbn [List.filter codePoint].
      specialize (IH (d :: rest)). cbn [List.filter] in IH.
      destruct (isChineseUnit c); cbn [length]; rewrite IH;
        try reflexivity; simpl in *; lia.
Qed.

Lemma chineseChars_spec (text : JsString) :
  length (chineseChars text) = specChineseCount text.
Proof. by apply (chineseChars_spec_bounded (length text)). Qed.

(** A converted string without surrogate pairs is indexed by unit as it
    is by character, and the two counts of changed positions agree. *)
Lemma indexed_positions_spec (text conv : JsString) :
  Forall (fun c => isHighSurrogate c = false) conv ->
  indexedChangedPositions text conv = specChangedPositions text conv.
Proof.
  intros Hbmp. unfold indexedChangedPositions, specChangedPositions, charAt.
  rewrite (spread_bmp conv Hbmp). apply List.filter_ext. intros i.
  by rewrite list_lookup_fmap.
Qed.

(** The detector on text whose two conversions hold no surrogate pair:
    it answers [true] exactly when the text has at least three
    characters in U+4E00..U+9FFF, the Simplified-to-Traditional
    conversion differs from the original, character by character, at
    strictly more positions than the Traditional-to-Simplified one, and
    at one position at least.  With fewer than three such characters it
    answers [false], whatever the text. *)
Theorem isSimplifiedChinese_spec (text : JsString) :
  ((specChineseCount text < 3)%nat -> isSimplifiedChinese text = false)
  /\ (Forall (fun c => isHighSurrogate c = false) (converterS2T text) ->
      Forall (fun c => isHighSurrogate c = false) (converterT2S text) ->
      (isSimplifiedChinese text = true <->
         (3 <= specChineseCount text)%nat
         /\ (length (specChangedPositions text (converterT2S text))
             < length (specChangedPositions text (converterS2T text)))%nat
         /\ length (specChangedPositions text (converterS2T text)) <> 0%nat)).
Proof.
  unfold isSimplifiedChinese. rewrite chineseChars_spec. split.
  - intros Hfew. by rewrite (proj2 (Nat.ltb_lt _ _) Hfew).
  - intros Hs2t Ht2s.
    rewrite !countDiff_indexed, !indexed_positions_spec by done.
    destruct (Nat.ltb_spec (specChineseCount text) 3) as [Hfew|Hmany].
    + split; [discriminate|lia].
    + rewrite andb_true_iff, !Nat.ltb_lt. lia.
Qed.

(** *** The classifier call, in the specification's words *)

(** The content the response body carries: the body parses, the chain
    [choices[0].message.content] can be read and its value is truthy. *)
Definition bodyContent (body : JsString) : option JsValue :=
  match JSON_parse body with
  | inr data =>
      match replyContent data with
      | inr content => if Boolean content then Some content else None
      | inl _ => None
      end
  | inl _ => None
  end.

(** The JSON object found and parsed in the reply. *)
Definition locatedObject (content : JsValue) : option JsValue :=
  match content with
  | JString s =>
      match matchObject s with
      | Some sub =>
          match JSON_parse sub with
          | inr JUndefined | inr JNull | inl _ => None
          | inr parsed => Some parsed
          end
      | None => None
      end
  | _ => None
  end.

(** Its [shouldBlock] field, [undefined] when it has none. *)
Definition shouldBlockField (parsed : JsValue) : JsValue :=
  match parsed with
  | JObject kvs => default JUndefined (ownProperty kvs (lit "shouldBlock"))
  | _ => JUndefined
  end.

Lemma parseReply_outcome (content : JsValue) :
  outcome (parseReply content)
  = match content with
    | JString s =>
        match matchObject s with
        | Some sub =>
            match JSON_parse sub with
            | inl e => inl e
            | inr parsed =>
                match getNamed (lit "shouldBlock") parsed with
                | inl e => inl e
                | inr field => inr {| ai_shouldBlock := Boolean field |}
                end
            end
        | None => inl (newError (lit "No JSON found in response"))
        end
    | _ => inl (mkJsError ETypeError msgNotCallable)
    end.
Proof.
  unfold parseReply. rewrite outcome_bind.
  destruct content as [| | | | s | |]; try reflexivity.
  cbn [outcome ret fst]. destruct (matchObject s) as [sub|]; [|reflexivity].
  rewrite outcome_bind. cbn [outcome liftResult fst].
  destruct (JSON_parse sub) as [e|parsed]; [reflexivity|].
  rewrite outcome_bind. cbn [outcome liftResult fst].
  by destruct (getNamed _ parsed).
Qed.

Lemma parseReply_located (content : JsValue) :
  match locatedObject content with
  | Some parsed =>
      outcome (parseReply content)
      = inr {| ai_shouldBlock := Boolean (shouldBlockField parsed) |}
  | None => exists e, outcome (parseReply content) = inl e
  end.
Proof.
  rewrite parseReply_outcome. unfold locatedObject.
  destruct content as [| | | | s | |]; eauto.
  destruct (matchObject s) as [sub|]; eauto.
  destruct (JSON_parse sub) as [e|parsed]; eauto.
  destruct parsed; simpl; eauto.
Qed.

Lemma analyzeWithGroq_response (w : World)
  (text apiKey model description : JsString) (response : Response) :
  fetch w (groqRequest text apiKey model description)
  = FetchResolved response ->
  outcome (analyzeWithGroq w text apiKey model description)
  = if negb (resp_ok response) then
      inl (newError (lit "Groq API error: " ++ decimal (resp_status response)
                     ++ lit " - " ++ resp_body response))
    else
      match JSON_parse (resp_body response) with
      | inl e => inl e
      | inr data =>
          match replyContent data with
          | inl e => inl e
          | inr content =>
              if negb (Boolean content) then
                inl (newError (lit "No content in Groq response"))
              else
                match outcome (parseReply content) with
                | inl parseError =>
                    inl (newError (lit "Failed to parse LLM response: "
                                   ++ String_of_error parseError))
                | inr r => inr r
                end
          end
      end.
Proof.
  intros Hfetch. unfold analyzeWithGroq. rewrite outcome_bind.
  unfold doFetch. rewrite Hfetch. cbn [outcome fst].
  destruct (negb (resp_ok response)); [reflexivity|].
  rewrite outcome_bind. cbn [outcome liftResult fst].
  destruct (JSON_parse (resp_body response)) as [e|data]; [reflexivity|].
  rewrite outcome_bind. cbn [outcome liftResult fst].
  destruct (replyContent data) as [e|content]; [reflexivity|].
  destruct (negb (Boolean content)); [reflexivity|].
  rewrite outcome_tryCatch. by destruct (outcome (parseReply content)).
Qed.

Lemma parseReply_requests (content : JsValue) :
  requests (parseReply content) = [].
Proof.
  unfold parseReply. rewrite requests_bind.
  destruct content as [| | | | s | |]; try reflexivity.
  cbn [outcome requests ret fst snd app].
  destruct (matchObject s) as [sub|]; [|reflexivity].
  rewrite requests_bind. cbn [outcome requests liftResult fst snd app].
  destruct (JSON_parse sub) as [e|parsed]; [reflexivity|].
  rewrite requests_bind. cbn [outcome requests liftResult fst snd app].
  by destruct (getNamed _ parsed).
Qed.

(** Exactly one request per call, whatever the answer. *)
Lemma analyzeWithGroq_requests (w : World)
  (text apiKey model description : JsString) :
  requests (analyzeWithGroq w text apiKey model description)
  = [groqRequest text apiKey model description].
Proof.
  unfold analyzeWithGroq. rewrite requests_bind. unfold doFetch.
  destruct (fetch w _) as [e|response]; [reflexivity|].
  cbn [outcome requests fst snd].
  destruct (negb (resp_ok response)); [reflexivity|].
  rewrite requests_bind. cbn [outcome requests liftResult fst snd app].
  destruct (JSON_parse (resp_body response)) as [e|data]; [reflexivity|].
  rewrite requests_bind. cbn [outcome requests liftResult fst snd app].
  destruct (replyContent data) as [e|content]; [reflexivity|].
  destruct (negb (Boolean content)); [reflexivity|].
  unfold tryCatch. pose proof (parseReply_requests content) as Hreq.
  destruct (parseReply content) as [[e|r] tr]; simpl in *; by subst tr.
Qed.

(** C6 (as the code has it): the call issues one request; it fails when
    the request is rejected, and for a delivered response exactly when the
    status is not a success, the body carries no content, or no JSON
    object can be found and parsed in the reply.  With an object located,
    the verdict is the truth value of its [shouldBlock] field: [false]
    when the field is missing, and whatever [Boolean] makes of a field
    that is not a boolean. *)
Theorem analyzeWithGroq_spec (w : World)
  (text apiKey model description : JsString) :
  requests (analyzeWithGroq w text apiKey model description)
  = [groqRequest text apiKey model description]
  /\ (forall e,
        fetch w (groqRequest text apiKey model description) = FetchRejected e ->
        outcome (analyzeWithGroq w text apiKey model description) = inl e)
  /\ (forall response,
        fetch w (groqRequest text apiKey model description)
        = FetchResolved response ->
        ((exists e, outcome (analyzeWithGroq w text apiKey model description)
                    = inl e)
         <-> resp_ok response = false
             \/ bodyContent (resp_body response) = None
             \/ exists content,
                  bodyContent (resp_body response) = Some content
                  /\ locatedObject content = None)
        /\ (forall content parsed,
              resp_ok response = true ->
              bodyContent (resp_body response) = Some content ->
              locatedObject content = Some parsed ->
              outcome (analyzeWithGroq w text apiKey model description)
              = inr {| ai_shouldBlock := Boolean (shouldBlockField parsed) |}
              /\ (forall kvs, parsed = JObject kvs ->
                    ownProperty kvs (lit "shouldBlock") = None ->
                    Boolean (shouldBlockField parsed) = false))).
Proof.
  split; [apply analyzeWithGroq_requests|]. split.
  { intros e Hfetch. unfold analyzeWithGroq. rewrite outcome_bind.
    unfold doFetch. by rewrite Hfetch. }
  intros response Hfetch.
  rewrite (analyzeWithGroq_response w _ _ _ _ response Hfetch).
  unfold bodyContent.
  destruct (resp_ok response); cbn [negb].
  2:{ split; [split; eauto|]. intros ? ? [=]. }
  destruct (JSON_parse (resp_body response)) as [e|data].
  { split; [split; eauto|]. intros ? ? _ [=]. }
  destruct (replyContent data) as [e|content].
  { split; [split; eauto|]. intros ? ? _ [=]. }
  destruct (Boolean content); cbn [negb].
  2:{ split; [split; eauto|]. intros ? ? _ [=]. }
  pose proof (parseReply_located content) as Hloc.
  destruct (locatedObject content) as [parsed|] eqn:Hobj.
  - rewrite Hloc. split.
    + split; [intros [e [=]]|].
      intros [[=]|[[=]|(c & Hc & Hnone)]]. congruence.
    + intros c p _ Hc Hp. assert (p = parsed) as -> by congruence.
      split; [reflexivity|]. intros kvs -> Hmissing.
      unfold shouldBlockField. by rewrite Hmissing.
  - destruct Hloc as [e ->]. split.
    + split; [|by exists (newError (lit "Failed to parse LLM response: "
                                     ++ String_of_error e))].
      intros _. right; right. by exists content.
    + intros c p _ Hc Hp. congruence.
Qed.

(** *** Further properties of the engine *)

Lemma analyzeText_requests_pipeline (w : World) (text : JsString) :
  requests (analyzeText w text) = requests (pipeline w text).
Proof. apply analyzeText_outcome. Qed.

Lemma aiLayer_requests (w : World) (settings : Settings) (text : JsString) :
  requests (aiLayer w settings text)
  = if aiFilterEnabled settings && truthyString (groqApiKey settings)
    then [groqRequest text (groqApiKey settings) (selectedModel settings)
            (effectiveDescription settings)]
    else [].
Proof.
  unfold aiLayer.
  destruct (aiFilterEnabled settings); [|reflexivity].
  destruct (truthyString (groqApiKey settings)); [|reflexivity].
  cbn [negb andb]. rewrite requests_bind, analyzeWithGroq_requests.
  by destruct (outcome (analyzeWithGroq _ _ _ _ _)).
Qed.

Lemma aiLayer_off (w : World) (settings : Settings) (text : JsString) :
  aiFilterEnabled settings = false \/ groqApiKey settings = [] ->
  aiLayer w settings text = ret passThrough.
Proof.
  intros Hoff. unfold aiLayer. destruct Hoff as [->| ->]; [reflexivity|].
  by destruct (aiFilterEnabled settings).
Qed.

(** An absent API key or a disabled AI layer is not an error: with no
    local match the verdict is the plain allow verdict, without an error
    field and without any request. *)
Theorem ai_layer_inert (w : World) (settings : Settings) (text : JsString) :
  outcome (getSettings w) = inr settings ->
  keywordLayer settings text = None ->
  simplifiedChineseLayer settings text = None ->
  aiFilterEnabled settings = false \/ groqApiKey settings = [] ->
  analyzeText w text
  = (inr {| shouldBlock := false; matched_by := lit "none";
            matched_keyword := None; error := None |}, []).
Proof.
  intros Hs Hk Hsc Hoff. apply analyzeText_of_pipeline.
  rewrite (pipeline_settings w text settings Hs), Hk, Hsc.
  by apply aiLayer_off.
Qed.

Lemma analyzeText_requests_cases (w : World) (text : JsString) :
  requests (analyzeText w text)
  = match outcome (getSettings w) with
    | inl _ => []
    | inr settings =>
        match keywordLayer settings text, simplifiedChineseLayer settings text with
        | None, None =>
            if aiFilterEnabled settings && truthyString (groqApiKey settings)
            then [{| req_url := lit "https://api.groq.com/openai/v1/chat/completions";
                     req_authorization := lit "Bearer " ++ groqApiKey settings;
                     req_model := selectedModel settings;
                     req_content :=
                       FILTER_PROMPT text
                         (if truthyString (filterDescription settings)
                          then filterDescription settings
                          else lit "content I want to avoid");
                     req_temperature := lit "0.3" |}]
            else []
        | _, _ => []
        end
    end.
Proof.
  rewrite analyzeText_requests_pipeline.
  destruct (outcome (getSettings w)) as [e|settings] eqn:Hs.
  { by rewrite (pipeline_settings_error w text e Hs). }
  rewrite (pipeline_settings w text settings Hs).
  destruct (keywordLayer settings text); [done|].
  destruct (simplifiedChineseLayer settings text); [done|].
  by rewrite aiLayer_requests.
Qed.

(** One call of [analyzeText] issues at most one request: none unless
    both local layers pass and the AI layer is enabled with a key, and
    then the one request carries the key as bearer token, the configured
    model and the prompt built from the text and the filter description
    (the default description when the configured one is empty). *)
Theorem analyzeText_requests (w : World) (text : JsString) :
  requests (analyzeText w text)
  = match outcome (getSettings w) with
    | inl _ => []
    | inr settings =>
        match keywordLayer settings text, simplifiedChineseLayer settings text with
        | None, None =>
            if aiFilterEnabled settings && truthyString (groqApiKey settings)
            then [{| req_url := lit "https://api.groq.com/openai/v1/chat/completions";
                     req_authorization := lit "Bearer " ++ groqApiKey settings;
                     req_model := selectedModel settings;
                     req_content :=
                       FILTER_PROMPT text
                         (if truthyString (filterDescription settings)
                          then filterDescription settings
                          else lit "content I want to avoid");
                     req_temperature := lit "0.3" |}]
            else []
        | _, _ => []
        end
    end
  /\ (length (requests (analyzeText w text)) <= 1)%nat.
Proof.
  split; [apply analyzeText_requests_cases|].
  rewrite analyzeText_requests_cases.
  destruct (outcome (getSettings w)) as [e|settings]; [simpl; lia|].
  destruct (keywordLayer settings text); [simpl; lia|].
  destruct (simplifiedChineseLayer settings text); [simpl; lia|].
  destruct (aiFilterEnabled settings && truthyString (groqApiKey settings));
    simpl; lia.
Qed.

(** When the classifier answers, its boolean is the verdict, tagged [ai]
    and without error -- also when the answer is [false]. *)
Theorem ai_verdict_passed_on (w : World) (settings : Settings)
  (text : JsString) (r : AIAnalysisResult) :
  outcome (getSettings w) = inr settings ->
  keywordLayer settings text = None ->
  simplifiedChineseLayer settings text = None ->
  aiFilterEnabled settings = true ->
  truthyString (groqApiKey settings) = true ->
  outcome (analyzeWithGroq w text (groqApiKey settings)
             (selectedModel settings) (effectiveDescription settings))
  = inr r ->
  outcome (analyzeText w text)
  = inr {| shouldBlock := ai_shouldBlock r; matched_by := lit "ai";
           matched_keyword := None; error := None |}.
Proof.
  intros Hs Hk Hsc Hai Hkey Hcall.
  destruct (analyzeText_outcome w text) as [-> _].
  rewrite (pipeline_settings w text settings Hs), Hk, Hsc.
  pose proof (aiLayer_outcome w settings text) as Hlayer.
  rewrite Hai, Hkey in Hlayer. cbn [negb orb] in Hlayer.
  by rewrite Hlayer, Hcall.
Qed.

(** With nothing stored the defaults apply, and under them every text
    passes without a request: the keyword list is empty and there is no
    API key. *)
Theorem default_settings_pass_through (w : World) (text : JsString) :
  storage_settings w = inr None ->
  analyzeText w text
  = (inr {| shouldBlock := false; matched_by := lit "none";
            matched_keyword := None; error := None |}, []).
Proof.
  intros Hstored. apply analyzeText_of_pipeline.
  rewrite (pipeline_settings w text DEFAULT_SETTINGS)
    by (unfold getSettings; by rewrite Hstored).
  change (keywordLayer DEFAULT_SETTINGS text) with (@None AnalysisResponse).
  change (simplifiedChineseLayer DEFAULT_SETTINGS text)
    with (@None AnalysisResponse).
  apply aiLayer_off. by right.
Qed.

(** A layer that is switched off never signs a verdict: no [keyword] tag
    with the keyword layer off, no [simplified-chinese] tag with that
    layer off, and neither an [ai] tag nor a request with the AI layer
    off or without a key. *)
Theorem disabled_layer_is_silent (w : World) (settings : Settings)
  (text : JsString) (v : AnalysisResponse) :
  outcome (getSettings w) = inr settings ->
  outcome (analyzeText w text) = inr v ->
  (keywordFilterEnabled settings = false -> matched_by v = lit "keyword" -> False)
  /\ (simplifiedChineseFilterEnabled settings = false ->
      matched_by v = lit "simplified-chinese" -> False)
  /\ (aiFilterEnabled settings = false \/ groqApiKey settings = [] ->
      (matched_by v = lit "ai" -> False)
      /\ requests (analyzeText w text) = []).
Proof.
  intros Hs Hv.
  pose proof (analyzeText_requests_cases w text) as Hreq. rewrite Hs in Hreq.
  destruct (analyzeText_outcome w text) as [Hout _]. rewrite Hout in Hv.
  rewrite (pipeline_settings w text settings Hs) in Hv.
  destruct (keywordLayer settings text) as [vk|] eqn:Hk.
  { injection Hv as <-.
    destruct (keywordLayer_Some _ _ _ Hk) as (k & -> & Hen & _).
    split; [congruence|]. split; [discriminate|].
    intros _. split; [discriminate|done]. }
  destruct (simplifiedChineseLayer settings text) as [vs|] eqn:Hsc.
  { injection Hv as <-.
    destruct (simplifiedChineseLayer_Some _ _ _ Hsc) as (-> & Hen & _).
    split; [discriminate|]. split; [congruence|].
    intros _. split; [discriminate|done]. }
  pose proof (aiLayer_outcome w settings text) as Hai.
  destruct (aiFilterEnabled settings) eqn:Hen; cbn [negb orb andb] in *.
  - destruct (truthyString (groqApiKey settings)) eqn:Hkey; cbn [negb] in *.
    + rewrite Hai in Hv.
      assert (groqApiKey settings <> []) as Hsome by (by intros Heq; rewrite Heq in Hkey).
      destruct (outcome (analyzeWithGroq _ _ _ _ _));
        injection Hv as <-; (split; [discriminate|]); (split; [discriminate|]);
        by intros [[=]|Hnokey].
    + rewrite Hai in Hv. injection Hv as <-.
      split; [discriminate|]. split; [discriminate|].
      intros _. split; [discriminate|done].
  - rewrite Hai in Hv. injection Hv as <-.
    split; [discriminate|]. split; [discriminate|].
    intros _. split; [discriminate|done].
Qed.

(** *** Locating the object in the reply *)

Lemma lastClose_None (s : JsString) : lastClose s = None <-> 125 ∉ s.
Proof.
  induction s as [|c s IH]; simpl.
  - split; [intros _; apply not_elem_of_nil|done].
  - rewrite not_elem_of_cons. destruct (lastClose s) as [j|].
    + split; [done|]. intros [_ Hs]. by apply IH in Hs.
    + destruct (Z.eqb_spec c 125) as [->|Hne].
      * split; [done|]. by intros [? _].
      * split; [|done]. intros _. split; [done|]. by apply IH.
Qed.

Lemma lastClose_Some (s : JsString) (j : nat) :
  lastClose s = Some j ->
  exists mid post, s = mid ++ [125] ++ post /\ length mid = j /\ (125 ∉ post).
Proof.
  revert j. induction s as [|c s IH]; intros j; simpl; [done|].
  destruct (lastClose s) as [i|] eqn:Hlast.
  - intros [= <-]. destruct (IH i eq_refl) as (mid & post & -> & <- & Hpost).
    by exists (c :: mid), post.
  - destruct (Z.eqb_spec c 125) as [->|]; [|done]. intros [= <-].
    exists [], s. repeat split. by apply lastClose_None.
Qed.

(** The match of the regular expression is a piece of the reply that
    opens with the first opening brace and closes with the last closing
    brace; there is none exactly when no closing brace follows the first
    opening one. *)
Theorem matchObject_greedy (s : JsString) :
  (forall sub, matchObject s = Some sub ->
     exists pre mid post,
       s = pre ++ [123] ++ mid ++ [125] ++ post
       /\ sub = [123] ++ mid ++ [125]
       /\ (123 ∉ pre) /\ (125 ∉ post))
  /\ (matchObject s = None <->
      forall pre mid post, s <> pre ++ [123] ++ mid ++ [125] ++ post).
Proof.
  induction s as [|c s [IHsome IHnone]]; simpl.
  { split; [done|]. split; [|done]. intros _ [|? pre] mid post; done. }
  destruct (Z.eqb_spec c 123) as [->|Hne].
  - destruct (lastClose s) as [j|] eqn:Hlast.
    + destruct (lastClose_Some s j Hlast) as (mid & post & -> & <- & Hpost).
      split.
      * intros sub [= <-]. exists [], mid, post.
        split; [done|]. split; [|split; [apply not_elem_of_nil|done]].
        simpl. f_equal. clear. induction mid as [|d mid IH]; [done|].
        simpl. by rewrite IH.
      * split; [done|]. intros Hall. exfalso. by apply (Hall [] mid post).
    + split; [done|]. split; [|done]. intros _ pre mid post Heq.
      apply lastClose_None in Hlast. apply Hlast.
      destruct pre as [|d pre]; simplify_eq/=; set_solver.
  - split.
    + intros sub Hsub. destruct (IHsome sub Hsub)
        as (pre & mid & post & -> & -> & Hpre & Hpost).
      exists (c :: pre), mid, post. repeat split; [|done].
      rewrite not_elem_of_cons. split; [congruence|done].
    + rewrite IHnone. split.
      * intros Hall [|d pre] mid post Heq; simplify_eq/=.
        by apply (Hall pre mid post).
      * intros Hall pre mid post ->. by apply (Hall (c :: pre) mid post).
Qed.

(** *** No keyword is missed, none is invented *)

(** The matcher answers a keyword of the list that occurs in the
    lower-cased text as a plain substring (no word boundaries), and it
    answers nothing exactly when no keyword of the list occurs there. *)
Lemma checkKeywordMatch_substring (text : JsString) (kws : list JsString) :
  (forall k, checkKeywordMatch text kws = Some k ->
     In k kws /\ exists pre post, toLowerCase text = pre ++ k ++ post)
  /\ (checkKeywordMatch text kws = None <->
      forall k pre post, In k kws -> toLowerCase text <> pre ++ k ++ post).
Proof.
  rewrite checkKeywordMatch_find. split.
  - intros k [Hin Hinc]%find_some. split; [done|].
    by apply includes_substring.
  - split.
    + intros Hnone k pre post Hin Heq.
      pose proof (find_none _ _ Hnone k Hin) as Hno. cbn beta in Hno.
      assert (includes (toLowerCase text) k = true) as Hyes.
      { apply includes_substring. by exists pre, post. }
      congruence.
    + intros Hall.
      destruct (List.find _ kws) as [k|] eqn:Hfind; [|done].
      apply find_some in Hfind as [Hin Hinc].
      apply includes_substring in Hinc as (pre & post & Heq).
      by destruct (Hall k pre post Hin).
Qed.

(** *** Text the conversion leaves alone *)

(** Text without surrogate pairs that the Simplified-to-Traditional
    conversion returns unchanged is never reported as Simplified. *)
Theorem unchanged_text_not_simplified (text : JsString) :
  Forall (fun c => isHighSurrogate c = false) text ->
  converterS2T text = text ->
  isSimplifiedChinese text = false.
Proof.
  intros Hbmp Hsame. unfold isSimplifiedChinese.
  destruct (_ <? 3)%nat; [reflexivity|].
  rewrite !countDiff_indexed, Hsame.
  assert (indexedChangedPositions text text = []) as ->.
  { apply list.elem_of_nil_inv. intros i Hi.
    apply (changedPositions_bmp text text i Hbmp) in Hi as [_ Hne]. done. }
  apply andb_false_r.
Qed.

End Engine.

(** *** Concrete instances for the worked examples *)

(** [JSON.parse] as the reference parser, throwing a [SyntaxError]. *)
Definition referenceJSON (s : JsString) : JsError + JsValue :=
  match json_parse s with
  | Some v => inr v
  | None => inl (mkJsError ESyntaxError (lit "Unexpected token"))
  end.

(** A fragment of the OpenCC character tables: six Simplified
    characters and their Traditional forms. *)
Definition sampleTable : list (Z * Z) :=
  [(22269, 22283); (35821, 35486); (23398, 23416);
   (20070, 26360); (38271, 38263); (39532, 39340)].

Definition sampleS2T (text : JsString) : JsString :=
  (fun c => default c (snd <$> List.find (fun p => fst p =? c) sampleTable))
  <$> text.

Definition sampleT2S (text : JsString) : JsString :=
  (fun c => default c (fst <$> List.find (fun p => snd p =? c) sampleTable))
  <$> text.

Definition msgNull : JsString := lit "Cannot read properties of null".
Definition msgCall : JsString := lit "content.match is not a function".

Definition sampleEngine : World -> JsString -> Eff AnalysisResponse :=
  analyzeText asciiToLowerCase sampleS2T sampleT2S referenceJSON
    msgNull msgCall.

Definition sampleSettings (kws : JsString) (script ai : bool) : Settings := {|
  keywordFilterEnabled := true;
  keywords := kws;
  simplifiedChineseFilterEnabled := script;
  aiFilterEnabled := ai;
  groqApiKey := lit "gsk_test";
  selectedModel := lit "llama-3.3-70b-versatile";
  filterDescription := [];
  allowReveal := true;
  enabledDomains := []
|}.

Definition sampleWorld (settings : Settings) (answer : FetchResult) : World :=
  {| storage_settings := inr (Some settings); fetch := fun _ => answer |}.

Definition serverError : FetchResult :=
  FetchResolved (FetchResponse false 500 (lit "upstream down")).

(** A reply whose object carries a string where a boolean is expected. *)
Definition malformedReply : FetchResult :=
  FetchResolved (FetchResponse true 200
    (qlit "{'choices':[{'message':{'content':'Sure: {\'shouldBlock\': \'no\'}'}}]}")).

Definition spoilerSettings : Settings :=
  sampleSettings (lit " Leak , SPOILER") false true.
Definition spoilerText : JsString := lit "Huge Spoiler: he dies".

Definition scriptSettings : Settings := sampleSettings [] true false.
(** Five Simplified characters, none Traditional. *)
Definition simplifiedText : JsString := [22269; 35821; 23398; 20070; 38271].

(** The C1 theorem at a server error: the allow verdict with the error. *)
Lemma fail_open_witness :
  outcome (sampleEngine (sampleWorld (sampleSettings [] false true) serverError)
             (lit "an ordinary sentence"))
  = inr {| shouldBlock := false; matched_by := lit "none";
           matched_keyword := None;
           error := Some (String_of_error
                            (newError (lit "Groq API error: 500 - upstream down"))) |}
  /\ String_of_error (newError (lit "Groq API error: 500 - upstream down")) <> [].
Proof.
  apply (proj1 (proj2 (analyzeText_fails_open asciiToLowerCase sampleS2T
                         sampleT2S referenceJSON msgNull msgCall
                         (sampleWorld (sampleSettings [] false true) serverError)
                         (lit "an ordinary sentence")))).
  reflexivity.
Defined.

(** The C2 theorem at the spoiler example: the second configured keyword
    is the first one the text includes. *)
Lemma keyword_match_witness :
  exists (k : JsString) (i : nat),
    parseKeywords asciiToLowerCase (keywords spoilerSettings) !! i = Some k
    /\ includes (asciiToLowerCase spoilerText) k = true
    /\ (forall (j : nat) (k' : JsString), (j < i)%nat ->
          parseKeywords asciiToLowerCase (keywords spoilerSettings) !! j = Some k' ->
          includes (asciiToLowerCase spoilerText) k' = false)
    /\ outcome (sampleEngine (sampleWorld spoilerSettings serverError) spoilerText)
       = inr {| shouldBlock := true; matched_by := lit "keyword";
                matched_keyword := Some k; error := None |}
    /\ requests (sampleEngine (sampleWorld spoilerSettings serverError) spoilerText)
       = [].
Proof.
  apply (keyword_match_short_circuits asciiToLowerCase sampleS2T sampleT2S
           referenceJSON msgNull msgCall
           (sampleWorld spoilerSettings serverError) spoilerSettings spoilerText).
  - reflexivity.
  - reflexivity.
  - discriminate.
  - exists (lit "spoiler"). split; [right; left; reflexivity|reflexivity].
Defined.

(** A keyword in Greek capitals and a text that contains it verbatim:
    alone the keyword ends in a final sigma, inside the longer word of
    the text it does not. *)
Definition sigmaSettings : Settings :=
  sampleSettings [931; 913; 931] false false.
Definition sigmaText : JsString :=
  [931; 913; 931; 913; 32; 917; 921; 925; 913; 921].

(** The text contains the configured keyword, letter for letter, and
    [analyzeText] lets it pass. *)
Lemma final_sigma_counterexample :
  keywordFilterEnabled sigmaSettings = true
  /\ parseKeywords greekToLowerCase (keywords sigmaSettings)
     = [[963; 945; 962]]
  /\ greekToLowerCase sigmaText
     = [963; 945; 963; 945; 32; 949; 953; 957; 945; 953]
  /\ sigmaText = keywords sigmaSettings ++ [913; 32; 917; 921; 925; 913; 921]
  /\ specContainsIgnoringCase greekToLowerCase sigmaText (keywords sigmaSettings)
  /\ analyzeText greekToLowerCase sampleS2T sampleT2S referenceJSON
       msgNull msgCall (sampleWorld sigmaSettings serverError) sigmaText
     = (inr {| shouldBlock := false; matched_by := lit "none";
               matched_keyword := None; error := None |}, []).
Proof.
  split; [reflexivity|]. split; [reflexivity|]. split; [reflexivity|].
  split; [reflexivity|]. split; [|reflexivity].
  by exists [], (keywords sigmaSettings), [913; 32; 917; 921; 925; 913; 921].
Qed.

(** The C5 theorem at five Simplified characters. *)
Lemma script_layer_witness :
  sampleEngine (sampleWorld scriptSettings serverError) simplifiedText
  = (inr {| shouldBlock := true; matched_by := lit "simplified-chinese";
            matched_keyword := None; error := None |}, []).
Proof.
  apply (script_layer_blocks asciiToLowerCase sampleS2T sampleT2S
           referenceJSON msgNull msgCall
           (sampleWorld scriptSettings serverError) scriptSettings simplifiedText);
    reflexivity.
Defined.

(** On that input the provenance tag is not the string [script]. *)
Lemma script_tag_counterexample :
  simplifiedChineseFilterEnabled scriptSettings = true
  /\ keywordLayer asciiToLowerCase scriptSettings simplifiedText = None
  /\ isSimplifiedChinese sampleS2T sampleT2S simplifiedText = true
  /\ exists v,
       outcome (sampleEngine (sampleWorld scriptSettings serverError)
                  simplifiedText) = inr v
       /\ shouldBlock v = true
       /\ matched_by v <> lit "script".
Proof.
  repeat split.
  exists {| shouldBlock := true; matched_by := lit "simplified-chinese";
            matched_keyword := None; error := None |}.
  repeat split. discriminate.
Qed.

(** A located and parsed object whose [shouldBlock] is the string [no]:
    the classifier answers [true]. *)
Lemma malformed_field_counterexample :
  json_parse (qlit "{'shouldBlock': 'no'}")
  = Some (JObject [(lit "shouldBlock", JString (lit "no"))])
  /\ outcome (analyzeWithGroq referenceJSON msgNull msgCall
                (sampleWorld (sampleSettings [] false true) malformedReply)
                (lit "an ordinary sentence") (lit "gsk_test")
                (lit "llama-3.3-70b-versatile") (lit "content I want to avoid"))
     = inr {| ai_shouldBlock := true |}.
Proof. split; reflexivity. Qed.

(** The C6 theorem at that reply and at a server error. *)
Lemma analyzeWithGroq_witness :
  outcome (analyzeWithGroq referenceJSON msgNull msgCall
             (sampleWorld (sampleSettings [] false true) malformedReply)
             (lit "an ordinary sentence") (lit "gsk_test")
             (lit "llama-3.3-70b-versatile") (lit "content I want to avoid"))
  = inr {| ai_shouldBlock :=
             Boolean (shouldBlockField
                        (JObject [(lit "shouldBlock", JString (lit "no"))])) |}
  /\ exists e,
       outcome (analyzeWithGroq referenceJSON msgNull msgCall
                  (sampleWorld (sampleSettings [] false true) serverError)
                  (lit "an ordinary sentence") (lit "gsk_test")
                  (lit "llama-3.3-70b-versatile") (lit "content I want to avoid"))
       = inl e.
Proof.
  split.
  - refine (proj1 (proj2 (proj2 (proj2 (analyzeWithGroq_spec referenceJSON
              msgNull msgCall
              (sampleWorld (sampleSettings [] false true) malformedReply)
              (lit "an ordinary sentence") (lit "gsk_test")
              (lit "llama-3.3-70b-versatile") (lit "content I want to avoid")))
              _ eq_refl)
              (JString (qlit "Sure: {'shouldBlock': 'no'}")) _
              eq_refl eq_refl eq_refl)).
  - refine (proj2 (proj1 (proj2 (proj2 (analyzeWithGroq_spec referenceJSON
              msgNull msgCall
              (sampleWorld (sampleSettings [] false true) serverError)
              (lit "an ordinary sentence") (lit "gsk_test")
              (lit "llama-3.3-70b-versatile") (lit "content I want to avoid")))
              _ eq_refl)) (or_introl eq_refl)).
Defined.

(** The C10 theorem at the spoiler example and at a blank keyword list. *)
Lemma matched_keyword_witness :
  (shouldBlock {| shouldBlock := true; matched_by := lit "keyword";
                  matched_keyword := Some (lit "spoiler"); error := None |}
   = true /\
   exists settings raw,
     outcome (getSettings (sampleWorld spoilerSettings serverError))
     = inr settings
     /\ In raw (split 44 (keywords settings))
     /\ Some (lit "spoiler") = Some (asciiToLowerCase (trim raw))
     /\ asciiToLowerCase (trim raw) <> []
     /\ includes (asciiToLowerCase spoilerText) (asciiToLowerCase (trim raw))
        = true)
  /\ parseKeywords asciiToLowerCase (lit " , ,,  ") = [].
Proof.
  split.
  - apply (proj1 (matched_keyword_normalized asciiToLowerCase sampleS2T
                    sampleT2S referenceJSON msgNull msgCall
                    (sampleWorld spoilerSettings serverError) spoilerText)
             {| shouldBlock := true; matched_by := lit "keyword";
                matched_keyword := Some (lit "spoiler"); error := None |});
      reflexivity.
  - apply (proj2 (matched_keyword_normalized asciiToLowerCase sampleS2T
                    sampleT2S referenceJSON msgNull msgCall
                    (sampleWorld (sampleSettings (lit " , ,,  ") false false)
                       serverError) spoilerText)
             eq_refl (sampleSettings (lit " , ,,  ") false false) eq_refl).
    repeat first [apply Forall_nil
                 |apply Forall_cons; [first [by left|by right]|]].
Defined.

(** An emoji followed by three Simplified characters. *)
Definition emojiText : JsString := [55357; 56832] ++ [22269; 35821; 23398].

(** C3: on an emoji followed by three Simplified characters the text
    has three characters in U+4E00..U+9FFF, the Simplified-to-Traditional
    conversion changes three characters and the other conversion none,
    and the detector answers [false].  A surrogate pair is one character
    of [[...text]] but two units of the converted strings, so behind the
    emoji the code compares each character with the unit before its own
    and counts four changes on both sides. *)
Theorem astral_prefix_divergence :
  spread emojiText = [[55357; 56832]; [22269]; [35821]; [23398]]
  /\ sampleS2T emojiText = [55357; 56832; 22283; 35486; 23416]
  /\ sampleT2S emojiText = emojiText
  /\ specChineseCount emojiText = 3%nat
  /\ specChangedPositions emojiText (sampleS2T emojiText) = [1; 2; 3]%nat
  /\ specChangedPositions emojiText (sampleT2S emojiText) = []
  /\ indexedChangedPositions emojiText (sampleS2T emojiText) = [0; 1; 2; 3]%nat
  /\ indexedChangedPositions emojiText (sampleT2S emojiText) = [0; 1; 2; 3]%nat
  /\ isSimplifiedChinese sampleS2T sampleT2S emojiText = false.
Proof. repeat split. Qed.

(** The detector on five Simplified characters and on a short text. *)
Lemma isSimplifiedChinese_witness :
  isSimplifiedChinese sampleS2T sampleT2S simplifiedText = true
  /\ isSimplifiedChinese sampleS2T sampleT2S [22269; 35821; 65; 66] = false.
Proof.
  split.
  - apply (proj2 (isSimplifiedChinese_spec sampleS2T sampleT2S simplifiedText)).
    + vm_compute. repeat constructor.
    + vm_compute. repeat constructor.
    + vm_compute. repeat split; [lia..|discriminate].
  - apply (proj1 (isSimplifiedChinese_spec sampleS2T sampleT2S
                    [22269; 35821; 65; 66])).
    vm_compute. lia.
Defined.

(** A reply that follows the requested format. *)
Definition allowReply : FetchResult :=
  FetchResolved (FetchResponse true 200
    (qlit "{'choices':[{'message':{'content':'{\'shouldBlock\': false}'}}]}")).

Definition noKeySettings : Settings := {|
  keywordFilterEnabled := true;
  keywords := lit "spoiler";
  simplifiedChineseFilterEnabled := true;
  aiFilterEnabled := true;
  groqApiKey := [];
  selectedModel := lit "llama-3.3-70b-versatile";
  filterDescription := lit "spoilers";
  allowReveal := true;
  enabledDomains := []
|}.

Lemma ai_layer_inert_witness :
  sampleEngine (sampleWorld noKeySettings serverError) (lit "an ordinary sentence")
  = (inr {| shouldBlock := false; matched_by := lit "none";
            matched_keyword := None; error := None |}, []).
Proof.
  apply (ai_layer_inert asciiToLowerCase sampleS2T sampleT2S referenceJSON
           msgNull msgCall (sampleWorld noKeySettings serverError)
           noKeySettings (lit "an ordinary sentence"));
    first [reflexivity|by right].
Defined.

Lemma ai_verdict_witness :
  outcome (sampleEngine (sampleWorld (sampleSettings [] false true) allowReply)
             (lit "an ordinary sentence"))
  = inr {| shouldBlock := false; matched_by := lit "ai";
           matched_keyword := None; error := None |}.
Proof.
  apply (ai_verdict_passed_on asciiToLowerCase sampleS2T sampleT2S
           referenceJSON msgNull msgCall
           (sampleWorld (sampleSettings [] false true) allowReply)
           (sampleSettings [] false true) (lit "an ordinary sentence")
           {| ai_shouldBlock := false |});
    reflexivity.
Defined.

Lemma default_settings_witness :
  sampleEngine {| storage_settings := inr None; fetch := fun _ => serverError |}
    spoilerText
  = (inr {| shouldBlock := false; matched_by := lit "none";
            matched_keyword := None; error := None |}, []).
Proof.
  apply (default_settings_pass_through asciiToLowerCase sampleS2T sampleT2S
           referenceJSON msgNull msgCall
           {| storage_settings := inr None; fetch := fun _ => serverError |}
           spoilerText).
  reflexivity.
Defined.

Lemma disabled_layer_witness :
  requests (sampleEngine (sampleWorld noKeySettings serverError)
              (lit "an ordinary sentence")) = [].
Proof.
  apply (disabled_layer_is_silent asciiToLowerCase sampleS2T sampleT2S
           referenceJSON msgNull msgCall
           (sampleWorld noKeySettings serverError) noKeySettings
           (lit "an ordinary sentence")
           {| shouldBlock := false; matched_by := lit "none";
              matched_keyword := None; error := None |} eq_refl eq_refl).
  by right.
Defined.

(** Traditional text, which the sample table maps to itself. *)
Lemma unchanged_text_witness :
  isSimplifiedChinese sampleS2T sampleT2S [22283; 35486; 23416; 26360] = false.
Proof.
  apply (unchanged_text_not_simplified sampleS2T sampleT2S
           [22283; 35486; 23416; 26360]).
  - by repeat constructor.
  - reflexivity.
Defined.

End Background.

(** ** The content script ([src/content.ts]) *)

Module Content.
Import Js.

Definition MIN_TEXT_LENGTH : nat := 10.
Definition PLACEHOLDER_CLASS : JsString := lit "toxic-blocker-placeholder".
Definition BLOCKED_CLASS : JsString := lit "toxic-blocker-blocked".

Definition SKIP_TAGS : list JsString :=
  [lit "script"; lit "style"; lit "noscript"; lit "iframe"; lit "svg";
   lit "img"; lit "video"; lit "audio"; lit "input"; lit "textarea";
   lit "select"; lit "button"; lit "nav"; lit "header"; lit "footer";
   lit "aside"; lit "head"; lit "meta"; lit "link"; lit "title"].

(** *** [hashText] *)

(** ToInt32: the wrap-around of the 32-bit operators. *)
Definition toInt32 (z : Z) : Z := (z + 2 ^ 31) mod 2 ^ 32 - 2 ^ 31.

(** One turn of the loop: [hash = (hash << 5) - hash + char] followed by
    [hash = hash & hash]. *)
Definition hashStep (hash char : Z) : Z :=
  let h := toInt32 (Z.shiftl (toInt32 hash) 5) - hash + char in
  Z.land (toInt32 h) (toInt32 h).

Definition hashValue (text : JsString) : Z := fold_left hashStep text 0.

(** The digits [0-9a-z] of radix 36. *)
Definition digit36 (d : Z) : Z := if d <? 10 then 48 + d else 87 + d.

Lemma log2_div36 (n : Z) : 36 <= n -> Z.log2 (n / 36) < Z.log2 n.
Proof.
  intros Hn.
  assert (0 < n / 36) as Hpos by (apply Z.div_str_pos; lia).
  assert (2 * (n / 36) <= n) as Hle.
  { pose proof (Z.mul_div_le n 36). lia. }
  apply Z.log2_le_mono in Hle. rewrite Z.log2_double in Hle by done. lia.
Qed.

(** The radix-36 digits of a natural number, most significant first. *)
Equations? toBase36 (n : Z) : JsString by wf (Z.to_nat (Z.log2 n)) lt :=
  toBase36 n with Z_lt_dec n 36 => {
    | left _ => [digit36 n];
    | right _ => toBase36 (n / 36) ++ [digit36 (n mod 36)] }.
Proof.
  pose proof (log2_div36 n ltac:(lia)).
  pose proof (Z.log2_nonneg (n / 36)). lia.
Qed.

(** [n.toString(36)] for an integer [n]. *)
Definition toString36 (n : Z) : JsString :=
  if n <? 0 then 45 :: toBase36 (- n) else toBase36 n.

Definition hashText (text : JsString) : JsString :=
  toString36 (hashValue text).

(** *** The page *)

(** Elements are object references; the page maps each to its
    observable state.  [revealButton] holds what the click listener of an
    injected Show button captured, while that button is in place. *)
Definition Element := nat.

Record Node := mkNode {
  tagName : JsString;
  elemId : JsString;
  classList : gset JsString;
  innerHTML : JsString;
  display : JsString;
  revealButton : option (JsString * JsString)
}.

Record AnalyzeTextMessage := mkMessage {
  action : JsString;
  msg_text : JsString;
  textHash : JsString
}.

(** The module-level state of the content script, the document, and the
    messages handed to [chrome.runtime.sendMessage] so far.  The document
    gives every element a node of its own, with its markup as a string:
    that one element lies inside another is not represented, so the
    properties below speak of what a call does to the element it is
    called on, not of what this does to the markup of an element around
    it or inside it. *)
Record Page := mkPage {
  dom : Element -> Node;
  analyzedTexts : gset JsString;
  processingElements : gset Element;
  processedElements : gset Element;
  analyzedCount : nat;
  blockedCount : nat;
  cachedSettings : option Background.Settings;
  indicator : option (JsString * bool);
  outbox : list AnalyzeTextMessage
}.

(** What an [analyzeElement] call suspended at its [await] holds on to. *)
Record Pending := mkPending {
  p_element : Element;
  p_originalHTML : JsString;
  p_originalDisplay : JsString
}.

(** How the awaited [sendMessage] settles: with a response, with
    [undefined], or by rejecting. *)
Inductive Reply :=
| Replied (response : Background.AnalysisResponse)
| NoResponse
| Rejected (e : JsError).

Definition setNode (el : Element) (node : Node) (pg : Page) : Page :=
  mkPage (<[el := node]> (dom pg)) (analyzedTexts pg) (processingElements pg)
    (processedElements pg) (analyzedCount pg) (blockedCount pg)
    (cachedSettings pg) (indicator pg) (outbox pg).

(** [showDebugIndicator(status, isError)] *)
Definition showDebugIndicator (status : JsString) (isError : bool) (pg : Page)
  : Page :=
  mkPage (dom pg) (analyzedTexts pg) (processingElements pg)
    (processedElements pg) (analyzedCount pg) (blockedCount pg)
    (cachedSettings pg) (Some (status, isError)) (outbox pg).

Definition classAdd (c : JsString) (node : Node) : Node :=
  mkNode (tagName node) (elemId node) ({[c]} ∪ classList node)
    (innerHTML node) (display node) (revealButton node).

Definition classRemove (c : JsString) (node : Node) : Node :=
  mkNode (tagName node) (elemId node) (classList node ∖ {[c]})
    (innerHTML node) (display node) (revealButton node).

(** Assigning [innerHTML] replaces the children, an injected button
    included. *)
Definition setInnerHTML (html : JsString) (node : Node) : Node :=
  mkNode (tagName node) (elemId node) (classList node) html (display node)
    None.

Definition setDisplay (d : JsString) (node : Node) : Node :=
  mkNode (tagName node) (elemId node) (classList node) (innerHTML node) d
    (revealButton node).

Definition blockedWithButton : JsString :=
  qlit "<span>Blocked content</span><button data-content-reveal='true'>Show</button>".
Definition blockedPlain : JsString := lit "<span>Blocked content</span>".
Definition placeholderText : JsString := lit "...".

(** *** [processElements] *)

Definition batchSize : nat := 5.

(** [elements.slice(i, j)] *)
Definition slice {A} (l : list A) (i j : nat) : list A :=
  take (j - i) (drop i l).

(** What the loop does, in order: a group of elements handed together to
    [Promise.all(batch.map(analyzeElement))], then a timer of so many
    milliseconds. *)
Inductive Schedule :=
| Dispatch (batch : list Element)
| Yield (ms : nat).

(** The [for] loop, from index [i]. *)
Equations? processElementsFrom (elements : list Element) (i : nat)
  : list Schedule by wf (length elements - i)%nat lt :=
  processElementsFrom elements i with lt_dec i (length elements) => {
    | left _ =>
        Dispatch (slice elements i (i + batchSize))
        :: Yield 100
        :: processElementsFrom elements (i + batchSize);
    | right _ => [] }.
Proof. unfold batchSize. lia. Qed.

Definition processElements (elements : list Element) : list Schedule :=
  processElementsFrom elements 0.

Section Scan.

(** The platform: lower-casing, and the text a piece of markup shows
    ([textContent] of an element whose [innerHTML] it is). *)
Variable toLowerCase : JsString -> JsString.
Variable textContentOf : JsString -> JsString.

(** [element.textContent] *)
Definition textContent (pg : Page) (el : Element) : JsString :=
  textContentOf (innerHTML (dom pg el)).

(** [element.textContent = '...']: the markup of three dots is itself. *)
Definition setTextContentDots (node : Node) : Node :=
  setInnerHTML placeholderText node.

(** [getAllTextContent] *)
Definition getAllTextContent (pg : Page) (el : Element) : JsString :=
  trim (textContent pg el).

(** [shouldSkipElement] *)
Definition shouldSkipElement (pg : Page) (el : Element) : bool :=
  let node := dom pg el in
  let tag := toLowerCase (tagName node) in
  if bool_decide (tag ∈ SKIP_TAGS) then true
  else if startsWith (elemId node) (lit "toxic-blocker") then true
  else if bool_decide (PLACEHOLDER_CLASS ∈ classList node) then true
  else if bool_decide (BLOCKED_CLASS ∈ classList node) then true
  else if bool_decide (el ∈ processedElements pg) then true
  else if bool_decide (el ∈ processingElements pg) then true
  else false.

(** [analyzeElement] up to its [await]: the page afterwards, and the
    suspended call when a message was sent. *)
Definition analyzeElement_start (el : Element) (pg : Page)
  : Page * option Pending :=
  let text := getAllTextContent pg el in
  if (length text <? MIN_TEXT_LENGTH)%nat then (pg, None)
  else
    let hash := hashText text in
    if bool_decide (hash ∈ analyzedTexts pg) then
      (mkPage (dom pg) (analyzedTexts pg) (processingElements pg)
         ({[el]} ∪ processedElements pg) (analyzedCount pg) (blockedCount pg)
         (cachedSettings pg) (indicator pg) (outbox pg), None)
    else
      let node := dom pg el in
      let originalHTML := innerHTML node in
      let originalText := textContent pg el in
      let originalDisplay := display node in
      let message := {| action := lit "analyzeText"; msg_text := originalText;
                        textHash := hash |} in
      (mkPage (<[el := setTextContentDots (classAdd PLACEHOLDER_CLASS node)]>
                 (dom pg))
         ({[hash]} ∪ analyzedTexts pg) ({[el]} ∪ processingElements pg)
         (processedElements pg) (analyzedCount pg) (blockedCount pg)
         (cachedSettings pg) (indicator pg) (outbox pg ++ [message]),
       Some {| p_element := el; p_originalHTML := originalHTML;
               p_originalDisplay := originalDisplay |}).

(** Restoring the original content. *)
Definition restore (p : Pending) (pg : Page) : Page :=
  setNode (p_element p)
    (setDisplay (p_originalDisplay p)
       (setInnerHTML (p_originalHTML p) (dom pg (p_element p)))) pg.

Definition removePlaceholder (p : Pending) (pg : Page) : Page :=
  setNode (p_element p) (classRemove PLACEHOLDER_CLASS (dom pg (p_element p))) pg.

(** [showBlockedContent] *)
Definition showBlockedContent (p : Pending) (pg : Page) : Page :=
  let node := classAdd BLOCKED_CLASS (dom pg (p_element p)) in
  let allowReveal :=
    match cachedSettings pg with
    | Some settings => Background.allowReveal settings
    | None => true
    end in
  if allowReveal then
    setNode (p_element p)
      (mkNode (tagName node) (elemId node) (classList node) blockedWithButton
         (display node) (Some (p_originalHTML p, p_originalDisplay p))) pg
  else setNode (p_element p) (setInnerHTML blockedPlain node) pg.

Definition countAnalyzed (pg : Page) : Page :=
  mkPage (dom pg) (analyzedTexts pg) (processingElements pg)
    (processedElements pg) (S (analyzedCount pg)) (blockedCount pg)
    (cachedSettings pg) (indicator pg) (outbox pg).

Definition countBlocked (pg : Page) : Page :=
  mkPage (dom pg) (analyzedTexts pg) (processingElements pg)
    (processedElements pg) (analyzedCount pg) (S (blockedCount pg))
    (cachedSettings pg) (indicator pg) (outbox pg).

(** The [finally] block. *)
Definition finish (p : Pending) (pg : Page) : Page :=
  mkPage (dom pg) (analyzedTexts pg) (processingElements pg ∖ {[p_element p]})
    ({[p_element p]} ∪ processedElements pg) (analyzedCount pg)
    (blockedCount pg) (cachedSettings pg) (indicator pg) (outbox pg).

(** The [catch] block. *)
Definition onError (p : Pending) (e : JsError) (pg : Page) : Page :=
  restore p (removePlaceholder p
    (showDebugIndicator (lit "Error: " ++ String_of_error e) true pg)).

(** [analyzeElement] from its [await] on. *)
Definition analyzeElement_resume (p : Pending) (reply : Reply) (pg : Page)
  : Page :=
  finish p
    match reply with
    | Rejected e => onError p e pg
    | NoResponse =>
        onError p (mkJsError ETypeError (lit "Cannot read properties of undefined (reading 'error')"))
          (removePlaceholder p (countAnalyzed pg))
    | Replied response =>
        let pg1 := removePlaceholder p (countAnalyzed pg) in
        match Background.error response with
        | Some (c :: msg) =>
            restore p (showDebugIndicator (lit "Error: " ++ c :: msg) true pg1)
        | _ =>
            if Background.shouldBlock response then
              let pg2 := showBlockedContent p (countBlocked pg1) in
              showDebugIndicator
                (lit "Blocked " ++ decimal (blockedCount pg2) ++ lit " items")
                false pg2
            else
              let pg2 := restore p pg1 in
              showDebugIndicator
                (lit "Analyzed " ++ decimal (analyzedCount pg2) ++ lit " items ("
                 ++ decimal (blockedCount pg2) ++ lit " blocked)") false pg2
        end
    end.

(** The click listener of the Show button. *)
Definition reveal (el : Element) (pg : Page) : Page :=
  match revealButton (dom pg el) with
  | Some (originalHTML, originalDisplay) =>
      setNode el
        (setDisplay originalDisplay
           (setInnerHTML originalHTML (classRemove BLOCKED_CLASS (dom pg el)))) pg
  | None => pg
  end.

(** [batch.map(el => analyzeElement(el))]: the synchronous parts of the
    calls run one after the other, before anything is awaited. *)
Fixpoint startBatchFrom (batch : list Element) (pg : Page)
  (started : list Pending) : Page * list Pending :=
  match batch with
  | [] => (pg, started)
  | el :: batch' =>
      let '(pg', p) := analyzeElement_start el pg in
      startBatchFrom batch' pg' (started ++ option_list p)
  end.

Definition startBatch (batch : list Element) (pg : Page) : Page * list Pending :=
  startBatchFrom batch pg [].

(** *** The page as a transition system *)

#[global] Instance Pending_eq_dec : EqDecision Pending.
Proof. solve_decision. Defined.

(** The page together with the [analyzeElement] calls suspended at their
    [await]. *)
Record System := mkSystem { page : Page; inflight : list Pending }.

(** What can happen next on the single event loop: a call of
    [analyzeElement] runs up to its [await], an awaited reply arrives, the
    user clicks a Show button, or the host page rewrites an element. *)
Inductive Event :=
| EvAnalyze (el : Element)
| EvSettle (p : Pending) (reply : Reply)
| EvReveal (el : Element)
| EvHostEdit (el : Element) (node : Node).

Fixpoint removeFirst (p : Pending) (l : list Pending) : list Pending :=
  match l with
  | [] => []
  | q :: l' => if decide (p = q) then l' else q :: removeFirst p l'
  end.

(** One event; a reply for a call that is not in flight changes
    nothing. *)
Definition step (s : System) (ev : Event) : System :=
  match ev with
  | EvAnalyze el =>
      let '(pg, started) := analyzeElement_start el (page s) in
      {| page := pg; inflight := inflight s ++ option_list started |}
  | EvSettle p reply =>
      if decide (p ∈ inflight s) then
        {| page := analyzeElement_resume p reply (page s);
           inflight := removeFirst p (inflight s) |}
      else s
  | EvReveal el => {| page := reveal el (page s); inflight := inflight s |}
  | EvHostEdit el node =>
      {| page := setNode el node (page s); inflight := inflight s |}
  end.

Definition run (s : System) (evs : list Event) : System := fold_left step evs s.

(** The state in which the content script starts. *)
Definition initial (document : Element -> Node)
  (settings : option Background.Settings) : System :=
  {| page := mkPage document ∅ ∅ ∅ 0 0 settings None []; inflight := [] |}.

(** The events that settle an analysis of [el] or change it from outside. *)
Definition touches (el : Element) (ev : Event) : bool :=
  match ev with
  | EvAnalyze _ => false
  | EvSettle p _ => bool_decide (p_element p = el)
  | EvReveal e | EvHostEdit e _ => bool_decide (e = el)
  end.

(** *** The fingerprint *)

Lemma toInt32_range (z : Z) : - 2 ^ 31 <= toInt32 z < 2 ^ 31.
Proof.
  unfold toInt32. pose proof (Z.mod_pos_bound (z + 2 ^ 31) (2 ^ 32)). lia.
Qed.

Lemma hashStep_range (hash char : Z) :
  - 2 ^ 31 <= hashStep hash char < 2 ^ 31.
Proof. unfold hashStep. rewrite Z.land_diag. apply toInt32_range. Qed.

Lemma hashValue_range (text : JsString) :
  - 2 ^ 31 <= hashValue text < 2 ^ 31.
Proof.
  unfold hashValue. induction text as [|c text IH] using rev_ind; [simpl; lia|].
  rewrite fold_left_app. apply hashStep_range.
Qed.

Lemma toBase36_length (k : nat) (n : Z) :
  0 <= n < 36 ^ Z.of_nat (S k) ->
  (1 <= length (toBase36 n) <= S k)%nat.
Proof.
  revert n. induction k as [|k IH]; intros n Hn.
  - simp toBase36. destruct (Z_lt_dec n 36); [simpl; lia|].
    change (36 ^ Z.of_nat 1) with 36 in Hn. lia.
  - simp toBase36. destruct (Z_lt_dec n 36) as [|Hge]; simpl; [lia|].
    rewrite length_app. simpl.
    assert (0 <= n / 36 < 36 ^ Z.of_nat (S k)) as Hq.
    { split; [apply Z.div_pos; lia|].
      apply Z.div_lt_upper_bound; [lia|].
      replace (Z.of_nat (S (S k))) with (Z.succ (Z.of_nat (S k))) in Hn by lia.
      rewrite Z.pow_succ_r in Hn by lia. lia. }
    specialize (IH _ Hq). lia.
Qed.

Lemma toString36_length (n : Z) :
  - 2 ^ 31 <= n < 2 ^ 31 -> (1 <= length (toString36 n) <= 7)%nat.
Proof.
  intros Hn. unfold toString36. destruct (Z.ltb_spec n 0).
  - pose proof (toBase36_length 5 (- n)) as Hlen. simpl length.
    assert (0 <= - n < 36 ^ Z.of_nat 6) as H6 by (simpl; lia).
    specialize (Hlen H6). lia.
  - pose proof (toBase36_length 5 n) as Hlen.
    assert (0 <= n < 36 ^ Z.of_nat 6) as H6 by (simpl; lia).
    specialize (Hlen H6). lia.
Qed.

(** C8 (as the code has it): the fingerprint is a function of the text;
    its value is a signed 32-bit integer, returned in radix 36 without
    padding, so the string has between one and seven characters. *)
Theorem hashText_width (text : JsString) :
  - 2 ^ 31 <= hashValue text < 2 ^ 31
  /\ hashText text = toString36 (hashValue text)
  /\ (1 <= length (hashText text) <= 7)%nat
  /\ (forall text', text' = text -> hashText text' = hashText text).
Proof.
  pose proof (hashValue_range text) as Hrange.
  repeat split; try lia; try apply (toString36_length _ Hrange).
  by intros text' ->.
Qed.

(** *** The batches *)

(** The groups a schedule dispatches, in order. *)
Definition dispatched (schedule : list Schedule) : list (list Element) :=
  flat_map (fun ev => match ev with Dispatch b => [b] | Yield _ => [] end)
    schedule.

Lemma slice_batch (elements : list Element) (i : nat) :
  slice elements i (i + batchSize) = take batchSize (drop i elements).
Proof. unfold slice. f_equal. lia. Qed.

Lemma processElementsFrom_groups (elements : list Element) (i : nat) :
  let gs := dispatched (processElementsFrom elements i) in
  concat gs = drop i elements
  /\ Forall (fun g => (1 <= length g <= batchSize)%nat) gs
  /\ (forall (j : nat) g, gs !! j = Some g -> (S j < length gs)%nat ->
        length g = batchSize)
  /\ processElementsFrom elements i
     = flat_map (fun g => [Dispatch g; Yield 100]) gs.
Proof.
  funelim (processElementsFrom elements i); clear Heqcall;
    cbn [dispatched flat_map app concat].
  - fold (dispatched (processElementsFrom elements (i + batchSize))).
    destruct H as (Hcat & Hsize & Hfull & Hsched).
    rewrite slice_batch. repeat split.
    + rewrite Hcat, <- drop_drop. apply take_drop.
    + constructor; [|done]. rewrite length_take, length_drop.
      unfold batchSize. lia.
    + intros [|j] g Hg Hj; simpl in Hg.
      * injection Hg as <-. rewrite length_take, length_drop.
        destruct (dispatched (processElementsFrom elements (i + batchSize)))
          as [|g' gs'] eqn:Hgs; [simpl in Hj; lia|].
        apply (f_equal (@length _)) in Hcat.
        rewrite length_drop in Hcat. simpl in Hcat. rewrite length_app in Hcat.
        inversion Hsize; subst. unfold batchSize in *. lia.
      * apply (Hfull j g Hg). simpl in Hj. lia.
    + by rewrite <- Hsched.
  - repeat split; [|done|intros j g [=]].
    symmetry. apply drop_ge. lia.
Qed.

Lemma startBatch_sends (batch : list Element) (pg : Page) (started : list Pending) :
  (length (outbox (startBatchFrom batch pg started).1) + length started
   = length (outbox pg) + length (startBatchFrom batch pg started).2)%nat.
Proof.
  revert pg started. induction batch as [|el batch IH]; intros pg started.
  - simpl. lia.
  - cbn [startBatchFrom].
    destruct (analyzeElement_start el pg) as [pg' p] eqn:Hstart.
    specialize (IH pg' (started ++ option_list p)).
    rewrite length_app in IH.
    unfold analyzeElement_start in Hstart.
    destruct (_ <? _)%nat; [injection Hstart as <- <-; simpl in *; lia|].
    destruct (bool_decide _);
      injection Hstart as <- <-; simpl in *; rewrite ?length_app in *;
      simpl in *; lia.
Qed.

(** *** The loop against the page *)

(** One turn of the loop, seen from the page: the state in which the
    group is dispatched, the state in which the loop suspends at
    [await Promise.all(...)], every call of the group having run up to
    its own [await], and the state in which the last of them has
    settled. *)
Record Turn := mkTurn {
  turn_batch : list Element;
  turn_dispatched : System;
  turn_suspended : System;
  turn_settled : System
}.

(** The replies to the suspended calls [order], handled in that order. *)
Definition settleAll (replyOf : Pending -> Reply) (order : list Pending)
  (s : System) : System :=
  run s ((fun p => EvSettle p (replyOf p)) <$> order).

(** [processElements] run to its end on the event loop, the reply to a
    call being [replyOf] of it and the replies to the calls of a group
    arriving in the order [arrival] puts them in.  [batch.map] starts
    the calls, [Promise.all] resumes the loop when all of them have
    settled, and the timer leaves the page alone. *)
Fixpoint runLoop (replyOf : Pending -> Reply)
  (arrival : list Pending -> list Pending) (schedule : list Schedule)
  (s : System) : list Turn * System :=
  match schedule with
  | [] => ([], s)
  | Dispatch batch :: rest =>
      let '(pg, started) := startBatch batch (page s) in
      let suspended := {| page := pg; inflight := inflight s ++ started |} in
      let settled := settleAll replyOf (arrival started) suspended in
      let '(turns, final) := runLoop replyOf arrival rest settled in
      (mkTurn batch s suspended settled :: turns, final)
  | Yield _ :: rest => runLoop replyOf arrival rest s
  end.

(** What makes the calls of a turn concurrent: the loop had nothing in
    flight when it dispatched the group; up to the suspension nothing
    happened but the calls of [analyzeElement] on the elements of the
    group, in their order; every message they sent belongs to a call
    that is in flight at the suspension, all of them together; and all
    of them have settled, in some order, when the turn ends. *)
Definition concurrentTurn (replyOf : Pending -> Reply) (t : Turn) : Prop :=
  inflight (turn_dispatched t) = []
  /\ turn_suspended t = run (turn_dispatched t) (EvAnalyze <$> turn_batch t)
  /\ inflight (turn_suspended t)
     = (startBatch (turn_batch t) (page (turn_dispatched t))).2
  /\ (length (outbox (page (turn_suspended t)))
      = length (outbox (page (turn_dispatched t)))
        + length (inflight (turn_suspended t)))%nat
  /\ (length (inflight (turn_suspended t)) <= length (turn_batch t))%nat
  /\ (forall p, p ∈ inflight (turn_suspended t) ->
        p_element p ∈ turn_batch t
        /\ p_element p ∈ processingElements (page (turn_suspended t)))
  /\ (exists order,
        order ≡ₚ inflight (turn_suspended t)
        /\ turn_settled t = settleAll replyOf order (turn_suspended t))
  /\ inflight (turn_settled t) = [].

(** Each turn starts where the one before it ended. *)
Fixpoint chained (s : System) (turns : list Turn) : Prop :=
  match turns with
  | [] => True
  | t :: turns' => turn_dispatched t = s /\ chained (turn_settled t) turns'
  end.

Lemma startBatchFrom_run (batch : list Element) (s : System)
  (before started : list Pending) :
  inflight s = before ++ started ->
  run s (EvAnalyze <$> batch)
  = {| page := (startBatchFrom batch (page s) started).1;
       inflight := before ++ (startBatchFrom batch (page s) started).2 |}.
Proof.
  revert s started. induction batch as [|el batch IH]; intros s started Hs.
  - cbn. rewrite <- Hs. by destruct s.
  - cbn [fmap list_fmap run fold_left startBatchFrom].
    fold (run (step s (EvAnalyze el)) (EvAnalyze <$> batch)).
    unfold step at 1.
    destruct (analyzeElement_start el (page s)) as [pg p] eqn:Hstart.
    rewrite (IH _ (started ++ option_list p)); [done|].
    cbn [inflight]. by rewrite Hs, app_assoc.
Qed.

Lemma startBatchFrom_snoc (batch : list Element) (el : Element) (pg : Page)
  (started : list Pending) :
  startBatchFrom (batch ++ [el]) pg started
  = (let '(pg1, started1) := startBatchFrom batch pg started in
     let '(pg2, p) := analyzeElement_start el pg1 in
     (pg2, started1 ++ option_list p)).
Proof.
  revert pg started. induction batch as [|e batch IH]; intros pg started.
  - cbn. by destruct (analyzeElement_start el pg).
  - cbn [app startBatchFrom].
    destruct (analyzeElement_start e pg) as [pg' p]. apply IH.
Qed.

Lemma analyzeElement_start_processing (el : Element) (pg : Page) :
  processingElements pg ⊆ processingElements (analyzeElement_start el pg).1
  /\ forall p, (analyzeElement_start el pg).2 = Some p ->
       p_element p = el
       /\ el ∈ processingElements (analyzeElement_start el pg).1.
Proof.
  unfold analyzeElement_start.
  destruct (_ <? _)%nat; [done|]. destruct (bool_decide _); [done|].
  cbn [fst snd processingElements]. split; [set_solver|].
  intros p [= <-]. cbn [p_element]. set_solver.
Qed.

Lemma startBatchFrom_started (batch : list Element) (pg : Page)
  (started : list Pending) :
  exists more,
    (startBatchFrom batch pg started).2 = started ++ more
    /\ (length more <= length batch)%nat
    /\ processingElements pg
       ⊆ processingElements (startBatchFrom batch pg started).1
    /\ forall p, p ∈ more ->
         p_element p ∈ batch
         /\ p_element p ∈ processingElements (startBatchFrom batch pg started).1.
Proof.
  revert pg started. induction batch as [|el batch IH]; intros pg started.
  - exists []. cbn. rewrite app_nil_r. split; [done|]. split; [lia|].
    split; [done|]. by intros p ?%elem_of_nil.
  - cbn [startBatchFrom].
    destruct (analyzeElement_start_processing el pg) as [Hgrow Hp].
    destruct (analyzeElement_start el pg) as [pg' p]. cbn [fst snd] in *.
    destruct (IH pg' (started ++ option_list p))
      as (more & Heq & Hlen & Hsub & Hmore).
    exists (option_list p ++ more). rewrite Heq, <- app_assoc.
    split; [done|]. split.
    { rewrite length_app. destruct p; cbn; lia. }
    split; [set_solver|].
    intros q [Hq|Hq]%elem_of_app.
    + destruct p as [p|]; [|by apply elem_of_nil in Hq].
      apply list_elem_of_singleton in Hq as ->.
      destruct (Hp p eq_refl) as [-> Hin]. split; [set_solver|set_solver].
    + destruct (Hmore q Hq). split; [set_solver|done].
Qed.

Lemma removeFirst_perm (p : Pending) (l : list Pending) :
  p ∈ l -> l ≡ₚ p :: removeFirst p l.
Proof.
  induction l as [|q l IH]; [by intros ?%elem_of_nil|].
  cbn [removeFirst]. destruct (decide (p = q)) as [->|Hne]; [done|].
  intros [->|Hin]%elem_of_cons; [done|].
  rewrite (IH Hin) at 1. apply Permutation_swap.
Qed.

Lemma settleAll_empties (replyOf : Pending -> Reply) (order : list Pending)
  (s : System) :
  order ≡ₚ inflight s -> inflight (settleAll replyOf order s) = [].
Proof.
  unfold settleAll. revert s.
  induction order as [|p order IH]; intros s Hperm.
  - cbn. by apply Permutation_nil_l in Hperm.
  - cbn [fmap list_fmap run fold_left].
    fold (run (step s (EvSettle p (replyOf p)))
            ((fun q => EvSettle q (replyOf q)) <$> order)).
    assert (p ∈ inflight s) as Hin by (rewrite <- Hperm; set_solver).
    apply IH. unfold step. destruct (decide (p ∈ inflight s)); [|done].
    cbn [inflight]. apply (Permutation_cons_inv (a := p)).
    by rewrite Hperm, <- removeFirst_perm.
Qed.

Lemma runLoop_turns (replyOf : Pending -> Reply)
  (arrival : list Pending -> list Pending) (gs : list (list Element))
  (s : System) :
  (forall l, arrival l ≡ₚ l) ->
  inflight s = [] ->
  let turns :=
    (runLoop replyOf arrival (flat_map (fun g => [Dispatch g; Yield 100]) gs) s).1
  in
  turn_batch <$> turns = gs
  /\ Forall (concurrentTurn replyOf) turns
  /\ chained s turns.
Proof.
  intros Harrival. revert s. induction gs as [|g gs IH]; intros s Hs; [done|].
  cbn [flat_map app runLoop].
  destruct (startBatch g (page s)) as [pg started] eqn:Hstart.
  set (suspended := {| page := pg; inflight := inflight s ++ started |}).
  set (settled := settleAll replyOf (arrival started) suspended).
  assert (inflight settled = []) as Hsettled.
  { apply settleAll_empties. subst suspended. cbn [inflight].
    by rewrite Hs, Harrival. }
  specialize (IH settled Hsettled). cbv zeta in IH.
  destruct (runLoop replyOf arrival _ settled) as [turns final].
  destruct IH as (Hbatches & Hturns & Hchain). cbn [fst] in *.
  split; [by rewrite fmap_cons, Hbatches|]. split; [|done].
  constructor; [|done].
  pose proof (startBatchFrom_run g s [] [] ltac:(by rewrite Hs)) as Hrun.
  pose proof (startBatch_sends g (page s) []) as Hsent.
  destruct (startBatchFrom_started g (page s) [])
    as (more & Hmore & Hlen & _ & Helems).
  unfold startBatch in Hstart. rewrite Hstart in Hrun, Hsent, Hmore, Helems.
  cbn [fst snd app length] in *. subst more.
  unfold concurrentTurn.
  cbn [turn_dispatched turn_suspended turn_settled turn_batch].
  subst suspended. cbn [inflight page]. rewrite Hs. cbn [app].
  unfold startBatch. rewrite Hstart. cbn [snd].
  repeat split; try done; [lia|by apply Helems|by apply Helems|].
  exists (arrival started). split; [done|]. subst settled. by rewrite Hs.
Qed.

(** C7: the loop hands the list over in consecutive groups that
    concatenate to it, each of one to five elements and all but the last
    of exactly five; every group is followed by a 100 ms timer, so one
    separates any two successive groups; twelve elements make the three
    groups of sizes 5, 5 and 2.  The analyses of a group run
    concurrently: each call runs up to its [await] on the page the
    earlier calls of the group have left, the earlier ones still
    suspended; when the loop suspends, every message the group has sent
    belongs to a call in flight; and the next group is dispatched when
    all of them have settled, in whatever order the replies arrive. *)
Theorem processElements_groups (elements : list Element) :
  let gs := dispatched (processElements elements) in
  concat gs = elements
  /\ Forall (fun g => (1 <= length g <= 5)%nat) gs
  /\ (forall (j : nat) g, gs !! j = Some g -> (S j < length gs)%nat ->
        length g = 5%nat)
  /\ processElements elements = flat_map (fun g => [Dispatch g; Yield 100]) gs
  /\ (length elements = 12%nat -> length <$> gs = [5; 5; 2]%nat)
  /\ (forall g el pg,
        startBatch (g ++ [el]) pg
        = (let '(pg1, started) := startBatch g pg in
           let '(pg2, p) := analyzeElement_start el pg1 in
           (pg2, started ++ option_list p)))
  /\ (forall replyOf arrival s,
        (forall l, arrival l ≡ₚ l) ->
        inflight s = [] ->
        let turns := (runLoop replyOf arrival (processElements elements) s).1 in
        turn_batch <$> turns = gs
        /\ Forall (concurrentTurn replyOf) turns
        /\ Forall (fun t => (length (inflight (turn_suspended t)) <= 5)%nat) turns
        /\ chained s turns).
Proof.
  pose proof (processElementsFrom_groups elements 0) as (Hcat & Hsize & Hfull & Hs).
  cbn zeta. unfold processElements.
  split; [done|]. split; [done|]. split; [done|]. split; [done|]. split.
  { intros Hlen.
    do 13 (destruct elements as [|? elements]; try discriminate Hlen).
    reflexivity. }
  split; [intros g el pg; apply startBatchFrom_snoc|].
  intros replyOf arrival s Harrival Hidle.
  destruct (runLoop_turns replyOf arrival
              (dispatched (processElementsFrom elements 0)) s Harrival Hidle)
    as (Hbatches & Hturns & Hchain).
  rewrite <- Hs in Hbatches, Hturns, Hchain.
  split; [done|]. split; [done|]. split; [|done].
  assert (Forall (fun t => (length (turn_batch t) <= 5)%nat)
            (runLoop replyOf arrival (processElementsFrom elements 0) s).1)
    as Hbatch.
  { apply Forall_fmap with (f := turn_batch)
                           (P := fun g => (length g <= 5)%nat).
    rewrite Hbatches. eapply Forall_impl; [|exact Hsize].
    cbn. unfold batchSize. intros g. lia. }
  clear Hbatches Hchain. revert Hturns Hbatch.
  induction 1 as [|t ts Ht _ IH]; [done|].
  intros Hb5. inversion_clear Hb5 as [|? ? Ht5 Hts5].
  constructor; [|by apply IH].
  destruct Ht as (_ & _ & _ & _ & Hle & _). lia.
Qed.

(** *** What one call and one event change *)

(** The three ways through the synchronous part of [analyzeElement]. *)
Lemma analyzeElement_start_cases (el : Element) (pg : Page) :
  let text := getAllTextContent pg el in
  ((length text < MIN_TEXT_LENGTH)%nat
   /\ analyzeElement_start el pg = (pg, None))
  \/ ((MIN_TEXT_LENGTH <= length text)%nat
      /\ (hashText text ∈ analyzedTexts pg)
      /\ analyzeElement_start el pg
         = (mkPage (dom pg) (analyzedTexts pg) (processingElements pg)
              ({[el]} ∪ processedElements pg) (analyzedCount pg)
              (blockedCount pg) (cachedSettings pg) (indicator pg) (outbox pg),
            None))
  \/ ((MIN_TEXT_LENGTH <= length text)%nat
      /\ (hashText text ∉ analyzedTexts pg)
      /\ analyzeElement_start el pg
         = (mkPage
              (<[el := setTextContentDots (classAdd PLACEHOLDER_CLASS (dom pg el))]>
                 (dom pg))
              ({[hashText text]} ∪ analyzedTexts pg)
              ({[el]} ∪ processingElements pg)
              (processedElements pg) (analyzedCount pg) (blockedCount pg)
              (cachedSettings pg) (indicator pg)
              (outbox pg ++ [{| action := lit "analyzeText";
                                msg_text := textContent pg el;
                                textHash := hashText text |}]),
            Some {| p_element := el;
                    p_originalHTML := innerHTML (dom pg el);
                    p_originalDisplay := display (dom pg el) |})).
Proof.
  intros text. unfold analyzeElement_start. fold text.
  destruct (Nat.ltb_spec (length text) MIN_TEXT_LENGTH); [by left|].
  right. destruct (bool_decide_reflect (hashText text ∈ analyzedTexts pg));
    [by left|by right].
Qed.

Lemma resume_outbox (p : Pending) (reply : Reply) (pg : Page) :
  outbox (analyzeElement_resume p reply pg) = outbox pg
  /\ analyzedTexts (analyzeElement_resume p reply pg) = analyzedTexts pg.
Proof.
  unfold analyzeElement_resume, showBlockedContent.
  destruct reply as [response| |e]; [|done..].
  destruct (Background.error response) as [[|c msg]|];
    destruct (Background.shouldBlock response); try done;
    by destruct (match cachedSettings _ with Some _ => _ | None => _ end).
Qed.

Lemma resume_dom_other (p : Pending) (reply : Reply) (pg : Page) (el : Element) :
  p_element p <> el ->
  dom (analyzeElement_resume p reply pg) el = dom pg el.
Proof.
  intros Hne.
  unfold analyzeElement_resume, showBlockedContent, onError, restore,
    removePlaceholder, setNode.
  destruct reply as [response| |e]; cbn [dom finish showDebugIndicator countAnalyzed];
    [|by rewrite !fn_lookup_insert_ne..].
  destruct (Background.error response) as [[|c msg]|];
    destruct (Background.shouldBlock response);
    cbn [dom showDebugIndicator countBlocked];
    try by rewrite !fn_lookup_insert_ne.
  all: destruct (match cachedSettings _ with Some _ => _ | None => _ end);
    cbn [dom]; by rewrite !fn_lookup_insert_ne.
Qed.

Lemma reveal_outbox (el : Element) (pg : Page) :
  outbox (reveal el pg) = outbox pg
  /\ analyzedTexts (reveal el pg) = analyzedTexts pg.
Proof. unfold reveal. by destruct (revealButton _) as [[h d]|]. Qed.

Lemma reveal_dom_other (e el : Element) (pg : Page) :
  e <> el -> dom (reveal e pg) el = dom pg el.
Proof.
  intros Hne. unfold reveal. destruct (revealButton _) as [[h d]|]; [|done].
  cbn [setNode dom]. by rewrite fn_lookup_insert_ne.
Qed.

Lemma in_removeFirst (p q : Pending) (l : list Pending) :
  q ∈ removeFirst p l -> q ∈ l.
Proof.
  induction l as [|r l IH]; simpl; [done|].
  destruct (decide (p = r)); rewrite ?elem_of_cons; [by right|].
  intros [->|Hq]; [by left|right; by apply IH].
Qed.

(** Every message sent carries a hash recorded in [analyzedTexts], and no
    hash is carried twice. *)
Definition sentOnce (s : System) : Prop :=
  NoDup (textHash <$> outbox (page s))
  /\ forall m, m ∈ outbox (page s) -> textHash m ∈ analyzedTexts (page s).

Lemma step_sentOnce (s : System) (ev : Event) :
  sentOnce s -> sentOnce (step s ev).
Proof.
  intros [Hnodup Hin]. destruct ev as [el|p reply|el|el node]; unfold step.
  - destruct (analyzeElement_start_cases el (page s))
      as [(_ & ->)|[(_ & _ & ->)|(_ & Hfresh & ->)]]; [done..|].
    split; cbn [page outbox analyzedTexts].
    + rewrite fmap_app. apply list.NoDup_app. split; [done|].
      split; [|apply NoDup_singleton].
      intros h Hh Hnew. apply list_elem_of_fmap in Hh as (m & -> & Hm).
      cbn in Hnew. apply list_elem_of_singleton in Hnew.
      apply Hfresh. rewrite <- Hnew. by apply Hin.
    + intros m [Hm| ->%list_elem_of_singleton]%elem_of_app;
        [set_solver|cbn [textHash]; set_solver].
  - destruct (decide (p ∈ inflight s)); [|done].
    destruct (resume_outbox p reply (page s)) as [Ho Ha].
    split; cbn [page]; rewrite ?Ho, ?Ha; done.
  - destruct (reveal_outbox el (page s)) as [Ho Ha].
    split; cbn [page]; rewrite ?Ho, ?Ha; done.
  - done.
Qed.

Lemma run_sentOnce (s : System) (evs : list Event) :
  sentOnce s -> sentOnce (run s evs).
Proof.
  revert s. induction evs as [|ev evs IH]; intros s Hs; [done|].
  apply IH. by apply step_sentOnce.
Qed.

Lemma step_dom_other (s : System) (ev : Event) (el : Element) :
  touches el ev = false -> ev <> EvAnalyze el ->
  dom (page (step s ev)) el = dom (page s) el.
Proof.
  intros Htouch Hother. destruct ev as [e|p reply|e|e node]; unfold step.
  - assert (e <> el) as Hne by congruence.
    destruct (analyzeElement_start_cases e (page s))
      as [(_ & ->)|[(_ & _ & ->)|(_ & _ & ->)]]; [done..|].
    cbn [page dom]. by rewrite fn_lookup_insert_ne.
  - apply bool_decide_eq_false in Htouch.
    destruct (decide (p ∈ inflight s)); [|done].
    by apply resume_dom_other.
  - apply bool_decide_eq_false in Htouch. by apply reveal_dom_other.
  - apply bool_decide_eq_false in Htouch.
    cbn [page setNode dom]. by rewrite fn_lookup_insert_ne.
Qed.

(** While an element shows the placeholder, analysing it again does
    nothing at all. *)
Lemma analyze_placeholder (s : System) (el : Element) :
  textContentOf placeholderText = placeholderText ->
  innerHTML (dom (page s) el) = placeholderText ->
  step s (EvAnalyze el) = s.
Proof.
  intros Hdots Hhtml.
  assert (getAllTextContent (page s) el = placeholderText) as Htext.
  { unfold getAllTextContent, textContent. by rewrite Hhtml, Hdots. }
  unfold step.
  destruct (analyzeElement_start_cases el (page s))
    as [(_ & ->)|[(Hlong & _)|(Hlong & _)]].
  - destruct s as [pg fl]. cbn. by rewrite app_nil_r.
  - rewrite Htext in Hlong. vm_compute in Hlong. lia.
  - rewrite Htext in Hlong. vm_compute in Hlong. lia.
Qed.

Lemma run_placeholder (s : System) (el : Element) (evs : list Event) :
  textContentOf placeholderText = placeholderText ->
  innerHTML (dom (page s) el) = placeholderText ->
  Forall (fun ev => touches el ev = false) evs ->
  dom (page (run s evs)) el = dom (page s) el.
Proof.
  intros Hdots. revert s. induction evs as [|ev evs IH]; intros s Hhtml Hevs;
    [done|].
  inversion_clear Hevs as [|? ? Hev Hrest]. cbn [run fold_left].
  assert (ev = EvAnalyze el \/ ev <> EvAnalyze el) as [->|Hother].
  { destruct ev as [e| | |]; [|by right..].
    destruct (decide (e = el)) as [->|]; [by left|right; congruence]. }
  - rewrite (analyze_placeholder s el Hdots Hhtml). by apply IH.
  - pose proof (step_dom_other s ev el Hev Hother) as Hstep.
    fold (run (step s ev) evs). rewrite IH; [done| |done]. by rewrite Hstep.
Qed.

Lemma initial_sentOnce (document : Element -> Node)
  (settings : option Background.Settings) :
  sentOnce (initial document settings).
Proof. split; [constructor|]. intros m Hm. by apply elem_of_nil in Hm. Qed.

(** C4: along every run of the page no hash is sent twice; a call whose
    hash is already in [analyzedTexts] sends nothing; and once a call on
    an element has sent its message -- having recorded the hash and
    marked the element before suspending -- the scanner skips that
    element and further calls on it do nothing, until that first
    analysis settles. *)
Theorem hash_classified_at_most_once :
  (forall document settings evs,
     NoDup (textHash <$> outbox (page (run (initial document settings) evs))))
  /\ (forall pg el,
        hashText (getAllTextContent pg el) ∈ analyzedTexts pg ->
        (analyzeElement_start el pg).2 = None
        /\ outbox (analyzeElement_start el pg).1 = outbox pg)
  /\ (textContentOf placeholderText = placeholderText ->
      forall s el evs,
        (MIN_TEXT_LENGTH <= length (getAllTextContent (page s) el))%nat ->
        hashText (getAllTextContent (page s) el) ∉ analyzedTexts (page s) ->
        Forall (fun ev => touches el ev = false) evs ->
        let s1 := step s (EvAnalyze el) in
        let s2 := run s1 evs in
        outbox (page s1)
        = outbox (page s)
          ++ [{| action := lit "analyzeText";
                 msg_text := textContent (page s) el;
                 textHash := hashText (getAllTextContent (page s) el) |}]
        /\ hashText (getAllTextContent (page s) el) ∈ analyzedTexts (page s1)
        /\ el ∈ processingElements (page s1)
        /\ shouldSkipElement (page s2) el = true
        /\ step s2 (EvAnalyze el) = s2).
Proof.
  split; [|split].
  - intros document settings evs.
    apply (run_sentOnce _ evs (initial_sentOnce document settings)).
  - intros pg el Hin.
    destruct (analyzeElement_start_cases el pg)
      as [(_ & ->)|[(_ & _ & ->)|(_ & Hfresh & _)]]; done.
  - intros Hdots s el evs Hlen Hfresh Hevs s1 s2.
    assert (dom (page s1) el
            = setTextContentDots (classAdd PLACEHOLDER_CLASS (dom (page s) el))
            /\ outbox (page s1)
               = outbox (page s)
                 ++ [{| action := lit "analyzeText";
                        msg_text := textContent (page s) el;
                        textHash := hashText (getAllTextContent (page s) el) |}]
            /\ hashText (getAllTextContent (page s) el) ∈ analyzedTexts (page s1)
            /\ el ∈ processingElements (page s1)) as (Hdom & Hout & Hrec & Hproc).
    { subst s1. unfold step.
      destruct (analyzeElement_start_cases el (page s))
        as [(Hshort & _)|[(_ & Hold & _)|(_ & _ & ->)]]; [lia|done|].
      cbn [page dom outbox analyzedTexts processingElements].
      rewrite fn_lookup_insert. repeat split; set_solver. }
    assert (dom (page s2) el = dom (page s1) el) as Hkept.
    { apply run_placeholder; [done| |done]. by rewrite Hdom. }
    repeat split; [done..| |].
    + unfold shouldSkipElement. rewrite Hkept, Hdom.
      repeat (case_bool_decide || destruct (startsWith _ _)); try done.
      cbn [classList setTextContentDots setInnerHTML classAdd] in *. set_solver.
    + apply analyze_placeholder; [done|]. by rewrite Hkept, Hdom.
Qed.

(** *** The fingerprint as a polynomial *)

Lemma toInt32_wrap (z : Z) : exists q, toInt32 z = z + 2 ^ 32 * q.
Proof.
  exists (- ((z + 2 ^ 31) / 2 ^ 32)). unfold toInt32.
  pose proof (Z.div_mod (z + 2 ^ 31) (2 ^ 32)). lia.
Qed.

Lemma toInt32_multiple (z q : Z) : toInt32 (z + 2 ^ 32 * q) = toInt32 z.
Proof.
  unfold toInt32. f_equal.
  replace (z + 2 ^ 32 * q + 2 ^ 31) with (z + 2 ^ 31 + q * 2 ^ 32) by lia.
  apply Z_mod_plus_full.
Qed.

Lemma hashStep_31 (hash char : Z) :
  hashStep hash char = toInt32 (31 * hash + char).
Proof.
  unfold hashStep. rewrite Z.land_diag, Z.shiftl_mul_pow2 by lia.
  destruct (toInt32_wrap hash) as [q1 ->].
  destruct (toInt32_wrap ((hash + 2 ^ 32 * q1) * 2 ^ 5)) as [q2 ->].
  replace ((hash + 2 ^ 32 * q1) * 2 ^ 5 + 2 ^ 32 * q2 - hash + char)
    with (31 * hash + char + 2 ^ 32 * (32 * q1 + q2)) by lia.
  apply toInt32_multiple.
Qed.

(** The loop computes the polynomial hash with multiplier 31 over the
    UTF-16 units, reduced to a signed 32-bit integer: [(hash << 5) - hash]
    is [31 * hash], and wrapping at each turn or once at the end is the
    same. *)
Theorem hashValue_polynomial (text : JsString) :
  hashValue text = toInt32 (fold_left (fun acc c => 31 * acc + c) text 0)
  /\ (forall c, hashValue (text ++ [c]) = toInt32 (31 * hashValue text + c)).
Proof.
  assert (forall c, hashValue (text ++ [c]) = toInt32 (31 * hashValue text + c))
    as Hsnoc.
  { intros c. unfold hashValue. rewrite fold_left_app. apply hashStep_31. }
  split; [|done]. clear Hsnoc.
  induction text as [|c text IH] using rev_ind; [reflexivity|].
  unfold hashValue in *. rewrite !fold_left_app. cbn [fold_left].
  rewrite hashStep_31, IH.
  destruct (toInt32_wrap (fold_left (fun acc c0 => 31 * acc + c0) text 0))
    as [q ->].
  replace (31 * (fold_left (fun acc c0 => 31 * acc + c0) text 0 + 2 ^ 32 * q) + c)
    with (31 * fold_left (fun acc c0 => 31 * acc + c0) text 0 + c
          + 2 ^ 32 * (31 * q)) by lia.
  apply toInt32_multiple.
Qed.

(** Reading a radix-36 numeral back, as [parseInt(s, 36)] does. *)
Definition digitValue36 (c : Z) : Z := if c <? 58 then c - 48 else c - 87.

Definition fromBase36 (s : JsString) : Z :=
  fold_left (fun acc c => acc * 36 + digitValue36 c) s 0.

Definition parseInt36 (s : JsString) : Z :=
  match s with
  | c :: rest => if c =? 45 then - fromBase36 rest else fromBase36 s
  | [] => 0
  end.

Lemma toBase36_digits (n : Z) :
  0 <= n -> fromBase36 (toBase36 n) = n /\ Forall (fun c => 48 <= c) (toBase36 n)
            /\ toBase36 n <> [].
Proof.
  funelim (toBase36 n); clear Heqcall; intros Hn.
  - assert (48 <= digit36 n /\ digitValue36 (digit36 n) = n) as [Hlow Hback].
    { unfold digitValue36, digit36.
      destruct (Z.ltb_spec n 10); destruct (_ <? 58) eqn:Hd; lia. }
    split; [|split; [|done]].
    + unfold fromBase36. simpl. lia.
    + by apply Forall_cons.
  - assert (0 <= n / 36) as Hq by (apply Z.div_pos; lia).
    destruct (H Hq) as (Hval & Hall & _). repeat split.
    + unfold fromBase36 in *. rewrite fold_left_app. cbn [fold_left].
      rewrite Hval. pose proof (Z.mod_pos_bound n 36 ltac:(lia)).
      pose proof (Z.div_mod n 36 ltac:(lia)).
      unfold digitValue36, digit36.
      destruct (Z.ltb_spec (n mod 36) 10); destruct (_ <? 58) eqn:Hd; lia.
    + apply Forall_app. split; [done|]. constructor; [|done].
      pose proof (Z.mod_pos_bound n 36 ltac:(lia)).
      unfold digit36. destruct (Z.ltb_spec (n mod 36) 10); lia.
    + by destruct (toBase36 (n / 36)).
Qed.

Lemma parseInt36_toString36 (n : Z) : parseInt36 (toString36 n) = n.
Proof.
  unfold toString36. destruct (Z.ltb_spec n 0).
  - cbn. destruct (toBase36_digits (- n)) as [-> _]; lia.
  - destruct (toBase36_digits n) as (Hval & Hall & Hne); [lia|].
    unfold parseInt36. destruct (toBase36 n) as [|c rest]; [done|].
    inversion Hall; subst. destruct (Z.eqb_spec c 45); [lia|done].
Qed.

(** The string returned loses nothing of the 32-bit value: it reads back
    to it, so two texts get the same fingerprint exactly when their hash
    values coincide. *)
Theorem hashText_faithful (text1 text2 : JsString) :
  parseInt36 (hashText text1) = hashValue text1
  /\ (hashText text1 = hashText text2 <-> hashValue text1 = hashValue text2).
Proof.
  unfold hashText. split; [apply parseInt36_toString36|].
  split; [|by intros ->].
  intros Heq. apply (f_equal parseInt36) in Heq.
  by rewrite !parseInt36_toString36 in Heq.
Qed.

(** *** The groups and the time they take *)

(** The milliseconds a schedule sleeps. *)
Definition totalYield (schedule : list Schedule) : nat :=
  fold_right (fun ev acc => match ev with Yield ms => ms + acc | Dispatch _ => acc end)%nat
    0%nat schedule.

Lemma processElementsFrom_count (elements : list Element) (i : nat) :
  length (dispatched (processElementsFrom elements i))
  = ((length elements - i + 4) / 5)%nat
  /\ totalYield (processElementsFrom elements i)
     = (100 * ((length elements - i + 4) / 5))%nat.
Proof.
  funelim (processElementsFrom elements i); clear Heqcall.
  - destruct H as [Hcount Hyield].
    cbn [dispatched flat_map app length totalYield fold_right].
    fold (dispatched (processElementsFrom elements (i + batchSize))).
    fold (totalYield (processElementsFrom elements (i + batchSize))).
    rewrite Hcount, Hyield. unfold batchSize.
    assert (((length elements - i + 4) / 5
             = S ((length elements - (i + 5) + 4) / 5))%nat) as ->; [|lia].
    destruct (le_lt_dec 5 (length elements - i)) as [Hbig|Hsmall].
    + replace (length elements - i + 4)%nat
        with (length elements - (i + 5) + 4 + 1 * 5)%nat by lia.
      rewrite Nat.div_add by lia. lia.
    + replace (length elements - (i + 5))%nat with 0%nat by lia.
      assert (length elements - i + 4 = 5 \/ length elements - i + 4 = 6
              \/ length elements - i + 4 = 7 \/ length elements - i + 4 = 8)%nat
        as [-> | [-> | [-> | ->]]] by lia; reflexivity.
  - replace (length elements - i)%nat with 0%nat by lia. done.
Qed.

(** A list of [n] elements is handed over in [ceil(n/5)] groups and the
    loop sleeps 100 ms after each of them, the last included; an empty
    list costs nothing. *)
Theorem processElements_cost (elements : list Element) :
  length (dispatched (processElements elements))
  = ((length elements + 4) / 5)%nat
  /\ totalYield (processElements elements)
     = (100 * ((length elements + 4) / 5))%nat
  /\ (elements = [] -> processElements elements = []).
Proof.
  unfold processElements.
  destruct (processElementsFrom_count elements 0) as [Hcount Hyield].
  rewrite Nat.sub_0_r in *. repeat split; [done..|]. by intros ->.
Qed.

(** *** What a reply does to the element *)

(** The replies that take the blocking branch: a response without error
    text whose [shouldBlock] is set. *)
Definition blocks (reply : Reply) : bool :=
  match reply with
  | Replied response =>
      match Background.error response with
      | Some (_ :: _) => false
      | _ => Background.shouldBlock response
      end
  | NoResponse | Rejected _ => false
  end.

Lemma analyzeElement_start_sent (el : Element) (pg pg1 : Page) (p : Pending) :
  analyzeElement_start el pg = (pg1, Some p) ->
  p = {| p_element := el; p_originalHTML := innerHTML (dom pg el);
         p_originalDisplay := display (dom pg el) |}
  /\ dom pg1 el = setTextContentDots (classAdd PLACEHOLDER_CLASS (dom pg el))
  /\ processedElements pg1 = processedElements pg
  /\ processingElements pg1 = {[el]} ∪ processingElements pg
  /\ analyzedCount pg1 = analyzedCount pg
  /\ blockedCount pg1 = blockedCount pg
  /\ cachedSettings pg1 = cachedSettings pg.
Proof.
  destruct (analyzeElement_start_cases el pg)
    as [(_ & ->)|[(_ & _ & ->)|(_ & _ & ->)]]; [done..|].
  intros [= <- <-]. cbn. by rewrite fn_lookup_insert.
Qed.

(** Whatever the reply, unless it blocks, the element gets its markup and
    its display back and loses the placeholder class; in every case it
    leaves [processingElements] and enters [processedElements].  An error
    text in the response wins over [shouldBlock]. *)
Theorem non_blocking_reply_restores (el : Element) (pg pg1 : Page)
  (p : Pending) (reply : Reply) :
  analyzeElement_start el pg = (pg1, Some p) ->
  blocks reply = false ->
  innerHTML (dom (analyzeElement_resume p reply pg1) el) = innerHTML (dom pg el)
  /\ display (dom (analyzeElement_resume p reply pg1) el) = display (dom pg el)
  /\ classList (dom (analyzeElement_resume p reply pg1) el)
     = classList (dom pg el) ∖ {[PLACEHOLDER_CLASS]}
  /\ (el ∈ processedElements (analyzeElement_resume p reply pg1))
  /\ (el ∉ processingElements (analyzeElement_resume p reply pg1))
  /\ blockedCount (analyzeElement_resume p reply pg1) = blockedCount pg.
Proof.
  intros Hstart Hblocks.
  destruct (analyzeElement_start_sent el pg pg1 p Hstart)
    as (-> & Hdom & _ & _ & _ & Hb & _).
  unfold analyzeElement_resume, onError, restore, removePlaceholder, setNode.
  destruct reply as [response| |e]; cbn [blocks] in Hblocks.
  - destruct (Background.error response) as [[|c msg]|];
      try rewrite Hblocks;
      cbn [finish showDebugIndicator countAnalyzed dom p_element
             processedElements processingElements blockedCount
             p_originalHTML p_originalDisplay];
      rewrite !fn_lookup_insert, ?Hdom;
      cbn [setDisplay setInnerHTML classRemove classAdd setTextContentDots
             innerHTML display classList];
      repeat split; try done; set_solver.
  - cbn [finish showDebugIndicator countAnalyzed dom p_element
           processedElements processingElements blockedCount
           p_originalHTML p_originalDisplay].
    rewrite !fn_lookup_insert, ?Hdom.
    cbn [setDisplay setInnerHTML classRemove classAdd setTextContentDots
           innerHTML display classList].
    repeat split; try done; set_solver.
  - cbn [finish showDebugIndicator countAnalyzed dom p_element
           processedElements processingElements blockedCount
           p_originalHTML p_originalDisplay].
    rewrite !fn_lookup_insert, ?Hdom.
    cbn [setDisplay setInnerHTML classRemove classAdd setTextContentDots
           innerHTML display classList].
    repeat split; try done; set_solver.
Qed.

Lemma resume_blocking (p : Pending) (reply : Reply) (pg : Page) :
  blocks reply = true ->
  dom (analyzeElement_resume p reply pg) (p_element p)
  = (let node := classAdd BLOCKED_CLASS
                   (classRemove PLACEHOLDER_CLASS (dom pg (p_element p))) in
     if match cachedSettings pg with
        | Some settings => Background.allowReveal settings
        | None => true
        end
     then mkNode (tagName node) (elemId node) (classList node)
            blockedWithButton (display node)
            (Some (p_originalHTML p, p_originalDisplay p))
     else setInnerHTML blockedPlain node)
  /\ blockedCount (analyzeElement_resume p reply pg) = S (blockedCount pg)
  /\ processedElements (analyzeElement_resume p reply pg)
     = {[p_element p]} ∪ processedElements pg.
Proof.
  intros Hblocks. unfold analyzeElement_resume.
  destruct reply as [response| |e]; cbn [blocks] in Hblocks; try discriminate.
  destruct (Background.error response) as [[|c msg]|]; try discriminate;
    rewrite Hblocks; cbn zeta; unfold showBlockedContent;
    cbn [countBlocked removePlaceholder countAnalyzed setNode cachedSettings dom];
    rewrite fn_lookup_insert;
    by destruct (match cachedSettings pg with Some _ => _ | None => _ end);
      cbn [finish showDebugIndicator setNode dom blockedCount processedElements];
      rewrite fn_lookup_insert.
Qed.

(** A blocking reply replaces the markup by the notice and marks the
    element blocked.  With [allowReveal] (the default when no settings
    are cached) the notice carries a Show button, and a click on it gives
    back the markup and the display, removes the mark and the button;
    without [allowReveal] there is no button and a click changes
    nothing. *)
Theorem block_then_reveal (el : Element) (pg pg1 : Page) (p : Pending)
  (reply : Reply) :
  analyzeElement_start el pg = (pg1, Some p) ->
  blocks reply = true ->
  let pg2 := analyzeElement_resume p reply pg1 in
  (BLOCKED_CLASS ∈ classList (dom pg2 el))
  /\ blockedCount pg2 = S (blockedCount pg)
  /\ el ∈ processedElements pg2
  /\ if match cachedSettings pg with
        | Some settings => Background.allowReveal settings
        | None => true
        end
     then innerHTML (dom pg2 el) = blockedWithButton
          /\ innerHTML (dom (reveal el pg2) el) = innerHTML (dom pg el)
          /\ display (dom (reveal el pg2) el) = display (dom pg el)
          /\ (BLOCKED_CLASS ∉ classList (dom (reveal el pg2) el))
          /\ reveal el (reveal el pg2) = reveal el pg2
     else innerHTML (dom pg2 el) = blockedPlain
          /\ reveal el pg2 = pg2.
Proof.
  intros Hstart Hblocks pg2.
  destruct (analyzeElement_start_sent el pg pg1 p Hstart)
    as (-> & Hdom & _ & _ & _ & Hb & Hcached).
  destruct (resume_blocking
              {| p_element := el; p_originalHTML := innerHTML (dom pg el);
                 p_originalDisplay := display (dom pg el) |} reply pg1 Hblocks)
    as (Hnode & Hcount & Hproc).
  fold pg2 in Hnode, Hcount, Hproc. cbn [p_element p_originalHTML
    p_originalDisplay] in Hnode, Hproc. rewrite Hcached, Hdom in Hnode.
  rewrite Hcount, Hb, Hproc.
  destruct (match cachedSettings pg with Some _ => _ | None => _ end).
  - cbn zeta in Hnode. unfold reveal. rewrite Hnode.
    cbn [revealButton setNode dom]. rewrite ?fn_lookup_insert.
    cbn [revealButton]. rewrite ?Hnode.
    cbn [classList classAdd classRemove setInnerHTML setDisplay
           setTextContentDots innerHTML display].
    repeat split; try done; set_solver.
  - cbn zeta in Hnode. unfold reveal. rewrite Hnode.
    cbn [classList classAdd classRemove setInnerHTML setDisplay
           setTextContentDots innerHTML display revealButton].
    repeat split; try done; set_solver.
Qed.

(** *** Counters and records along a run *)

Lemma length_removeFirst (p : Pending) (l : list Pending) :
  p ∈ l -> S (length (removeFirst p l)) = length l.
Proof.
  induction l as [|q l IH]; simpl; [by intros ?%elem_of_nil|].
  destruct (decide (p = q)); [done|].
  intros [?|Hin]%elem_of_cons; [done|]. simpl. by rewrite IH.
Qed.

Lemma resume_counts (p : Pending) (reply : Reply) (pg : Page) :
  (analyzedCount pg <= analyzedCount (analyzeElement_resume p reply pg)
   <= S (analyzedCount pg))%nat
  /\ (blockedCount (analyzeElement_resume p reply pg) + analyzedCount pg
      <= blockedCount pg + analyzedCount (analyzeElement_resume p reply pg))%nat
  /\ (blockedCount pg <= blockedCount (analyzeElement_resume p reply pg))%nat.
Proof.
  unfold analyzeElement_resume, showBlockedContent.
  destruct reply as [response| |e]; cbn; [|lia..].
  destruct (Background.error response) as [[|c msg]|];
    destruct (Background.shouldBlock response); cbn; try lia;
    destruct (match cachedSettings pg with Some _ => _ | None => _ end);
    cbn; lia.
Qed.

(** The counters against the traffic: never more blocked than analysed,
    and analysed plus still awaited never more than sent. *)
Definition counted (s : System) : Prop :=
  (blockedCount (page s) <= analyzedCount (page s))%nat
  /\ (analyzedCount (page s) + length (inflight s)
      <= length (outbox (page s)))%nat.

Lemma step_counted (s : System) (ev : Event) : counted s -> counted (step s ev).
Proof.
  intros [Hb Ha]. destruct ev as [el|p reply|el|el node]; unfold step, counted.
  - destruct (analyzeElement_start_cases el (page s))
      as [(_ & ->)|[(_ & _ & ->)|(_ & _ & ->)]];
      cbn; rewrite ?length_app; cbn; lia.
  - destruct (decide (p ∈ inflight s)) as [Hin|]; [|done].
    pose proof (resume_counts p reply (page s)) as (Hc1 & Hc2 & Hc3).
    destruct (resume_outbox p reply (page s)) as [Ho _].
    pose proof (length_removeFirst p _ Hin). cbn [page inflight].
    rewrite Ho. lia.
  - cbn [page inflight]. unfold reveal.
    by destruct (revealButton _) as [[h d]|].
  - done.
Qed.

(** Along every run of the page the number of blocked items never exceeds
    the number of analysed ones, and the analysed ones together with the
    analyses still awaited never exceed the messages sent. *)
Theorem counters_bounded (document : Element -> Node)
  (settings : option Background.Settings) (evs : list Event) :
  let s := run (initial document settings) evs in
  (blockedCount (page s) <= analyzedCount (page s))%nat
  /\ (analyzedCount (page s) + length (inflight s)
      <= length (outbox (page s)))%nat.
Proof.
  cbn zeta. change (counted (run (initial document settings) evs)).
  assert (counted (initial document settings)) as Hinit by (split; cbn; lia).
  revert Hinit. generalize (initial document settings).
  induction evs as [|ev evs IH]; intros s Hs; [done|].
  apply IH. by apply step_counted.
Qed.

Lemma resume_processed (p : Pending) (reply : Reply) (pg : Page) :
  processedElements (analyzeElement_resume p reply pg)
  = {[p_element p]} ∪ processedElements pg.
Proof.
  unfold analyzeElement_resume, showBlockedContent.
  destruct reply as [response| |e]; [|done..].
  destruct (Background.error response) as [[|c msg]|];
    destruct (Background.shouldBlock response); try done;
    by destruct (match cachedSettings _ with Some _ => _ | None => _ end).
Qed.

Lemma step_grows (s : System) (ev : Event) :
  analyzedTexts (page s) ⊆ analyzedTexts (page (step s ev))
  /\ processedElements (page s) ⊆ processedElements (page (step s ev))
  /\ outbox (page s) `prefix_of` outbox (page (step s ev)).
Proof.
  destruct ev as [el|p reply|el|el node]; unfold step.
  - destruct (analyzeElement_start_cases el (page s))
      as [(_ & ->)|[(_ & _ & ->)|(_ & _ & ->)]];
      cbn [page fst analyzedTexts processedElements outbox];
      (split; [set_solver|split; [set_solver|]]); try done.
    by apply prefix_app_r.
  - destruct (decide (p ∈ inflight s)); [|done].
    destruct (resume_outbox p reply (page s)) as [Ho Ha]. cbn [page].
    rewrite Ho, Ha, resume_processed. split; [done|split; [set_solver|done]].
  - destruct (reveal_outbox el (page s)) as [Ho Ha]. cbn [page].
    rewrite Ho, Ha. split; [done|split; [|done]].
    unfold reveal. by destruct (revealButton _) as [[h d]|].
  - done.
Qed.

(** Nothing is ever forgotten: along a run [analyzedTexts] and
    [processedElements] only grow and messages are only appended; hence
    an element once processed is skipped by the scanner ever after. *)
Theorem records_only_grow (s : System) (evs : list Event) :
  analyzedTexts (page s) ⊆ analyzedTexts (page (run s evs))
  /\ processedElements (page s) ⊆ processedElements (page (run s evs))
  /\ outbox (page s) `prefix_of` outbox (page (run s evs))
  /\ (forall el, el ∈ processedElements (page s) ->
        shouldSkipElement (page (run s evs)) el = true).
Proof.
  assert (analyzedTexts (page s) ⊆ analyzedTexts (page (run s evs))
          /\ processedElements (page s) ⊆ processedElements (page (run s evs))
          /\ outbox (page s) `prefix_of` outbox (page (run s evs)))
    as (Ha & Hp & Ho).
  { revert s. induction evs as [|ev evs IH]; intros s; [done|].
    destruct (step_grows s ev) as (Ha & Hp & Ho).
    destruct (IH (step s ev)) as (Ha' & Hp' & Ho'). cbn [run fold_left].
    fold (run (step s ev) evs).
    repeat split; [set_solver..|by etrans]. }
  repeat split; try done.
  intros el Hel. unfold shouldSkipElement.
  repeat (case_bool_decide || destruct (startsWith _ _)); try done.
  set_solver.
Qed.

(** *** An element whose text was already analysed *)




(** The messages on the wire and [analyzedTexts] tell the same story. *)
Definition wellSent (s : System) : Prop :=
  (forall h, h ∈ analyzedTexts (page s) <-> h ∈ textHash <$> outbox (page s))
  /\ forall m, m ∈ outbox (page s) ->
       action m = lit "analyzeText"
       /\ textHash m = hashText (trim (msg_text m))
       /\ (MIN_TEXT_LENGTH <= length (trim (msg_text m)))%nat.

Lemma step_wellSent (s : System) (ev : Event) : wellSent s -> wellSent (step s ev).
Proof.
  intros [Hset Hmsg]. destruct ev as [el|p reply|el|el node]; unfold step.
  - destruct (analyzeElement_start_cases el (page s))
      as [(_ & ->)|[(_ & _ & ->)|(Hlen & _ & ->)]]; [done..|].
    split; cbn [page analyzedTexts outbox].
    + intros h. rewrite fmap_app, elem_of_app, elem_of_union, Hset.
      cbn. rewrite list_elem_of_singleton, elem_of_singleton. tauto.
    + intros m [Hm| ->%list_elem_of_singleton]%elem_of_app; [by apply Hmsg|].
      cbn. by repeat split.
  - destruct (decide (p ∈ inflight s)); [|done].
    destruct (resume_outbox p reply (page s)) as [Ho Ha].
    split; cbn [page]; rewrite ?Ho, ?Ha; done.
  - destruct (reveal_outbox el (page s)) as [Ho Ha].
    split; cbn [page]; rewrite ?Ho, ?Ha; done.
  - done.
Qed.

(** Along every run, the hashes in [analyzedTexts] are exactly those of
    the messages sent, and every message asks for [analyzeText], carries
    the untrimmed text of the element with the hash of its trimmed form,
    and that trimmed form has at least ten units. *)
Theorem messages_well_formed (document : Element -> Node)
  (settings : option Background.Settings) (evs : list Event) :
  let s := run (initial document settings) evs in
  (forall h, h ∈ analyzedTexts (page s) <-> h ∈ textHash <$> outbox (page s))
  /\ size (analyzedTexts (page s)) = length (outbox (page s))
  /\ forall m, m ∈ outbox (page s) ->
       action m = lit "analyzeText"
       /\ textHash m = hashText (trim (msg_text m))
       /\ (MIN_TEXT_LENGTH <= length (trim (msg_text m)))%nat.
Proof.
  cbn zeta.
  assert (wellSent (run (initial document settings) evs)) as [Hset Hmsg].
  { assert (wellSent (initial document settings)) as Hinit.
    { split; [|by intros m ?%elem_of_nil]. intros h. cbn. set_solver. }
    revert Hinit. generalize (initial document settings).
    induction evs as [|ev evs IH]; intros s Hs; [done|].
    apply IH. by apply step_wellSent. }
  pose proof (run_sentOnce _ evs (initial_sentOnce document settings))
    as [Hnodup _].
  repeat split; try apply Hset; try (by apply Hmsg).
  rewrite <- (length_fmap textHash).
  assert (analyzedTexts (page (run (initial document settings) evs))
          = list_to_set (textHash <$> outbox (page (run (initial document settings) evs))))
    as ->.
  { apply set_eq. intros h. by rewrite Hset, elem_of_list_to_set. }
  by apply size_list_to_set.
Qed.

End Scan.

(** *** Finding the elements to analyse *)

(** A child node as the scanner tells them apart: a text node with its
    data, an element, or anything else (a comment, say). *)
Inductive ChildNode :=
| TextChild (data : JsString)
| ElementChild
| OtherChild.

(** The three properties of the computed style that [isVisible] reads. *)
Record ComputedStyle := mkStyle {
  cs_display : JsString;
  cs_visibility : JsString;
  cs_opacity : JsString
}.

Section Discovery.

Variable toLowerCase : JsString -> JsString.
Variable textContentOf : JsString -> JsString.
(** The child nodes a piece of markup parses to. *)
Variable childNodesOf : JsString -> list ChildNode.
(** [element instanceof HTMLElement], [window.getComputedStyle(element)]
    and [element.offsetParent !== null]. *)
Variable isHTMLElement : Element -> bool.
Variable getComputedStyle : Page -> Element -> ComputedStyle.
Variable hasOffsetParent : Page -> Element -> bool.

(** [getDirectTextContent]: the data of the text nodes among the
    children, concatenated and trimmed. *)
Definition getDirectTextContent (pg : Page) (el : Element) : JsString :=
  trim (fold_left
          (fun text child =>
             match child with
             | TextChild data => text ++ data
             | ElementChild | OtherChild => text
             end)
          (childNodesOf (innerHTML (dom pg el))) []).

(** [element.children.length] *)
Definition childrenLength (pg : Page) (el : Element) : nat :=
  length (List.filter
            (fun child => match child with ElementChild => true | _ => false end)
            (childNodesOf (innerHTML (dom pg el)))).

(** [isVisible] *)
Definition isVisible (pg : Page) (el : Element) : bool :=
  if negb (isHTMLElement el) then false
  else
    let style := getComputedStyle pg el in
    negb (bool_decide (cs_display style = lit "none"))
    && negb (bool_decide (cs_visibility style = lit "hidden"))
    && negb (bool_decide (cs_opacity style = lit "0"))
    && hasOffsetParent pg el.

(** [findTextElements], over the candidates that
    [root.querySelectorAll(TEXT_SELECTORS)] returned. *)
Fixpoint findTextElements (pg : Page) (candidates : list Element)
  : list Element :=
  match candidates with
  | [] => []
  | element :: rest =>
      if shouldSkipElement toLowerCase pg element then findTextElements pg rest
      else if negb (isVisible pg element) then findTextElements pg rest
      else
        let text := getAllTextContent textContentOf pg element in
        if (MIN_TEXT_LENGTH <=? length text)%nat then
          let directText := getDirectTextContent pg element in
          if (MIN_TEXT_LENGTH <=? length directText)%nat
             || (childrenLength pg element =? 0)%nat
          then element :: findTextElements pg rest
          else findTextElements pg rest
        else findTextElements pg rest
  end.

(** [processNewContent]: the indicator is updated and the elements found
    are handed to [processElements], if there are any. *)
Definition processNewContent (pg : Page) (candidates : list Element)
  : Page * list Schedule :=
  let elements := findTextElements pg candidates in
  if (0 <? length elements)%nat then
    (showDebugIndicator
       (lit "Found " ++ decimal (length elements) ++ lit " items...") false pg,
     processElements elements)
  else (pg, []).

Lemma findTextElements_In (pg : Page) (candidates : list Element) (el : Element) :
  In el (findTextElements pg candidates) <->
  In el candidates
  /\ shouldSkipElement toLowerCase pg el = false
  /\ isVisible pg el = true
  /\ (MIN_TEXT_LENGTH <= length (getAllTextContent textContentOf pg el))%nat
  /\ ((MIN_TEXT_LENGTH <= length (getDirectTextContent pg el))%nat
      \/ childrenLength pg el = 0%nat).
Proof.
  induction candidates as [|c rest IH]; cbn [findTextElements In]; [tauto|].
  destruct (shouldSkipElement toLowerCase pg c) eqn:Hskip.
  { rewrite IH. split; [tauto|]. intros [[->|?] (? & ?)]; [congruence|tauto]. }
  destruct (isVisible pg c) eqn:Hvis; cbn [negb].
  2:{ rewrite IH. split; [tauto|].
      intros [[->|?] (? & ? & ?)]; [congruence|tauto]. }
  destruct (Nat.leb_spec MIN_TEXT_LENGTH
              (length (getAllTextContent textContentOf pg c))) as [Hlen|Hlen].
  2:{ rewrite IH. split; [tauto|].
      intros [[->|?] (? & ? & ? & ?)]; [lia|tauto]. }
  destruct (Nat.leb_spec MIN_TEXT_LENGTH (length (getDirectTextContent pg c)))
    as [Hdir|Hdir]; cbn [orb].
  { cbn [In]. rewrite IH. split; [|tauto].
    intros [<-|?]; [|tauto]. repeat split; auto. }
  destruct (Nat.eqb_spec (childrenLength pg c) 0) as [Hkids|Hkids].
  { cbn [In]. rewrite IH. split; [|tauto].
    intros [<-|?]; [|tauto]. repeat split; auto. }
  rewrite IH. split; [tauto|].
  intros [[->|?] (? & ? & ? & [?|?])]; try lia; tauto.
Qed.

Lemma shouldSkipElement_false (pg : Page) (el : Element) :
  shouldSkipElement toLowerCase pg el = false ->
  (PLACEHOLDER_CLASS ∉ classList (dom pg el))
  /\ (BLOCKED_CLASS ∉ classList (dom pg el))
  /\ (el ∉ processedElements pg) /\ (el ∉ processingElements pg)
  /\ startsWith (elemId (dom pg el)) (lit "toxic-blocker") = false
  /\ (toLowerCase (tagName (dom pg el)) ∉ SKIP_TAGS).
Proof.
  unfold shouldSkipElement.
  repeat (case_bool_decide || destruct (startsWith _ _)); try done.
Qed.

(** The scanner returns candidates in their order, each at most as often
    as it is listed, and never one that is being analysed, was processed,
    shows a placeholder or a blocked notice, is invisible, or has fewer
    than ten units of trimmed text. *)
Theorem findTextElements_sound (pg : Page) (candidates : list Element) :
  findTextElements pg candidates `sublist_of` candidates
  /\ forall el, In el (findTextElements pg candidates) ->
       (el ∉ processingElements pg) /\ (el ∉ processedElements pg)
       /\ (PLACEHOLDER_CLASS ∉ classList (dom pg el))
       /\ (BLOCKED_CLASS ∉ classList (dom pg el))
       /\ isVisible pg el = true
       /\ (MIN_TEXT_LENGTH <= length (getAllTextContent textContentOf pg el))%nat.
Proof.
  split.
  - induction candidates as [|c rest IH]; cbn [findTextElements]; [done|].
    repeat match goal with
           | |- context [if ?b then _ else _] => destruct b
           end; try (by apply sublist_cons); by apply sublist_skip.
  - intros el (_ & Hskip & Hvis & Hlen & _)%findTextElements_In.
    destruct (shouldSkipElement_false pg el Hskip) as (? & ? & ? & ? & _).
    by repeat split.
Qed.

(** Discovery is idempotent: once [analyzeElement] has been called on an
    element the scanner found, no later scan of that page state returns
    the element again, whatever the candidates. *)
Theorem found_element_not_found_again (pg : Page) (candidates : list Element)
  (el : Element) :
  In el (findTextElements pg candidates) ->
  forall candidates',
    findTextElements (analyzeElement_start textContentOf el pg).1 candidates'
    = findTextElements (analyzeElement_start textContentOf el pg).1
        (List.filter (fun c => negb (c =? el)%nat) candidates').
Proof.
  intros (_ & _ & _ & Hlen & _)%findTextElements_In candidates'.
  assert (shouldSkipElement toLowerCase
            (analyzeElement_start textContentOf el pg).1 el = true) as Hskip.
  { destruct (analyzeElement_start_cases textContentOf el pg)
      as [(Hshort & _)|[(_ & _ & ->)|(_ & _ & ->)]]; [lia| |];
      unfold shouldSkipElement; cbn [fst dom processedElements processingElements];
      rewrite ?fn_lookup_insert;
      repeat (case_bool_decide || destruct (startsWith _ _)); try done;
      cbn [classList setTextContentDots setInnerHTML classAdd] in *; set_solver. }
  induction candidates' as [|c rest IH]; [done|].
  cbn [List.filter]. destruct (Nat.eqb_spec c el) as [->|Hne]; cbn [negb].
  - cbn [findTextElements]. by rewrite Hskip.
  - cbn [findTextElements]. by rewrite IH.
Qed.

(** What [processNewContent] schedules is exactly what the scanner
    found, in the scanner's order; nothing is scheduled and the indicator
    is left alone when nothing was found. *)
Lemma processNewContent_schedules_found (pg : Page) (candidates : list Element) :
  concat (dispatched (processNewContent pg candidates).2)
  = findTextElements pg candidates
  /\ (findTextElements pg candidates = [] ->
      processNewContent pg candidates = (pg, [])).
Proof.
  unfold processNewContent.
  destruct (findTextElements pg candidates) as [|el els] eqn:Hfound.
  - by split.
  - cbn [length Nat.ltb Nat.leb snd]. split; [|done].
    destruct (processElementsFrom_groups (el :: els) 0) as [Hcat _].
    exact Hcat.
Qed.

End Discovery.

(** *** The domain gate *)

Section Domains.

Variable toLowerCase : JsString -> JsString.

(** [isDomainEnabled], for the host name of the page. *)
Definition isDomainEnabled (hostname : JsString) (enabledDomains : list JsString)
  : bool :=
  let currentHost := toLowerCase hostname in
  existsb
    (fun domain =>
       let normalizedDomain := toLowerCase domain in
       bool_decide (currentHost = normalizedDomain)
       || endsWith currentHost (lit "." ++ normalizedDomain))
    enabledDomains.

(** The page is covered exactly when its lower-cased host is a listed
    domain, lower-cased, or ends in a dot followed by one: a listed
    domain covers its subdomains, not the hosts that merely end in its
    letters. *)
Theorem isDomainEnabled_covers (hostname : JsString)
  (enabledDomains : list JsString) :
  isDomainEnabled hostname enabledDomains = true <->
  exists domain, In domain enabledDomains
    /\ (toLowerCase hostname = toLowerCase domain
        \/ exists sub, toLowerCase hostname
                       = sub ++ lit "." ++ toLowerCase domain).
Proof.
  unfold isDomainEnabled. rewrite existsb_exists.
  split; intros (domain & Hin & Hmatch); exists domain; (split; [done|]).
  - apply orb_true_iff in Hmatch as [Heq%bool_decide_eq_true|Hsuf]; [by left|].
    right. by apply endsWith_suffix.
  - apply orb_true_iff. destruct Hmatch as [Heq|Hsuf].
    + left. by apply bool_decide_eq_true.
    + right. by apply endsWith_suffix.
Qed.

End Domains.

(** *** The debounced rescan *)

(** What the observer callback reads of a mutation record: its type and
    the nodes added, of which only elements count. *)
Inductive MutationType := ChildList | Attributes | CharacterData.

Inductive AddedNode :=
| ElementNode (el : Element)
| OtherNode.

Record MutationRecord := mkMutation {
  mutationType : MutationType;
  addedNodes : list AddedNode
}.

(** The two module variables, the timers this script has running in the
    window (handle and due time, in ms), the next handle the window
    gives out, the clock, and the calls of [processNewContent] made by
    the timer callback (time and root), in order. *)
Record Debouncer := mkDebouncer {
  debounceTimer : option nat;
  pendingNodes : list Element;
  timers : list (nat * nat);
  nextHandle : nat;
  now : nat;
  scanned : list (nat * Element)
}.

(** [Set.prototype.add]: insertion order, no duplicates. *)
Definition setAdd (el : Element) (s : list Element) : list Element :=
  if bool_decide (el ∈ s) then s else s ++ [el].

Definition addElementNodes (pending : list Element) (nodes : list AddedNode)
  : list Element :=
  fold_left
    (fun p node =>
       match node with
       | ElementNode el => setAdd el p
       | OtherNode => p
       end)
    nodes pending.

Definition addMutations (pending : list Element) (mutations : list MutationRecord)
  : list Element :=
  fold_left
    (fun p mutation =>
       match mutationType mutation with
       | ChildList => addElementNodes p (addedNodes mutation)
       | Attributes | CharacterData => p
       end)
    mutations pending.

Definition clearTimeout (handle : nat) (d : Debouncer) : Debouncer :=
  mkDebouncer (debounceTimer d) (pendingNodes d)
    (List.filter (fun t => negb (t.1 =? handle)%nat) (timers d))
    (nextHandle d) (now d) (scanned d).

Definition setTimeout (delay : nat) (d : Debouncer) : nat * Debouncer :=
  (nextHandle d,
   mkDebouncer (debounceTimer d) (pendingNodes d)
     (timers d ++ [(nextHandle d, now d + delay)%nat])
     (S (nextHandle d)) (now d) (scanned d)).

(** [debouncedProcess]: [if (debounceTimer)] is a truth test, which the
    handle 0 would fail. *)
Definition debouncedProcess (d : Debouncer) : Debouncer :=
  let d1 :=
    match debounceTimer d with
    | Some handle => if (handle =? 0)%nat then d else clearTimeout handle d
    | None => d
    end in
  let '(handle, d2) := setTimeout 500 d1 in
  mkDebouncer (Some handle) (pendingNodes d2) (timers d2) (nextHandle d2)
    (now d2) (scanned d2).

(** The callback of the [MutationObserver]. *)
Definition observerCallback (mutations : list MutationRecord) (d : Debouncer)
  : Debouncer :=
  let d1 :=
    mkDebouncer (debounceTimer d) (addMutations (pendingNodes d) mutations)
      (timers d) (nextHandle d) (now d) (scanned d) in
  if (0 <? length (pendingNodes d1))%nat then debouncedProcess d1 else d1.

(** The callback of the timer. *)
Definition timerCallback (d : Debouncer) : Debouncer :=
  let nodes := pendingNodes d in
  mkDebouncer None [] (timers d) (nextHandle d) (now d)
    (scanned d ++ map (fun node => (now d, node)) nodes).

Inductive DebounceEvent :=
| EvMutations (mutations : list MutationRecord)
| EvElapse (ms : nat)
| EvTimer (handle : nat).

(** A timer runs once, when it is live and due. *)
Definition isDue (handle : nat) (d : Debouncer) : bool :=
  existsb (fun t => (t.1 =? handle)%nat && (t.2 <=? now d)%nat) (timers d).

Definition debounceStep (d : Debouncer) (ev : DebounceEvent) : Debouncer :=
  match ev with
  | EvMutations mutations => observerCallback mutations d
  | EvElapse ms =>
      mkDebouncer (debounceTimer d) (pendingNodes d) (timers d) (nextHandle d)
        (now d + ms)%nat (scanned d)
  | EvTimer handle =>
      if isDue handle d then timerCallback (clearTimeout handle d) else d
  end.

Definition debounceRun (d : Debouncer) (evs : list DebounceEvent) : Debouncer :=
  fold_left debounceStep evs d.

(** The script starts with no timer and nothing pending; the window's
    handles are positive. *)
Definition debounceInitial (t0 : nat) : Debouncer :=
  mkDebouncer None [] [] 1 t0 [].

(** The element nodes that the observer was told were added. *)
Definition observedIn (mutations : list MutationRecord) : list Element :=
  flat_map
    (fun mutation =>
       match mutationType mutation with
       | ChildList =>
           flat_map
             (fun node => match node with ElementNode el => [el] | OtherNode => [] end)
             (addedNodes mutation)
       | Attributes | CharacterData => []
       end)
    mutations.

Definition observed (evs : list DebounceEvent) : list Element :=
  flat_map
    (fun ev => match ev with EvMutations ms => observedIn ms | _ => [] end)
    evs.

(** What holds of the debouncer between any two callbacks. *)
Definition coherent (d : Debouncer) : Prop :=
  (0 < nextHandle d)%nat /\ NoDup (pendingNodes d)
  /\ match debounceTimer d with
     | None => timers d = [] /\ pendingNodes d = []
     | Some handle =>
         exists due, timers d = [(handle, due)]
           /\ (0 < handle < nextHandle d)%nat
           /\ (due <= now d + 500)%nat
           /\ pendingNodes d <> []
     end.

Lemma elem_of_setAdd (el x : Element) (s : list Element) :
  x ∈ setAdd el s <-> x = el \/ x ∈ s.
Proof.
  unfold setAdd. case_bool_decide; [set_solver|].
  rewrite elem_of_app, list_elem_of_singleton. tauto.
Qed.

Lemma NoDup_setAdd (el : Element) (s : list Element) :
  NoDup s -> NoDup (setAdd el s).
Proof.
  intros Hs. unfold setAdd. case_bool_decide; [done|].
  apply list.NoDup_app. split; [done|]. split; [|apply NoDup_singleton].
  intros x Hx ->%list_elem_of_singleton. done.
Qed.

Lemma elem_of_addElementNodes (nodes : list AddedNode) (p : list Element)
  (x : Element) :
  x ∈ addElementNodes p nodes <-> x ∈ p \/ ElementNode x ∈ nodes.
Proof.
  unfold addElementNodes. revert p.
  induction nodes as [|node nodes IH]; intros p; cbn [fold_left].
  - rewrite elem_of_nil. tauto.
  - rewrite IH, elem_of_cons. destruct node as [el|].
    + rewrite elem_of_setAdd. split; [|naive_solver].
      intros [[->|?]|?]; auto.
    + split; [tauto|]. intros [?|[?|?]]; auto. discriminate.
Qed.

Lemma NoDup_addElementNodes (nodes : list AddedNode) (p : list Element) :
  NoDup p -> NoDup (addElementNodes p nodes).
Proof.
  unfold addElementNodes. revert p.
  induction nodes as [|[el|] nodes IH]; intros p Hp; cbn [fold_left]; auto.
  apply IH. by apply NoDup_setAdd.
Qed.

Lemma elem_of_addMutations (mutations : list MutationRecord) (p : list Element)
  (x : Element) :
  x ∈ addMutations p mutations <-> x ∈ p \/ x ∈ observedIn mutations.
Proof.
  unfold addMutations, observedIn. revert p.
  induction mutations as [|m ms IH]; intros p; cbn [fold_left flat_map].
  - rewrite elem_of_nil. tauto.
  - rewrite IH, elem_of_app.
    destruct (mutationType m); try (rewrite elem_of_nil; tauto).
    rewrite elem_of_addElementNodes.
    assert (ElementNode x ∈ addedNodes m <->
            x ∈ flat_map (fun node => match node with
                                      | ElementNode el => [el]
                                      | OtherNode => []
                                      end) (addedNodes m)) as ->; [|tauto].
    induction (addedNodes m) as [|[el|] nodes IHn]; cbn [flat_map].
    + by rewrite !elem_of_nil.
    + rewrite elem_of_cons, elem_of_app, list_elem_of_singleton, IHn.
      split; [intros [[= ->]|?]; auto|intros [->|?]; auto].
    + rewrite elem_of_cons, IHn. cbn [app]. split; [|auto].
      intros [?|?]; [discriminate|done].
Qed.

Lemma NoDup_addMutations (mutations : list MutationRecord) (p : list Element) :
  NoDup p -> NoDup (addMutations p mutations).
Proof.
  unfold addMutations. revert p.
  induction mutations as [|m ms IH]; intros p Hp; cbn [fold_left]; auto.
  apply IH. destruct (mutationType m); auto. by apply NoDup_addElementNodes.
Qed.

Lemma isDue_live (handle : nat) (d : Debouncer) :
  isDue handle d = true ->
  exists due, (handle, due) ∈ timers d /\ (due <= now d)%nat.
Proof.
  unfold isDue. rewrite existsb_exists.
  intros ([h due] & Hin & [Hh%Nat.eqb_eq Hdue%Nat.leb_le]%andb_true_iff).
  cbn in Hh, Hdue. subst h. exists due. split; [|done].
  by apply list_elem_of_In.
Qed.

Lemma debounceInitial_coherent (t0 : nat) : coherent (debounceInitial t0).
Proof. unfold coherent. cbn. repeat split; [lia|constructor]. Qed.

Lemma debounceStep_coherent (d : Debouncer) (ev : DebounceEvent) :
  coherent d -> coherent (debounceStep d ev).
Proof.
  intros (Hnext & Hnodup & Htimer). destruct ev as [mutations|ms|handle].
  - cbn [debounceStep]. unfold observerCallback. cbn [pendingNodes].
    pose proof (NoDup_addMutations mutations _ Hnodup) as Hnodup'.
    destruct (addMutations (pendingNodes d) mutations) as [|x pending'] eqn:Hadd.
    + cbn [length Nat.ltb Nat.leb]. unfold coherent.
      cbn [nextHandle pendingNodes debounceTimer timers now].
      split; [done|]. split; [constructor|].
      destruct (debounceTimer d) as [h|]; [|tauto].
      destruct Htimer as (due & _ & _ & _ & Hne).
      destruct (pendingNodes d) as [|y ys] eqn:Hp; [done|].
      assert (y ∈ addMutations (y :: ys) mutations) as Hy
        by (apply elem_of_addMutations; left; left).
      rewrite Hadd in Hy. by apply elem_of_nil in Hy.
    + cbn [length Nat.ltb Nat.leb]. unfold debouncedProcess, coherent.
      cbn [debounceTimer].
      destruct (debounceTimer d) as [h|].
      * destruct Htimer as (due & Ht & Hh & _ & _).
        destruct (Nat.eqb_spec h 0) as [->|_]; [lia|].
        unfold clearTimeout, setTimeout.
        cbn [timers nextHandle now pendingNodes debounceTimer scanned].
        rewrite Ht. cbn [List.filter fst]. rewrite Nat.eqb_refl. cbn [negb app].
        split; [lia|]. split; [done|]. exists (now d + 500)%nat.
        repeat split; [lia|lia|lia|done].
      * destruct Htimer as (Ht & _).
        unfold setTimeout.
        cbn [timers nextHandle now pendingNodes debounceTimer scanned].
        rewrite Ht. cbn [app].
        split; [lia|]. split; [done|]. exists (now d + 500)%nat.
        repeat split; [lia|lia|lia|done].
  - cbn [debounceStep]. unfold coherent.
    cbn [nextHandle pendingNodes debounceTimer timers now].
    split; [done|]. split; [done|].
    destruct (debounceTimer d) as [h|]; [|done].
    destruct Htimer as (due & Ht & Hh & Hdue & Hne).
    exists due. repeat split; [done|lia|lia|lia|done].
  - cbn [debounceStep]. destruct (isDue handle d) eqn:Hdue.
    + unfold timerCallback, clearTimeout, coherent.
      cbn [nextHandle pendingNodes debounceTimer timers now].
      apply isDue_live in Hdue as (due & Hin & _).
      split; [done|]. split; [constructor|]. split; [|done].
      destruct (debounceTimer d) as [h|].
      * destruct Htimer as (due' & Ht & _). rewrite Ht in Hin |- *.
        apply list_elem_of_singleton in Hin. injection Hin as <- <-.
        cbn [List.filter fst]. by rewrite Nat.eqb_refl.
      * destruct Htimer as (Ht & _). by rewrite Ht.
    + by repeat split.
Qed.

Lemma debounceRun_coherent (evs : list DebounceEvent) (d : Debouncer) :
  coherent d -> coherent (debounceRun d evs).
Proof.
  unfold debounceRun. revert d.
  induction evs as [|ev evs IH]; intros d Hd; cbn [fold_left]; [done|].
  apply IH. by apply debounceStep_coherent.
Qed.

(** However the mutations, the clock and the timers interleave, the
    script has at most one timer running, the one [debounceTimer] names,
    and it has one exactly when nodes are pending; the pending nodes are
    pairwise distinct. *)
Theorem debounce_single_timer (t0 : nat) (evs : list DebounceEvent) :
  let d := debounceRun (debounceInitial t0) evs in
  (length (timers d) <= 1)%nat
  /\ map fst (timers d) = option_list (debounceTimer d)
  /\ (pendingNodes d = [] <-> timers d = [])
  /\ NoDup (pendingNodes d).
Proof.
  cbv zeta.
  destruct (debounceRun_coherent evs _ (debounceInitial_coherent t0))
    as (_ & Hnodup & Htimer).
  destruct (debounceTimer (debounceRun (debounceInitial t0) evs)) as [h|].
  - destruct Htimer as (due & -> & _ & _ & Hne). cbn.
    repeat split; [lia|done|done|done].
  - destruct Htimer as (-> & ->). cbn. repeat split; [lia|constructor].
Qed.

Lemma debounceStep_keeps (d : Debouncer) (ev : DebounceEvent) (x : Element) :
  x ∈ pendingNodes d \/ x ∈ map snd (scanned d) ->
  x ∈ pendingNodes (debounceStep d ev) \/ x ∈ map snd (scanned (debounceStep d ev)).
Proof.
  intros Hx. destruct ev as [mutations|ms|handle]; cbn [debounceStep].
  - unfold observerCallback. cbn [pendingNodes].
    assert (x ∈ addMutations (pendingNodes d) mutations \/ x ∈ map snd (scanned d))
      as Hx' by (rewrite elem_of_addMutations; tauto).
    destruct (0 <? _)%nat; [|done].
    unfold debouncedProcess. cbn [debounceTimer].
    by destruct (debounceTimer d) as [h|]; [destruct (h =? 0)%nat|].
  - done.
  - destruct (isDue handle d); [|done].
    unfold timerCallback, clearTimeout. cbn [pendingNodes scanned now].
    right. rewrite map_app, elem_of_app, map_map. cbn [snd]. rewrite map_id.
    tauto.
Qed.

Lemma debounceStep_observes (d : Debouncer) (mutations : list MutationRecord)
  (x : Element) :
  x ∈ observedIn mutations ->
  x ∈ pendingNodes (debounceStep d (EvMutations mutations)).
Proof.
  intros Hx. cbn [debounceStep]. unfold observerCallback. cbn [pendingNodes].
  assert (x ∈ addMutations (pendingNodes d) mutations) as Hx'
    by (rewrite elem_of_addMutations; tauto).
  destruct (0 <? _)%nat; [|done].
  unfold debouncedProcess. cbn [debounceTimer].
  by destruct (debounceTimer d) as [h|]; [destruct (h =? 0)%nat|].
Qed.

(** No added element is lost: every element node the observer was told
    of is still pending or was handed to [processNewContent]. *)
Theorem debounce_loses_no_node (d0 : Debouncer) (evs : list DebounceEvent)
  (x : Element) :
  x ∈ observed evs ->
  x ∈ pendingNodes (debounceRun d0 evs)
  \/ x ∈ map snd (scanned (debounceRun d0 evs)).
Proof.
  unfold debounceRun.
  induction evs as [|ev evs IH] using rev_ind; [by intros ?%elem_of_nil|].
  unfold observed. rewrite flat_map_app, fold_left_app, elem_of_app.
  cbn [fold_left flat_map]. rewrite app_nil_r.
  intros [Hbefore|Hnow].
  - apply debounceStep_keeps. by apply IH.
  - destruct ev as [mutations| |]; try by apply elem_of_nil in Hnow.
    left. by apply debounceStep_observes.
Qed.

(** Pending nodes never wait for good: whenever nodes are pending, the
    timer that [debounceTimer] names is due within 500 ms, and its
    callback hands every pending node to [processNewContent], in the
    order of their arrival, and leaves nothing pending and no timer. *)
Theorem debounce_scans_within_delay (t0 : nat) (evs : list DebounceEvent) :
  let d := debounceRun (debounceInitial t0) evs in
  pendingNodes d <> [] ->
  exists handle,
    debounceTimer d = Some handle
    /\ let d' := debounceRun d [EvElapse 500; EvTimer handle] in
       pendingNodes d' = [] /\ debounceTimer d' = None /\ timers d' = []
       /\ map snd (scanned d') = map snd (scanned d) ++ pendingNodes d.
Proof.
  cbv zeta. intros Hpending.
  destruct (debounceRun_coherent evs _ (debounceInitial_coherent t0))
    as (_ & _ & Htimer).
  set (d := debounceRun (debounceInitial t0) evs) in *.
  destruct (debounceTimer d) as [h|] eqn:Hh; [|by destruct Htimer].
  destruct Htimer as (due & Ht & _ & Hdue & _).
  exists h. split; [done|].
  unfold debounceRun. cbn [fold_left debounceStep].
  unfold isDue. cbn [timers now]. rewrite Ht. cbn [existsb fst snd].
  rewrite Nat.eqb_refl. destruct (Nat.leb_spec due (now d + 500)); [|lia].
  cbn [andb orb]. unfold timerCallback, clearTimeout.
  cbn [pendingNodes debounceTimer timers scanned now].
  rewrite ?Ht. cbn [List.filter fst]. rewrite Nat.eqb_refl. cbn [negb].
  repeat split. rewrite map_app, map_map. cbn [snd]. by rewrite map_id.
Qed.

Lemma observerCallback_arms (mutations : list MutationRecord) (d : Debouncer) :
  coherent d ->
  pendingNodes (observerCallback mutations d) <> [] ->
  exists handle,
    timers (observerCallback mutations d) = [(handle, now d + 500)%nat]
    /\ now (observerCallback mutations d) = now d
    /\ scanned (observerCallback mutations d) = scanned d.
Proof.
  intros (_ & _ & Htimer). unfold observerCallback. cbn [pendingNodes].
  destruct (addMutations (pendingNodes d) mutations) as [|x pending'];
    cbn [length Nat.ltb Nat.leb pendingNodes]; [done|]. intros _.
  unfold debouncedProcess. cbn [debounceTimer].
  destruct (debounceTimer d) as [h|].
  - destruct Htimer as (due & Ht & Hh & _).
    destruct (Nat.eqb_spec h 0) as [->|_]; [lia|].
    unfold clearTimeout, setTimeout. cbn [timers nextHandle now scanned].
    rewrite Ht. cbn [List.filter fst]. rewrite Nat.eqb_refl. cbn [negb app].
    by eexists.
  - destruct Htimer as (Ht & _).
    unfold setTimeout. cbn [timers nextHandle now scanned]. rewrite Ht.
    by eexists.
Qed.

(** The scans that happen from a time [T] on, with every live timer due
    no sooner than [T + 500]. *)
Definition quietSince (T : nat) (before : list (nat * Element)) (d : Debouncer)
  : Prop :=
  (T <= now d)%nat
  /\ (forall t, t ∈ timers d -> (T + 500 <= t.2)%nat)
  /\ forall s, s ∈ scanned d -> s ∈ before \/ (T + 500 <= s.1)%nat.

Lemma debounceStep_quiet (T : nat) (before : list (nat * Element))
  (d : Debouncer) (ev : DebounceEvent) :
  quietSince T before d -> quietSince T before (debounceStep d ev).
Proof.
  intros (Hnow & Htimers & Hscans). destruct ev as [mutations|ms|handle].
  - cbn [debounceStep]. unfold observerCallback. cbn [pendingNodes].
    destruct (0 <? _)%nat; [|done].
    unfold debouncedProcess, setTimeout, quietSince. cbn [debounceTimer].
    destruct (debounceTimer d) as [h|]; [destruct (h =? 0)%nat|];
      unfold clearTimeout; cbn [timers nextHandle now scanned pendingNodes];
      (split; [done|]); (split; [|done]); intros t;
      rewrite elem_of_app, list_elem_of_singleton;
      (intros [Hin| ->]; [|cbn [snd]; lia]); auto.
    apply list_elem_of_In, filter_In in Hin as [Hin%list_elem_of_In _]. auto.
  - cbn [debounceStep]. unfold quietSince. cbn [timers now scanned].
    split; [lia|]. by split.
  - cbn [debounceStep]. destruct (isDue handle d) eqn:Hdue; [|done].
    apply isDue_live in Hdue as (due & Hin & Hdue).
    pose proof (Htimers _ Hin) as Hlate. cbn [snd] in Hlate.
    unfold timerCallback, clearTimeout, quietSince.
    cbn [timers now scanned pendingNodes].
    split; [done|]. split.
    + intros t [Ht%list_elem_of_In _]%list_elem_of_In%filter_In. auto.
    + intros s [Hs|Hs]%elem_of_app; [auto|].
      apply list_elem_of_fmap in Hs as (x & -> & _). right. cbn [fst]. lia.
Qed.

Lemma debounceRun_quiet (T : nat) (before : list (nat * Element))
  (evs : list DebounceEvent) (d : Debouncer) :
  quietSince T before d -> quietSince T before (debounceRun d evs).
Proof.
  unfold debounceRun. revert d.
  induction evs as [|ev evs IH]; intros d Hd; cbn [fold_left]; [done|].
  apply IH. by apply debounceStep_quiet.
Qed.

Lemma debounceRun_snoc (d : Debouncer) (evs : list DebounceEvent)
  (ev : DebounceEvent) :
  debounceRun d (evs ++ [ev]) = debounceStep (debounceRun d evs) ev.
Proof. unfold debounceRun. by rewrite fold_left_app. Qed.

(** A burst of mutations is answered by one scan after it has gone
    quiet: once an observer callback has left nodes pending at time [T],
    every call of [processNewContent] made afterwards is made at
    [T + 500] or later, whatever happens in between. *)
Theorem debounce_quiet_period (t0 : nat) (pre mid : list DebounceEvent)
  (mutations : list MutationRecord) :
  let d1 := debounceRun (debounceInitial t0) (pre ++ [EvMutations mutations]) in
  let d2 := debounceRun d1 mid in
  pendingNodes d1 <> [] ->
  forall s, s ∈ scanned d2 -> s ∈ scanned d1 \/ (now d1 + 500 <= s.1)%nat.
Proof.
  cbv zeta. rewrite !debounceRun_snoc. cbn [debounceStep]. intros Hpending.
  pose proof (debounceRun_coherent pre _ (debounceInitial_coherent t0)) as Hco.
  destruct (observerCallback_arms mutations _ Hco Hpending)
    as (h & Ht & Hnow & Hscan).
  set (d1 := observerCallback mutations (debounceRun (debounceInitial t0) pre)) in *.
  assert (quietSince (now d1) (scanned d1) d1) as Hq.
  { split; [done|]. split; [|auto].
    intros t. rewrite Ht. intros ->%list_elem_of_singleton. cbn [snd]. lia. }
  by destruct (debounceRun_quiet _ _ mid _ Hq) as (_ & _ & Hs).
Qed.


(** *** Concrete instances for the worked examples *)

(** The text of markup without character references: what lies outside
    the tags. *)
Fixpoint stripTags (inTag : bool) (html : JsString) : JsString :=
  match html with
  | [] => []
  | c :: rest =>
      if inTag then stripTags (negb (c =? 62)) rest
      else if c =? 60 then stripTags true rest
      else c :: stripTags false rest
  end.

Definition sampleNode (html : JsString) : Node :=
  {| tagName := lit "DIV"; elemId := []; classList := ∅; innerHTML := html;
     display := []; revealButton := None |}.

(** Two elements carry the same sentence, the others a short word. *)
Definition sampleDocument (el : Element) : Node :=
  match el with
  | O | S O => sampleNode (lit "<p>Huge spoiler: he dies</p>")
  | _ => sampleNode (lit "<b>short</b>")
  end.

Definition sampleStart : System := initial sampleDocument None.

Definition blockVerdict : Background.AnalysisResponse :=
  {| Background.shouldBlock := true; Background.matched_by := lit "keyword";
     Background.matched_keyword := Some (lit "spoiler");
     Background.error := None |}.

(** Two inputs whose fingerprints differ in length. *)
Lemma hashText_length_counterexample :
  hashText [] = lit "0"
  /\ hashText (lit "a") = lit "2p"
  /\ hashText (lit "Huge spoiler: he dies") = lit "-k83q7x"
  /\ length (hashText []) <> length (hashText (lit "Huge spoiler: he dies")).
Proof. repeat split. vm_compute. discriminate. Qed.

(** The C8 theorem at the sentence of the examples. *)
Lemma hashText_witness :
  (1 <= length (hashText (lit "Huge spoiler: he dies")) <= 7)%nat
  /\ hashText (lit "Huge spoiler: he dies")
     = hashText (lit "Huge spoiler: he dies").
Proof.
  split.
  - apply (hashText_width (lit "Huge spoiler: he dies")).
  - apply (proj2 (proj2 (proj2 (hashText_width (lit "Huge spoiler: he dies"))))).
    reflexivity.
Defined.

(** Twelve paragraphs with a text of their own each. *)
Definition numberedDocument (el : Element) : Node :=
  sampleNode (lit "paragraph number " ++ decimal el).

(** The C7 theorem at twelve elements: three groups of 5, 5 and 2, and
    on a page of twelve different paragraphs, the replies of a group
    arriving last first, 5, 5 and 2 calls in flight together. *)
Lemma processElements_witness :
  let turns :=
    (runLoop (stripTags false) (fun _ => NoResponse) reverse
       (processElements (seq 0 12)) (initial numberedDocument None)).1 in
  length <$> dispatched (processElements (seq 0 12)) = [5; 5; 2]%nat
  /\ (fun t => length (inflight (turn_suspended t))) <$> turns = [5; 5; 2]%nat
  /\ (fun t => length (outbox (page (turn_suspended t)))) <$> turns
     = [5; 10; 12]%nat
  /\ Forall (concurrentTurn (stripTags false) (fun _ => NoResponse)) turns.
Proof.
  cbv zeta.
  pose proof (processElements_groups (stripTags false) (seq 0 12))
    as (_ & _ & _ & _ & Hsizes & _ & Hloop).
  destruct (Hloop (fun _ => NoResponse) reverse (initial numberedDocument None)
              (fun l => reverse_Permutation l) eq_refl) as (_ & Hturns & _).
  split; [exact (Hsizes eq_refl)|].
  split; [vm_compute; reflexivity|]. split; [vm_compute; reflexivity|].
  exact Hturns.
Defined.

(** The C4 theorem on the sample page: element 0 is analysed, element 1
    is looked at meanwhile, and element 0 is enqueued twice more. *)
Lemma enqueue_twice_witness :
  outbox (page (step (stripTags false) sampleStart (EvAnalyze 0%nat)))
  = [{| action := lit "analyzeText";
        msg_text := textContent (stripTags false) (page sampleStart) 0%nat;
        textHash := hashText (getAllTextContent (stripTags false)
                                (page sampleStart) 0%nat) |}]
  /\ step (stripTags false)
       (run (stripTags false)
          (step (stripTags false) sampleStart (EvAnalyze 0%nat))
          [EvAnalyze 1%nat; EvAnalyze 0%nat])
       (EvAnalyze 0%nat)
     = run (stripTags false)
         (step (stripTags false) sampleStart (EvAnalyze 0%nat))
         [EvAnalyze 1%nat; EvAnalyze 0%nat].
Proof.
  pose proof (proj2 (proj2 (hash_classified_at_most_once asciiToLowerCase
                              (stripTags false)))
                eq_refl sampleStart 0%nat [EvAnalyze 1%nat; EvAnalyze 0%nat])
    as Hrun.
  cbv zeta in Hrun.
  assert ((MIN_TEXT_LENGTH
           <= length (getAllTextContent (stripTags false) (page sampleStart) 0%nat))%nat)
    as Hlen by (vm_compute; lia).
  assert (hashText (getAllTextContent (stripTags false) (page sampleStart) 0%nat)
          ∉ analyzedTexts (page sampleStart)) as Hfresh by apply not_elem_of_empty.
  assert (Forall (fun ev => touches 0%nat ev = false)
            [EvAnalyze 1%nat; EvAnalyze 0%nat]) as Hevs by (by repeat constructor).
  destruct (Hrun Hlen Hfresh Hevs) as (Hout & _ & _ & _ & Hnoop).
  split; [exact Hout|exact Hnoop].
Defined.


Definition allowVerdict : Background.AnalysisResponse :=
  {| Background.shouldBlock := false; Background.matched_by := lit "none";
     Background.matched_keyword := None; Background.error := None |}.

(** The suspended analysis of element 0 of the sample page. *)
Definition samplePending : Pending :=
  {| p_element := 0%nat;
     p_originalHTML := lit "<p>Huge spoiler: he dies</p>";
     p_originalDisplay := [] |}.

Definition sampleSent : Page :=
  (analyzeElement_start (stripTags false) 0%nat (page sampleStart)).1.

Lemma sample_start_sends :
  analyzeElement_start (stripTags false) 0%nat (page sampleStart)
  = (sampleSent, Some samplePending).
Proof. reflexivity. Qed.

Lemma non_blocking_reply_witness :
  innerHTML (dom (analyzeElement_resume samplePending (Replied allowVerdict)
                    sampleSent) 0%nat)
  = lit "<p>Huge spoiler: he dies</p>".
Proof.
  apply (non_blocking_reply_restores asciiToLowerCase (stripTags false) 0%nat
           (page sampleStart)
           sampleSent samplePending (Replied allowVerdict)
           sample_start_sends eq_refl).
Defined.

Lemma block_then_reveal_witness :
  innerHTML (dom (analyzeElement_resume samplePending (Replied blockVerdict)
                    sampleSent) 0%nat) = blockedWithButton
  /\ innerHTML (dom (reveal 0%nat
                       (analyzeElement_resume samplePending
                          (Replied blockVerdict) sampleSent)) 0%nat)
     = lit "<p>Huge spoiler: he dies</p>".
Proof.
  pose proof (block_then_reveal (stripTags false) 0%nat (page sampleStart)
                sampleSent samplePending (Replied blockVerdict)
                sample_start_sends eq_refl) as (_ & _ & _ & Hshow).
  cbn [cachedSettings page sampleStart initial] in Hshow.
  destruct Hshow as (Hnotice & Hback & _). by split.
Defined.

(** A page of visible elements that hold one text node each. *)
Definition plainChildNodes (html : JsString) : list ChildNode :=
  if truthyString html then [TextChild html] else [].

Definition visibleStyle : ComputedStyle :=
  mkStyle (lit "block") (lit "visible") (lit "1").

Definition plainPage : Page :=
  page (initial (fun _ => sampleNode (lit "Huge spoiler: he dies")) None).

Definition plainScan (pg : Page) (candidates : list Element) : list Element :=
  findTextElements asciiToLowerCase (stripTags false) plainChildNodes
    (fun _ => true) (fun _ _ => visibleStyle) (fun _ _ => true) pg candidates.

Lemma rescan_witness :
  plainScan plainPage [0; 1]%nat = [0; 1]%nat
  /\ plainScan (analyzeElement_start (stripTags false) 0%nat plainPage).1
       [0; 1]%nat
     = plainScan (analyzeElement_start (stripTags false) 0%nat plainPage).1
         [1]%nat.
Proof.
  split; [reflexivity|].
  apply (found_element_not_found_again asciiToLowerCase (stripTags false)
           plainChildNodes (fun _ => true) (fun _ _ => visibleStyle)
           (fun _ _ => true) plainPage [0; 1]%nat 0%nat).
  left. reflexivity.
Defined.

(** One callback reporting the element 7 twice, a comment node and an
    attribute change. *)
Definition sampleMutations : list MutationRecord :=
  [mkMutation ChildList [ElementNode 7%nat; OtherNode; ElementNode 7%nat];
   mkMutation Attributes [ElementNode 8%nat]].

Lemma loses_no_node_witness :
  pendingNodes (debounceRun (debounceInitial 0) [EvMutations sampleMutations])
  = [7%nat]
  /\ (7%nat ∈ pendingNodes
              (debounceRun (debounceInitial 0)
                 [EvMutations sampleMutations; EvElapse 500; EvTimer 1])
      \/ 7%nat ∈ map snd
                   (scanned
                      (debounceRun (debounceInitial 0)
                         [EvMutations sampleMutations; EvElapse 500; EvTimer 1]))).
Proof.
  split; [reflexivity|].
  apply (debounce_loses_no_node (debounceInitial 0)
           [EvMutations sampleMutations; EvElapse 500; EvTimer 1] 7%nat).
  vm_compute. repeat constructor.
Defined.

Lemma scans_within_delay_witness :
  exists handle,
    debounceTimer (debounceRun (debounceInitial 0) [EvMutations sampleMutations])
    = Some handle
    /\ scanned
         (debounceRun
            (debounceRun (debounceInitial 0) [EvMutations sampleMutations])
            [EvElapse 500; EvTimer handle])
       = [(500, 7)]%nat.
Proof.
  destruct (debounce_scans_within_delay 0 [EvMutations sampleMutations])
    as (handle & Hhandle & _).
  { vm_compute. discriminate. }
  exists handle. split; [exact Hhandle|].
  injection Hhandle as <-. reflexivity.
Defined.

Lemma quiet_period_witness :
  (500, 7)%nat ∈ scanned
                   (debounceRun (debounceInitial 0)
                      [EvMutations sampleMutations])
  \/ (now (debounceRun (debounceInitial 0) [EvMutations sampleMutations]) + 500
      <= 500)%nat.
Proof.
  apply (debounce_quiet_period 0 [] [EvElapse 500; EvTimer 1] sampleMutations
           ltac:(vm_compute; discriminate) (500, 7)%nat).
  vm_compute. repeat constructor.
Defined.

End Content.

(** * The two scripts together *)

Module Messaging.

Import Js.

Section Listener.

Variable toLowerCase : JsString -> JsString.
Variables converterS2T converterT2S : JsString -> JsString.
Variable JSON_parse : JsString -> JsError + JsValue.
Variables msgNullProperty msgNotCallable : JsString.
Variable textContentOf : JsString -> JsString.

Let analyzeText :=
  Background.analyzeText toLowerCase converterS2T converterT2S JSON_parse
    msgNullProperty msgNotCallable.

(** The listener of [chrome.runtime.onMessage] in the background
    script: the response it sends, if it sends one, and the value it
    returns ([true], or [undefined], which is falsy). *)
Definition onMessage (w : Background.World) (message : Content.AnalyzeTextMessage)
  : option (Background.Eff Background.AnalysisResponse) * bool :=
  if bool_decide (Content.action message = lit "analyzeText") then
    (Some (Background.tryCatch (analyzeText w (Content.msg_text message))
             (fun error =>
                Background.ret
                  {| Background.shouldBlock := false;
                     Background.matched_by := lit "none";
                     Background.matched_keyword := None;
                     Background.error := Some (String_of_error error) |})),
     true)
  else (None, false).

(** The listener answers a message exactly when its action is
    [analyzeText]; it then keeps the channel open and answers with what
    [analyzeText] returns for the text of the message, and as
    [analyzeText] does not throw, the listener's own handler for a
    rejection never runs. *)
Theorem listener_answers_with_verdict (w : Background.World)
  (message : Content.AnalyzeTextMessage) :
  (Content.action message = lit "analyzeText" ->
   onMessage w message
   = (Some (analyzeText w (Content.msg_text message)), true)
   /\ exists verdict,
        Background.outcome (analyzeText w (Content.msg_text message))
        = inr verdict)
  /\ (Content.action message <> lit "analyzeText" ->
      onMessage w message = (None, false)).
Proof.
  unfold onMessage. split; intros Haction.
  - rewrite bool_decide_eq_true_2 by done.
    destruct (Background.analyzeText_outcome toLowerCase converterS2T
                converterT2S JSON_parse msgNullProperty msgNotCallable w
                (Content.msg_text message)) as [Hout _].
    fold analyzeText in Hout.
    destruct (analyzeText w (Content.msg_text message)) as [[e|verdict] tr]
      eqn:Hrun; cbn [Background.outcome fst] in Hout.
    + by destruct (Background.outcome _).
    + split; [done|by exists verdict].
  - by rewrite bool_decide_eq_false_2.
Qed.

(** From the page to the notice: an element with ten or more units of
    unseen text that includes, in lower case, one of the keywords, the
    keyword layer being on. The content script sends one message for it,
    the listener answers it with a blocking verdict without any request
    to the classifier, and on that answer the element shows the blocked
    notice and the counter of blocked elements goes up by one. *)
Theorem keyword_on_page_is_blocked (w : Background.World)
  (settings : Background.Settings) (k : JsString) (pg : Content.Page)
  (el : Content.Element) :
  Background.outcome (Background.getSettings w) = inr settings ->
  Background.keywordFilterEnabled settings = true ->
  In k (Background.parseKeywords toLowerCase (Background.keywords settings)) ->
  includes (toLowerCase (Content.textContent textContentOf pg el)) k = true ->
  (Content.MIN_TEXT_LENGTH
   <= length (Content.getAllTextContent textContentOf pg el))%nat ->
  Content.hashText (Content.getAllTextContent textContentOf pg el)
  ∉ Content.analyzedTexts pg ->
  exists pg1 p message response verdict,
    Content.analyzeElement_start textContentOf el pg = (pg1, Some p)
    /\ Content.outbox pg1 = Content.outbox pg ++ [message]
    /\ onMessage w message = (Some response, true)
    /\ Background.outcome response = inr verdict
    /\ Background.requests response = []
    /\ Background.matched_by verdict = lit "keyword"
    /\ let pg2 := Content.analyzeElement_resume p (Content.Replied verdict) pg1 in
       (Content.BLOCKED_CLASS ∈ Content.classList (Content.dom pg2 el))
       /\ Content.innerHTML (Content.dom pg2 el)
          = (if match Content.cachedSettings pg with
                | Some cached => Background.allowReveal cached
                | None => true
                end
             then Content.blockedWithButton else Content.blockedPlain)
       /\ Content.blockedCount pg2 = S (Content.blockedCount pg)
       /\ el ∈ Content.processedElements pg2.
Proof.
  intros Hsettings Hon Hk Hincludes Hlen Hfresh.
  destruct (Content.analyzeElement_start_cases textContentOf el pg)
    as [(Hshort & _)|[(_ & Hseen & _)|(_ & _ & Hstart)]]; [lia|done|].
  destruct (Background.find_is_Some
              (fun keyword =>
                 includes (toLowerCase (Content.textContent textContentOf pg el))
                   keyword) _ k Hk Hincludes) as (k1 & Hfind).
  assert (analyzeText w (Content.textContent textContentOf pg el)
          = (inr {| Background.shouldBlock := true;
                    Background.matched_by := lit "keyword";
                    Background.matched_keyword := Some k1;
                    Background.error := None |}, [])) as Hrun.
  { apply Background.analyzeText_of_pipeline.
    rewrite (Background.pipeline_settings _ _ _ _ _ _ w _ settings Hsettings).
    rewrite (Background.keywordLayer_match toLowerCase settings _ k1 Hon);
      [done|].
    by rewrite Background.checkKeywordMatch_find. }
  eexists _, _, _, _, _. split; [exact Hstart|].
  split; [reflexivity|]. split.
  { unfold onMessage. cbn [Content.action Content.msg_text].
    rewrite bool_decide_eq_true_2 by done. rewrite Hrun. reflexivity. }
  split; [reflexivity|]. split; [reflexivity|]. split; [reflexivity|].
  cbv zeta.
  match goal with
  | |- context [Content.analyzeElement_resume ?p ?r ?pg1] =>
      destruct (Content.resume_blocking p r pg1 eq_refl)
        as (Hnode & Hcount & Hproc)
  end.
  cbn [Content.p_element] in Hnode, Hproc. rewrite Hnode, Hcount, Hproc.
  cbn [Content.cachedSettings Content.dom Content.p_element
         Content.blockedCount Content.processedElements
         Content.p_originalHTML Content.p_originalDisplay].
  rewrite fn_lookup_insert.
  destruct (match Content.cachedSettings pg with Some _ => _ | None => _ end);
    cbn [Content.classList Content.innerHTML Content.classAdd
           Content.classRemove Content.setInnerHTML
           Content.setTextContentDots];
    (split; [set_solver|]); (split; [done|]); (split; [done|]); set_solver.
Qed.

End Listener.

(** *** Worked example *)

Definition sampleListener :=
  onMessage asciiToLowerCase Background.sampleS2T Background.sampleT2S
    Background.referenceJSON Background.msgNull Background.msgCall.

Definition spoilerWorld : Background.World :=
  Background.sampleWorld Background.spoilerSettings Background.serverError.

Lemma keyword_on_page_witness :
  exists pg1 p message response verdict,
    Content.analyzeElement_start (Content.stripTags false) 0%nat
      (Content.page Content.sampleStart) = (pg1, Some p)
    /\ Content.outbox pg1
       = Content.outbox (Content.page Content.sampleStart) ++ [message]
    /\ sampleListener spoilerWorld message = (Some response, true)
    /\ Background.outcome response = inr verdict
    /\ Background.requests response = []
    /\ Background.matched_by verdict = lit "keyword"
    /\ let pg2 := Content.analyzeElement_resume p (Content.Replied verdict) pg1 in
       (Content.BLOCKED_CLASS ∈ Content.classList (Content.dom pg2 0%nat))
       /\ Content.innerHTML (Content.dom pg2 0%nat) = Content.blockedWithButton
       /\ Content.blockedCount pg2 = 1%nat
       /\ 0%nat ∈ Content.processedElements pg2.
Proof.
  apply (keyword_on_page_is_blocked asciiToLowerCase Background.sampleS2T
           Background.sampleT2S Background.referenceJSON Background.msgNull
           Background.msgCall (Content.stripTags false) spoilerWorld
           Background.spoilerSettings (lit "spoiler")
           (Content.page Content.sampleStart) 0%nat).
  - reflexivity.
  - reflexivity.
  - vm_compute. auto.
  - reflexivity.
  - vm_compute. lia.
  - apply not_elem_of_empty.
Defined.

End Messaging.

(** * The popup ([src/popup/popup.ts]) *)

Module Popup.

Import Js.

(** The [replace(/^www\./, '')] of [extractDomain], applied to the host
    name of the tab's URL. *)
Definition stripWww (hostname : JsString) : JsString :=
  if startsWith hostname (lit "www.") then drop 4 hostname else hostname.

(** [isDomainEnabled], with [currentSettings.enabledDomains] as an
    argument. *)
Definition isDomainEnabled (enabledDomains : list JsString) (domain : JsString)
  : bool :=
  existsb
    (fun d => bool_decide (domain = d) || endsWith domain (lit "." ++ d))
    enabledDomains.

(** [countKeywords] *)
Definition countKeywords (keywordsString : JsString) : nat :=
  if negb (truthyString (trim keywordsString)) then 0%nat
  else
    length (List.filter (fun k => (0 <? length k)%nat)
              (List.map trim (split 44 keywordsString))).

(** [toggleCurrentSite]: the new value of
    [currentSettings.enabledDomains]; without a current domain ([null],
    or the empty string) nothing happens. *)
Definition toggleCurrentSite (currentDomain : option JsString)
  (enabledDomains : list JsString) : list JsString :=
  match currentDomain with
  | None => enabledDomains
  | Some domain =>
      if negb (truthyString domain) then enabledDomains
      else if isDomainEnabled enabledDomains domain then
        List.filter
          (fun d => negb (bool_decide (d = domain))
                    && negb (endsWith domain (lit "." ++ d)))
          enabledDomains
      else enabledDomains ++ [domain]
  end.

Lemma isDomainEnabled_false (enabledDomains : list JsString) (domain : JsString) :
  isDomainEnabled enabledDomains domain = false <->
  forall d, In d enabledDomains ->
    d <> domain /\ endsWith domain (lit "." ++ d) = false.
Proof.
  unfold isDomainEnabled. rewrite <- not_true_iff_false, existsb_exists. split.
  - intros Hnone d Hd. split.
    + intros ->. apply Hnone. exists domain. split; [done|].
      by rewrite bool_decide_eq_true_2.
    + destruct (endsWith domain (lit "." ++ d)) eqn:Hends; [|done].
      exfalso. apply Hnone. exists d. split; [done|].
      by rewrite Hends, orb_true_r.
  - intros Hall (d & Hd & Hmatch). destruct (Hall d Hd) as [Hne Hends].
    rewrite Hends, orb_false_r in Hmatch.
    by apply bool_decide_eq_true in Hmatch.
Qed.

(** The button always changes the status the popup shows for the site:
    after a toggle the site is enabled exactly if it was not before. *)
Theorem toggle_flips_status (domain : JsString) (enabledDomains : list JsString) :
  domain <> [] ->
  isDomainEnabled (toggleCurrentSite (Some domain) enabledDomains) domain
  = negb (isDomainEnabled enabledDomains domain).
Proof.
  intros Hdomain. unfold toggleCurrentSite.
  destruct domain as [|c domain]; [done|]. cbn [truthyString negb].
  destruct (isDomainEnabled enabledDomains (c :: domain)) eqn:Henabled;
    cbn [negb].
  - apply isDomainEnabled_false. intros d [_ Hkeep]%filter_In.
    apply andb_true_iff in Hkeep as [Hne%negb_true_iff Hends%negb_true_iff].
    split; [|done]. by apply bool_decide_eq_false in Hne.
  - unfold isDomainEnabled. rewrite existsb_app. cbn [existsb].
    by rewrite bool_decide_eq_true_2, !orb_true_r.
Qed.

(** Switching a site on and off again gives back the list of enabled
    domains as it was, in its order. *)
Theorem toggle_on_off_restores (domain : JsString)
  (enabledDomains : list JsString) :
  domain <> [] ->
  isDomainEnabled enabledDomains domain = false ->
  toggleCurrentSite (Some domain) (toggleCurrentSite (Some domain) enabledDomains)
  = enabledDomains.
Proof.
  intros Hdomain Hoff.
  assert (toggleCurrentSite (Some domain) enabledDomains
          = enabledDomains ++ [domain]) as ->.
  { unfold toggleCurrentSite. destruct domain; [done|]. by rewrite Hoff. }
  unfold toggleCurrentSite. destruct domain as [|c domain]; [done|].
  cbn [truthyString negb]. unfold JsString in *.
  destruct (isDomainEnabled (enabledDomains ++ [c :: domain]) (c :: domain))
    eqn:Hon.
  2:{ unfold isDomainEnabled in Hon. rewrite existsb_app in Hon.
      cbn [existsb] in Hon.
      by rewrite bool_decide_eq_true_2, !orb_true_r in Hon. }
  rewrite List.filter_app. cbn [List.filter].
  rewrite bool_decide_eq_true_2 by done. cbn [negb andb]. rewrite app_nil_r.
  apply forallb_filter_id, forallb_forall. intros d Hd.
  destruct (proj1 (isDomainEnabled_false _ _) Hoff d Hd) as [Hne ->].
  by rewrite bool_decide_eq_false_2.
Qed.

Section Agreement.

Variable toLowerCase : JsString -> JsString.

(** The count the popup shows is the number of keywords the engine
    works with, lower-casing never emptying a keyword. *)
Theorem countKeywords_counts_engine_keywords (keywordsString : JsString) :
  (forall s, toLowerCase s = [] <-> s = []) ->
  countKeywords keywordsString
  = length (Background.parseKeywords toLowerCase keywordsString).
Proof.
  intros Hlower. unfold countKeywords, Background.parseKeywords.
  destruct (negb (truthyString (trim keywordsString))); [done|].
  induction (split 44 keywordsString) as [|piece pieces IH]; [done|].
  cbn [List.map List.filter].
  destruct (trim piece) as [|c k] eqn:Hpiece.
  - rewrite (proj2 (Hlower []) eq_refl). cbn [length Nat.ltb Nat.leb]. exact IH.
  - destruct (toLowerCase (c :: k)) as [|c' k'] eqn:Hlow.
    + by apply (proj1 (Hlower _)) in Hlow.
    + cbn [length Nat.ltb Nat.leb]. by f_equal.
Qed.

(** Whenever the popup shows a site as enabled, the content script runs
    on it: with the stored domains and the host name in lower case, a
    domain that covers the host name without its [www.] prefix covers
    the host name. *)
Theorem popup_enabled_opens_gate (hostname : JsString)
  (enabledDomains : list JsString) :
  toLowerCase hostname = hostname ->
  (forall d, In d enabledDomains -> toLowerCase d = d) ->
  isDomainEnabled enabledDomains (stripWww hostname) = true ->
  Content.isDomainEnabled toLowerCase hostname enabledDomains = true.
Proof.
  intros Hhost Hdomains.
  unfold isDomainEnabled, Content.isDomainEnabled.
  rewrite !existsb_exists, Hhost.
  intros (d & Hd & Hmatch). exists d. split; [done|].
  rewrite (Hdomains d Hd). apply orb_true_iff.
  unfold stripWww in Hmatch.
  destruct (startsWith hostname (lit "www.")) eqn:Hwww; [|by apply orb_true_iff].
  apply startsWith_prefix in Hwww as [rest ->].
  change (drop 4 (lit "www." ++ rest)) with rest in Hmatch.
  right. apply endsWith_suffix.
  apply orb_true_iff in Hmatch as [->%bool_decide_eq_true|Hsuf].
  - by exists (lit "www").
  - apply endsWith_suffix in Hsuf as [pre ->]. exists (lit "www." ++ pre).
    by rewrite <- !app_assoc.
Qed.

End Agreement.

(** *** Worked examples *)

Lemma asciiToLowerCase_empty (s : JsString) :
  asciiToLowerCase s = [] <-> s = [].
Proof. by destruct s. Qed.

Lemma toggle_flips_witness :
  isDomainEnabled
    (toggleCurrentSite (Some (lit "news.example.com"))
       [lit "example.com"; lit "other.org"])
    (lit "news.example.com")
  = negb (isDomainEnabled [lit "example.com"; lit "other.org"]
            (lit "news.example.com")).
Proof.
  apply (toggle_flips_status (lit "news.example.com")
           [lit "example.com"; lit "other.org"]).
  vm_compute. discriminate.
Defined.

Lemma toggle_on_off_witness :
  toggleCurrentSite (Some (lit "example.com"))
    (toggleCurrentSite (Some (lit "example.com")) [lit "other.org"])
  = [lit "other.org"].
Proof.
  apply (toggle_on_off_restores (lit "example.com") [lit "other.org"]).
  - vm_compute. discriminate.
  - reflexivity.
Defined.

Lemma countKeywords_witness :
  countKeywords (lit "Spoiler, ,LEAK,") = 2%nat
  /\ countKeywords (lit "Spoiler, ,LEAK,")
     = length (Background.parseKeywords asciiToLowerCase (lit "Spoiler, ,LEAK,")).
Proof.
  split; [reflexivity|].
  apply (countKeywords_counts_engine_keywords asciiToLowerCase
           (lit "Spoiler, ,LEAK,") asciiToLowerCase_empty).
Defined.

Lemma popup_gate_witness :
  stripWww (lit "www.example.com") = lit "example.com"
  /\ Content.isDomainEnabled asciiToLowerCase (lit "www.example.com")
       [lit "example.com"] = true.
Proof.
  split; [reflexivity|].
  apply (popup_enabled_opens_gate asciiToLowerCase (lit "www.example.com")
           [lit "example.com"]).
  - reflexivity.
  - intros d [<-|[]]. reflexivity.
  - reflexivity.
Defined.

End Popup.

(** * The options page ([src/options/options.ts]) *)

Module Options.

Import Js.

(** The classes of the domain pattern, under its [i] flag. *)
Definition isAsciiLetter (c : Z) : bool :=
  ((65 <=? c) && (c <=? 90)) || ((97 <=? c) && (c <=? 122)).

Definition isDomainUnit (c : Z) : bool :=
  isAsciiLetter c || ((48 <=? c) && (c <=? 57)) || (c =? 46) || (c =? 45).

(** The test of [/^[a-z0-9.-]+\.[a-z]{2,}$/i]: some position holds a dot
    with one or more units of the first class before it, back to the
    start, and two or more letters after it, up to the end. *)
Definition validDomain (s : JsString) : bool :=
  existsb
    (fun i =>
       (0 <? i)%nat
       && forallb isDomainUnit (take i s)
       && bool_decide (s !! i = Some 46)
       && (2 <=? length (drop (S i) s))%nat
       && forallb isAsciiLetter (drop (S i) s))
    (seq 0 (length s)).

(** What a click on the add button does: nothing, an error notice, or a
    longer list of domains (and an emptied input field). *)
Inductive AddOutcome :=
| Ignored
| Rejected (message : JsString)
| Added (enabledDomains : list JsString).

(** [removeDomain]: the new value of [currentSettings.enabledDomains]. *)
Definition removeDomain (domain : JsString) (enabledDomains : list JsString)
  : list JsString :=
  List.filter (fun d => negb (bool_decide (d = domain))) enabledDomains.

Section Page.

Variable toLowerCase : JsString -> JsString.

(** [addDomain], for the value of the input field. *)
Definition addDomain (value : JsString) (enabledDomains : list JsString)
  : AddOutcome :=
  let domain := toLowerCase (trim value) in
  if negb (truthyString domain) then Ignored
  else if negb (validDomain domain) then Rejected (lit "Invalid domain format")
  else if bool_decide (domain ∈ enabledDomains)
       then Rejected (lit "Domain already added")
  else Added (enabledDomains ++ [domain]).

(** [parseApiError] *)
Definition parseApiError (error : JsString) : JsString :=
  let lowerError := toLowerCase error in
  if includes lowerError (lit "401") || includes lowerError (lit "unauthorized")
     || includes lowerError (lit "invalid api key")
  then lit "Invalid API key"
  else if includes lowerError (lit "429") || includes lowerError (lit "rate limit")
  then lit "Rate limit exceeded - try again later"
  else if includes lowerError (lit "403") || includes lowerError (lit "forbidden")
  then lit "Access forbidden - check API key permissions"
  else if includes lowerError (lit "404") || includes lowerError (lit "not found")
  then lit "Model not found - check model name"
  else if includes lowerError (lit "500")
          || includes lowerError (lit "internal server")
  then lit "Groq server error - try again later"
  else if includes lowerError (lit "network") || includes lowerError (lit "fetch")
  then lit "Network error - check your connection"
  else if includes lowerError (lit "timeout")
  then lit "Request timed out - try again"
  else if (50 <? length error)%nat then substringTo 47 error ++ lit "..."
  else error.

(** The notice shown after a failed connection test is never longer
    than 50 units, whatever the error was. *)
Theorem parseApiError_fits (error : JsString) :
  (length (parseApiError error) <= 50)%nat.
Proof.
  unfold parseApiError.
  repeat match goal with
         | |- context [if ?b then _ else _] => destruct b eqn:?
         end; try (vm_compute; lia).
  - unfold substringTo. rewrite length_app, length_take.
    change (length (lit "...")) with 3%nat. lia.
  - apply Nat.ltb_ge. assumption.
Qed.

Lemma removeDomain_fresh (domain : JsString) (enabledDomains : list JsString) :
  domain ∉ enabledDomains -> removeDomain domain enabledDomains = enabledDomains.
Proof.
  intros Hfresh. unfold removeDomain.
  apply forallb_filter_id, forallb_forall. intros d Hd%list_elem_of_In.
  apply negb_true_iff, bool_decide_eq_false. by intros ->.
Qed.

(** A domain that the add button accepts is put last and was not in the
    list, so a list without duplicates stays one; it is in lower case
    and trimmed form, matches the domain pattern, and removing it again
    gives back the list as it was. *)
Theorem addDomain_keeps_distinct (value : JsString)
  (enabledDomains added : list JsString) :
  addDomain value enabledDomains = Added added ->
  let domain := toLowerCase (trim value) in
  added = enabledDomains ++ [domain]
  /\ (domain ∉ enabledDomains)
  /\ validDomain domain = true
  /\ (NoDup enabledDomains -> NoDup added)
  /\ removeDomain domain added = enabledDomains.
Proof.
  unfold addDomain. cbv zeta.
  destruct (truthyString (toLowerCase (trim value))); [|done]. cbn [negb].
  destruct (validDomain (toLowerCase (trim value))) eqn:Hvalid; [|done].
  cbn [negb]. case_bool_decide as Hin; [done|]. intros [= <-].
  split; [done|]. split; [done|]. split; [done|]. split.
  - intros Hnodup. apply list.NoDup_app. split; [done|].
    split; [|apply NoDup_singleton].
    by intros x Hx ->%list_elem_of_singleton.
  - unfold removeDomain. rewrite List.filter_app. cbn [List.filter].
    rewrite bool_decide_eq_true_2 by done. cbn [negb]. rewrite app_nil_r.
    by apply removeDomain_fresh.
Qed.

End Page.

(** What the domain pattern lets through: at least four units, all of
    them ASCII letters, digits, dots or hyphens, and a last label of two
    or more letters after a dot. *)
Lemma validDomain_shape (s : JsString) :
  validDomain s = true <->
  exists name tld, s = name ++ [46] ++ tld
    /\ name <> [] /\ Forall (fun c => isDomainUnit c = true) name
    /\ (2 <= length tld)%nat /\ Forall (fun c => isAsciiLetter c = true) tld.
Proof.
  unfold validDomain. rewrite existsb_exists. split.
  - intros (i & Hi & Hmatch).
    apply andb_true_iff in Hmatch as [Hmatch Htld].
    apply andb_true_iff in Hmatch as [Hmatch Hlen%Nat.leb_le].
    apply andb_true_iff in Hmatch as [Hmatch Hdot%bool_decide_eq_true].
    apply andb_true_iff in Hmatch as [Hpos%Nat.ltb_lt Hname].
    exists (take i s), (drop (S i) s). split; [|split; [|split; [|split]]].
    + rewrite <- (take_drop i s) at 1. f_equal.
      by rewrite (drop_S _ _ _ Hdot).
    + intros Hnil. apply (f_equal length) in Hnil.
      apply lookup_lt_Some in Hdot. rewrite length_take in Hnil.
      cbn in Hnil. lia.
    + apply Forall_forall. intros c Hc.
      by apply (proj1 (forallb_forall _ _) Hname).
    + done.
    + apply Forall_forall. intros c Hc.
      by apply (proj1 (forallb_forall _ _) Htld).
  - intros (name & tld & -> & Hname & Hunits & Hlen & Hletters).
    exists (length name). split.
    + apply in_seq. rewrite length_app. cbn. lia.
    + rewrite take_app_length.
      replace (S (length name)) with (length (name ++ [46])) by
        (rewrite length_app; cbn; lia).
      rewrite (app_assoc name [46] tld), drop_app_length.
      rewrite <- (app_assoc name [46] tld).
      rewrite bool_decide_eq_true_2 by (by apply list_lookup_middle).
      rewrite (proj2 (Nat.leb_le _ _) Hlen).
      rewrite (proj2 (Nat.ltb_lt 0 (length name)))
        by (destruct name; [done|cbn; lia]).
      cbn [andb]. rewrite !andb_true_r. apply andb_true_iff. split.
      * apply forallb_forall. intros x Hx.
        by apply (proj1 (Forall_forall _ _) Hunits).
      * apply forallb_forall. intros x Hx.
        by apply (proj1 (Forall_forall _ _) Hletters).
Qed.

(** *** Worked examples *)

Lemma addDomain_witness :
  addDomain asciiToLowerCase (lit "  Example.COM ") [lit "news.org"]
  = Added [lit "news.org"; lit "example.com"]
  /\ NoDup [lit "news.org"; lit "example.com"]
  /\ removeDomain (lit "example.com") [lit "news.org"; lit "example.com"]
     = [lit "news.org"].
Proof.
  split; [reflexivity|].
  destruct (addDomain_keeps_distinct asciiToLowerCase (lit "  Example.COM ")
              [lit "news.org"] [lit "news.org"; lit "example.com"] eq_refl)
    as (_ & _ & _ & Hnodup & Hremove).
  split; [|exact Hremove].
  apply Hnodup, NoDup_singleton.
Defined.

End Options.
